(** * leaf-lesion: a shallow embedding of [scripts/analysis.py]

    The script is glue code: it walks a dtool dataset, loads each item as a
    microscopy collection, pushes every series through a fixed segmentation
    chain of the jicbioimage / scikit-image libraries and writes one
    annotated PNG per series next to an audit log.

    The embedding keeps that shape.  The functions of the script are
    programs in a small free monad [Prog] whose operations are the calls
    the script makes into the operating system, [logging], [argparse],
    dtool and jicbioimage.  One interpreter, [exec], runs a program in a
    [World] (file system, [AutoName] / [AutoWrite] class attributes, the
    root logger) and returns the result, the final world and the list of
    calls that were made. *)

From Stdlib Require Import ZArith NArith Lia Ascii String DecimalString DecimalN.
From stdpp Require Import base strings list gmap.

Local Open Scope string_scope.
Local Open Scope Z_scope.
Local Open Scope list_scope.

(** ** Python values *)

(** [errno] codes the file-system model can produce. *)
Inductive Errno := EEXIST | ENOENT | ENOTDIR | EISDIR.

#[global] Instance Errno_eq_dec : EqDecision Errno.
Proof. solve_decision. Defined.

(** The exceptions that occur in a run of the script.  [SystemExit] is what
    [parser.error] raises (status 2, after printing the message);
    [LibraryError] stands for any exception raised inside dtool or
    jicbioimage. *)
Inductive Exn :=
| OSError (e : Errno)
| KeyError (key : string)
| SystemExit (status : Z) (message : string)
| LibraryError (what : string).

#[global] Instance Exn_eq_dec : EqDecision Exn.
Proof. solve_decision. Defined.

(** Outcome of a call: a value or a raised exception. *)
Inductive result (A : Type) :=
| Ok (a : A)
| Raise (e : Exn).
Arguments Ok {A} a.
Arguments Raise {A} e.

(** *** [str.format] with the specification [{:03d}] *)

(** Decimal digits of a natural number, as [str(n)] prints them. *)
Definition decimal (n : N) : string := NilZero.string_of_uint (N.to_uint n).

Fixpoint zeros (k : nat) : string :=
  match k with
  | O => ""
  | S k' => String "0"%char (zeros k')
  end.

(** [s.zfill(w)] for a string of digits. *)
Definition zfill (w : nat) (s : string) : string :=
  zeros (w - String.length s) +:+ s.

(** ["{:03d}".format(n)]: minimum width three, padded with zeros after the
    sign, so the sign counts towards the width. *)
Definition format_03d (n : Z) : string :=
  if n <? 0 then "-" +:+ zfill 2 (decimal (Z.to_N (- n)))
  else zfill 3 (decimal (Z.to_N n)).

(** ["{:d}".format(n)], the library's default counter format. *)
Definition format_d (n : Z) : string :=
  if n <? 0 then "-" +:+ decimal (Z.to_N (- n)) else decimal (Z.to_N n).

(** *** Reading a formatted number back *)

(** The number a string of decimal digits denotes. *)
Definition parse_digits (s : string) : option N :=
  N.of_uint <$> NilEmpty.uint_of_string s.

(** The integer a string denotes: an optional minus sign, then digits. *)
Definition parse_int (s : string) : option Z :=
  match s with
  | String c t =>
      if bool_decide (c = "-"%char) then (fun n => - Z.of_N n) <$> parse_digits t
      else Z.of_N <$> parse_digits s
  | EmptyString => None
  end.

(** ** Paths *)

Definition sep : ascii := "/"%char.

Definition startswith_sep (s : string) : bool :=
  match s with
  | String c _ => bool_decide (c = sep)
  | EmptyString => false
  end.

Fixpoint endswith_sep (s : string) : bool :=
  match s with
  | EmptyString => false
  | String c EmptyString => bool_decide (c = sep)
  | String _ s' => endswith_sep s'
  end.

(** [os.path.join(a, b)] of [posixpath]: an absolute [b] discards [a]. *)
Definition os_path_join (a b : string) : string :=
  if startswith_sep b then b
  else if bool_decide (a = "") || endswith_sep a then a +:+ b
  else a +:+ "/" +:+ b.

(** [s.split("/")]. *)
Fixpoint split_sep (s : string) : list string :=
  match s with
  | EmptyString => [""]
  | String c s' =>
      if bool_decide (c = sep) then "" :: split_sep s'
      else match split_sep s' with
           | h :: t => String c h :: t
           | [] => [String c ""]
           end
  end.

Definition is_name (c : string) : bool :=
  negb (bool_decide (c = "")) && negb (bool_decide (c = ".")).

(** The names along a path: empty components and ["."] do not count. *)
Definition components (s : string) : list string :=
  filter (fun c => is_name c = true) (split_sep s).

(** Whether [".."] is one of the names along a path, and whether ["."] or
    [".."] is one of its parts. *)
Definition has_dotdot (s : string) : bool :=
  bool_decide (".." ∈ components s).


(** A location in the file-system model: whether the path is absolute, and
    the names from the root (or from the working directory) down.  The
    working directory itself is [(false, [])].

    Scope of the model.  A location is read off the text of a path, where
    the operating system resolves the path against what exists.  The two
    agree on a file system without symbolic links for paths without
    [".."] ([has_dotdot]), compared among relative paths or among
    absolute ones: there, two paths name one file exactly when their
    locations are equal.  [".."] is kept as a name like any other, and the
    place of the working directory below the root is not part of the
    model, so a path through [".."] and a relative path set against an
    absolute one are outside this scope; statements that compare
    locations carry these conditions as hypotheses.  A path that is to be
    created is in scope when it has no ["."] either ([has_dots]):
    [os.mkdir] refuses a new name followed by ["."]. *)
Definition Key : Type := bool * list string.

(** The empty string names nothing ([stat("")] fails).  Empty components
    and ["."] are dropped wherever they stand: the operating system does
    so after a directory, and refuses them after a regular file, a case
    that the properties below do not rest on. *)
Definition path_key (s : string) : option Key :=
  if bool_decide (s = "") then None
  else Some (startswith_sep s, components s).

Definition parent (k : Key) : Key := (k.1, removelast k.2).

(** [k] lies at or below [d]: both absolute or both relative, and the
    names of [d] begin those of [k].  Within the scope given at [Key]
    this is containment in the file system; for a [d] through [".."] or
    an absolute [d] set against a relative [k] it says nothing about
    containment, and the statements that use it for a path of the user
    are restricted to relative paths without [".."]. *)
Definition under (d k : Key) : Prop := d.1 = k.1 ∧ d.2 `prefix_of` k.2.

#[global] Instance under_dec (d k : Key) : Decision (under d k).
Proof. unfold under. apply _. Defined.

(** The backend directory of [get_microscopy_collection], as a location. *)
Definition backend_key : Key := (false, ["output"; ".backend"]).

(** ** File system *)

Record FS := mkFS {
  dirs : gset Key;
  files : gmap Key string
}.

Definition is_root (k : Key) : bool := bool_decide (k.2 = []).

Definition isdir_key (fs : FS) (k : Key) : bool :=
  is_root k || bool_decide (k ∈ dirs fs).

Definition isfile_key (fs : FS) (k : Key) : bool :=
  bool_decide (is_Some (files fs !! k)).

Definition exists_key (fs : FS) (k : Key) : bool :=
  isdir_key fs k || isfile_key fs k.

(** [os.path.isdir]. *)
Definition fs_isdir (fs : FS) (p : string) : bool :=
  match path_key p with
  | Some k => isdir_key fs k
  | None => false
  end.

Definition fs_isfile (fs : FS) (p : string) : bool :=
  match path_key p with
  | Some k => isfile_key fs k
  | None => false
  end.

(** The error, if any, that resolving the directory holding [k] gives. *)
Definition parent_error (fs : FS) (k : Key) : option Errno :=
  if isdir_key fs (parent k) then None
  else if isfile_key fs (parent k) then Some ENOTDIR
  else Some ENOENT.

(** [mkdir(2)] at a location. *)
Definition mkdir_key (fs : FS) (k : Key) : result unit * FS :=
  match parent_error fs k with
  | Some e => (Raise (OSError e), fs)
  | None =>
      if exists_key fs k then (Raise (OSError EEXIST), fs)
      else (Ok tt, mkFS ({[k]} ∪ dirs fs) (files fs))
  end.

(** [os.mkdir]. *)
Definition fs_mkdir (fs : FS) (p : string) : result unit * FS :=
  match path_key p with
  | Some k => mkdir_key fs k
  | None => (Raise (OSError ENOENT), fs)
  end.

(** [os.makedirs] (with [exist_ok=False]): the missing directories along
    the path are made from the top down, then the leaf itself. *)
Fixpoint makedirs_from (fs : FS) (a : bool) (pre rest : list string)
  : result unit * FS :=
  match rest with
  | [] => mkdir_key fs (a, pre)
  | [c] => mkdir_key fs (a, pre ++ [c])
  | c :: rest' =>
      let k := (a, pre ++ [c]) in
      if exists_key fs k then makedirs_from fs a (pre ++ [c]) rest'
      else match mkdir_key fs k with
           | (Ok _, fs') => makedirs_from fs' a (pre ++ [c]) rest'
           | (Raise e, fs') => (Raise e, fs')
           end
  end.

Definition fs_makedirs (fs : FS) (p : string) : result unit * FS :=
  match path_key p with
  | Some k => makedirs_from fs k.1 [] k.2
  | None => (Raise (OSError ENOENT), fs)
  end.

(** The error, if any, of opening [k] for writing. *)
Definition open_error (fs : FS) (k : Key) : option Errno :=
  if isdir_key fs k then Some EISDIR else parent_error fs k.

(** [open(p, "wb")] followed by one [write]: the file holds [data] alone. *)
Definition fs_write (fs : FS) (p : string) (data : string) : result unit * FS :=
  match path_key p with
  | None => (Raise (OSError ENOENT), fs)
  | Some k =>
      match open_error fs k with
      | Some e => (Raise (OSError e), fs)
      | None => (Ok tt, mkFS (dirs fs) (<[k := data]> (files fs)))
      end
  end.

(** A [write] to a file opened for appending, or to the open handle of a
    file: [data] goes after what the file holds. *)
Definition fs_append (fs : FS) (p : string) (data : string) : result unit * FS :=
  match path_key p with
  | None => (Raise (OSError ENOENT), fs)
  | Some k =>
      match open_error fs k with
      | Some e => (Raise (OSError e), fs)
      | None =>
          (Ok tt, mkFS (dirs fs)
                    (<[k := default "" (files fs !! k) +:+ data]> (files fs)))
      end
  end.

Definition fs_empty : FS := mkFS ∅ ∅.

(** Nothing that [f] holds is missing from [f']. *)
Definition fs_grows (f f' : FS) : Prop :=
  dirs f ⊆ dirs f' ∧ dom (files f) ⊆ dom (files f').

(** A file system as the operating system keeps it: whatever exists lies in
    a directory, and no file is a directory. *)
Definition wf_fs (f : FS) : Prop :=
  (∀ k, k ∈ dirs f → isdir_key f (parent k) = true)
  ∧ (∀ k, k ∈ dom (files f) →
       isdir_key f (parent k) = true ∧ isdir_key f k = false).

(** A path as [AutoName] forms it under the script's prefix format: the
    counter with at least three digits, the name of the function, [.png],
    below [AutoName.directory] when that is set. *)
Definition auto_named (p : string) : Prop :=
  ∃ (d : option string) (n : Z) (func_name : string),
    let fname := (format_03d n +:+ "_") +:+ func_name +:+ ".png" in
    p = match d with Some d => os_path_join d fname | None => fname end.

(** [f1] holds the directories of [f0] and its files, and besides only
    files at automatic names. *)
Definition only_intermediates (f0 f1 : FS) : Prop :=
  dirs f0 = dirs f1
  ∧ dom (files f0) ⊆ dom (files f1)
  ∧ ∀ k, k ∈ dom (files f1) → k ∉ dom (files f0) →
      ∃ p, path_key p = Some k ∧ auto_named p.

(** How [os.makedirs] ends on two such file systems: alike, or on [f1] with
    an error that [safe_mkdir] raises again. *)
Definition makedirs_agree (f0 f1 : FS) (k : Key)
    (m0 m1 : result unit * FS) : Prop :=
  match m1.1 with
  | Ok _ => m0.1 = Ok tt ∧ only_intermediates m0.2 m1.2
  | Raise (OSError EEXIST) =>
      (m0.1 = Raise (OSError EEXIST) ∧ only_intermediates m0.2 m1.2)
      ∨ isdir_key m1.2 k = false
  | Raise e => ∃ en, e = OSError en
  end.

(** *** What a run leaves behind *)

(** Whether a string holds the path separator. *)
Fixpoint has_sep (s : string) : bool :=
  match s with
  | EmptyString => false
  | String c s' => bool_decide (c = sep) || has_sep s'
  end.

(** The location a directory path names; the empty path, to which
    [os.path.join] adds nothing, stands for the working directory. *)
Definition dir_key (p : string) : Key := default (false, []) (path_key p).

(** What the file at a path holds. *)
Definition fs_read (f : FS) (p : string) : option string :=
  path_key p ≫= fun k => files f !! k.

(** What [f] holds beyond [f0]: directories in [D], files in [F]. *)
Definition footprint (D F : Key → Prop) (f0 f : FS) : Prop :=
  (∀ k, k ∈ dirs f → k ∈ dirs f0 ∨ D k)
  ∧ (∀ k, k ∈ dom (files f) → k ∈ dom (files f0) ∨ F k).

(** The directories the analysis of the items may make: the backend and
    its parent, and a directory [os.makedirs] is asked for at a path in
    [R_dir] with those above it, which lie inside the output directory [ko]
    when the directory asked for does. *)
Definition item_dirs (ko : Key) (R_dir : string → Prop) (k : Key) : Prop :=
  k = (false, ["output"]) ∨ k = backend_key
  ∨ ∃ p kr, R_dir p ∧ path_key p = Some kr ∧ under k kr
            ∧ (under ko kr → under ko k).

(** The files it may make: the log, and the files opened at a path in
    [R_file]. *)
Definition item_files (log : string) (R_file : string → Prop) (k : Key) : Prop :=
  path_key log = Some k ∨ ∃ p, R_file p ∧ path_key p = Some k.

(** ** The libraries

    numpy, scikit-image, dtool and jicbioimage are not part of the script.
    Their functions are taken as they are: an arbitrary instance of
    [Libraries] gives the value each call returns.  An image is a
    two-dimensional array of values. *)

Abbreviation Image A := (list (list A)) (only parsing).

Class Libraries := {
  (** numpy values: the pixels of a loaded image, and floats *)
  Pixel : Type;
  Scalar : Type;
  scalar_of_Z : Z → Scalar;
  scalar_mul : Scalar → Scalar → Scalar;
  scalar_gt : Scalar → Scalar → bool;
  astype_float : Image Scalar → Image Scalar;
  (** dtoolcore.DataSet *)
  DataSet : Type;
  from_uri : string → result DataSet;
  dataset_name : DataSet → string;
  dataset_identifiers : DataSet → list string;
  item_content_abspath : DataSet → string → string;
  item_properties : DataSet → string → gmap string string;
  (** jicbioimage.core.io *)
  MicroscopyCollection : Type;
  load : string → result MicroscopyCollection;
  collection_series : MicroscopyCollection → list Z;
  collection_image : MicroscopyCollection → Z → Image Pixel;
  (** jicbioimage.core.util, jicbioimage.transform, skimage.morphology *)
  Selem : Type;
  lib_normalise : Image Pixel → Image Scalar;
  lib_smooth_gaussian : Image Scalar → Z → Image Scalar;
  lib_erode_binary : Image bool → Image bool;
  lib_remove_small_objects : Image bool → Z → Image bool;
  lib_disk : Z → Selem;
  lib_dilate_binary : Image bool → Selem → Image bool;
  lib_white_tophat : Image Scalar → Selem → Image Scalar;
  (** jicbioimage.segment *)
  SegmentedImage : Type;
  Region : Type;
  lib_connected_components : Image bool → Z → SegmentedImage;
  lib_identifiers : SegmentedImage → list Z;
  lib_region_by_identifier : SegmentedImage → Z → Region;
  lib_convex_hull : Region → Region;
  lib_inner : Region → Region;
  lib_border : Region → Region;
  lib_dilate : Region → Region;
  (** jicbioimage.illustrate, jicbioimage.core.util.color *)
  Color : Type;
  AnnotatedImage : Type;
  lib_from_grayscale : Image Scalar → AnnotatedImage;
  lib_pretty_color_from_identifier : Z → Color;
  lib_mask_region : AnnotatedImage → Region → Color → AnnotatedImage;
  lib_png : AnnotatedImage → string;
  (** the PNG bytes the [transformation] decorator saves for an image *)
  png_of_scalars : Image Scalar → string;
  png_of_bools : Image bool → string;
  png_of_segmentation : SegmentedImage → string
}.

(** [logging] levels. *)
Inductive LogLevel := DEBUG | INFO | WARNING.

Definition level_number (l : LogLevel) : Z :=
  match l with DEBUG => 10 | INFO => 20 | WARNING => 30 end.

(** What the root logger writes to. *)
Inductive LogHandler :=
| FileHandler (filename : string)
| StreamHandler.

Section Script.

Context `{L : Libraries}.

(** ** Calls out of the script *)

Inductive Event :=
(* os, os.path, builtins *)
| OsPathIsdir (p : string)
| OsMkdir (p : string)
| OsMakedirs (p : string)
| OpenWb (p : string)
| FhWrite (p : string) (data : string)
(* logging, argparse *)
| LoggingBasicConfig (filename : string) (level : LogLevel)
| LoggingInfo (msg : string)
| ParserError (msg : string)
(* class attributes of jicbioimage.core.io *)
| AutoNameSetPrefixFormat (fmt : string)
| AutoNameSetDirectory (d : string)
| AutoWriteSetOn (b : bool)
| AutoWriteSave (func_name : string) (png : string)
(* dtoolcore, jicbioimage.core.io *)
| DataSetFromUri (uri : string)
| FileBackendInit (directory : string)
| DataManagerLoad (backend_dir : string) (input_file : string)
(* image operations *)
| Normalise (im : Image Pixel)
| AsTypeFloat (im : Image Scalar)
| FromGrayscale (im : Image Scalar)
| SmoothGaussian (im : Image Scalar) (sigma : Z)
| ErodeBinary (im : Image bool)
| RemoveSmallObjects (im : Image bool) (min_size : Z)
| Disk (radius : Z)
| DilateBinary (im : Image bool) (selem : Selem)
| WhiteTophat (im : Image Scalar) (selem : Selem)
| ConnectedComponents (im : Image bool) (background : Z)
| Identifiers (seg : SegmentedImage)
| PrettyColorFromIdentifier (i : Z)
| RegionByIdentifier (seg : SegmentedImage) (i : Z)
| ConvexHull (r : Region)
| Inner (r : Region)
| Border (r : Region)
| Dilate (r : Region)
| MaskRegion (canvas : AnnotatedImage) (r : Region) (color : Color)
| Png (canvas : AnnotatedImage).

(** The type of the value a call returns. *)
Definition ret (e : Event) : Type :=
  match e with
  | OsPathIsdir _ => bool
  | DataSetFromUri _ => DataSet
  | DataManagerLoad _ _ => MicroscopyCollection
  | Normalise _ | AsTypeFloat _ | SmoothGaussian _ _ | WhiteTophat _ _ =>
      Image Scalar
  | ErodeBinary _ | RemoveSmallObjects _ _ | DilateBinary _ _ => Image bool
  | Disk _ => Selem
  | FromGrayscale _ | MaskRegion _ _ _ => AnnotatedImage
  | ConnectedComponents _ _ => SegmentedImage
  | Identifiers _ => list Z
  | PrettyColorFromIdentifier _ => Color
  | RegionByIdentifier _ _ | ConvexHull _ | Inner _ | Border _ | Dilate _ =>
      Region
  | Png _ => string
  | _ => unit
  end.

(** ** Programs *)

(** A program returns, raises, or makes a call and goes on with what the
    call gave: its value or the exception it raised. *)
Inductive Prog (A : Type) : Type :=
| Ret (a : A)
| Throw (e : Exn)
| Vis (ev : Event) (k : result (ret ev) → Prog A).
Arguments Ret {A} a.
Arguments Throw {A} e.
Arguments Vis {A} ev k.

Fixpoint bind {A B} (p : Prog A) (f : A → Prog B) : Prog B :=
  match p with
  | Ret a => f a
  | Throw e => Throw e
  | Vis ev k => Vis ev (fun r => bind (k r) f)
  end.

(** A call whose exception, if any, propagates. *)
Definition call (ev : Event) : Prog (ret ev) :=
  Vis ev (fun r => match r with Ok x => Ret x | Raise e => Throw e end).

(** [try: p  except: h]. *)
Fixpoint try_except {A} (p : Prog A) (h : Exn → Prog A) : Prog A :=
  match p with
  | Ret a => Ret a
  | Throw e => h e
  | Vis ev k => Vis ev (fun r => try_except (k r) h)
  end.

Declare Scope prog_scope.
Delimit Scope prog_scope with prog.
Bind Scope prog_scope with Prog.

Notation "x <- c ;; k" := (bind c (fun x => k))
  (at level 100, c at next level, right associativity) : prog_scope.
Notation "c ;; k" := (bind c (fun _ => k))
  (at level 100, right associativity) : prog_scope.

Local Open Scope prog_scope.

(** [for x in xs: body(x)]. *)
Fixpoint for_each {X} (xs : list X) (body : X → Prog unit) : Prog unit :=
  match xs with
  | [] => Ret tt
  | x :: xs' => body x ;; for_each xs' body
  end.

(** [for x in xs: body(x)] where the body updates an object in place. *)
Fixpoint for_update {X S} (xs : list X) (s : S) (body : S → X → Prog S)
  : Prog S :=
  match xs with
  | [] => Ret s
  | x :: xs' => s' <- body s x ;; for_update xs' s' body
  end.

(** ** The world a program runs in *)

Record World := mkWorld {
  fs : FS;
  AutoName_prefix_format : string;
  AutoName_directory : option string;
  AutoName_count : Z;
  AutoWrite_on : bool;
  root_handler : option LogHandler;
  root_level : LogLevel
}.

Definition with_fs (w : World) (f : FS) : World :=
  mkWorld f (AutoName_prefix_format w) (AutoName_directory w)
    (AutoName_count w) (AutoWrite_on w) (root_handler w) (root_level w).

(** In a fresh interpreter: the library's defaults, no handler on the root
    logger, whose level is WARNING. *)
Definition startup (f : FS) : World :=
  mkWorld f "{:d}_" None 0 true None WARNING.

Definition newline : string := String (ascii_of_nat 10) "".

(** [AutoName.prefix_format.format(count)] for the two formats that occur:
    the library's default and the one the script installs. *)
Definition format_prefix (fmt : string) (n : Z) : string :=
  if bool_decide (fmt = "{:03d}_") then format_03d n +:+ "_"
  else if bool_decide (fmt = "{:d}_") then format_d n +:+ "_"
  else fmt.

(** The file the decorator saves to: the counter is advanced, formatted as
    the prefix of the function's name, and the name is put under
    [AutoName.directory]. *)
Definition AutoName_name (w : World) (func_name : string) : string :=
  let fname :=
    format_prefix (AutoName_prefix_format w) (AutoName_count w + 1)
      +:+ func_name +:+ ".png" in
  match AutoName_directory w with
  | Some d => os_path_join d fname
  | None => fname
  end.

Definition lift_fs {A} (w : World) (r : result A * FS) : result A * World :=
  (r.1, with_fs w r.2).

(** [logging.basicConfig(filename=..., level=...)]: nothing happens when
    the root logger has a handler already; otherwise the file is opened
    for appending (and so exists from then on). *)
Definition logging_basicConfig (w : World) (filename : string) (level : LogLevel)
  : result unit * World :=
  match root_handler w with
  | Some _ => (Ok tt, w)
  | None =>
      match fs_append (fs w) filename "" with
      | (Ok _, f) =>
          (Ok tt, mkWorld f (AutoName_prefix_format w) (AutoName_directory w)
                    (AutoName_count w) (AutoWrite_on w)
                    (Some (FileHandler filename)) level)
      | (Raise e, f) => (Raise e, with_fs w f)
      end
  end.

(** [logging.info(msg)]: a root logger without handler gets the default
    stream handler first; the record is emitted when the level allows it,
    and an error while emitting is swallowed by [logging]. *)
Definition emit_info (w : World) (msg : string) : result unit * World :=
  let h := default StreamHandler (root_handler w) in
  let f :=
    if level_number (root_level w) <=? level_number INFO then
      match h with
      | FileHandler p => (fs_append (fs w) p ("INFO:root:" +:+ msg +:+ newline)).2
      | StreamHandler => fs w
      end
    else fs w in
  (Ok tt, mkWorld f (AutoName_prefix_format w) (AutoName_directory w)
            (AutoName_count w) (AutoWrite_on w) (Some h) (root_level w)).

(** The saving step of jicbioimage's [transformation] decorator: with
    [AutoWrite.on] the image goes to the next automatic file name. *)
Definition autowrite_save (w : World) (func_name png : string)
  : result unit * World :=
  if AutoWrite_on w then
    let r := fs_write (fs w) (AutoName_name w func_name) png in
    (r.1, mkWorld r.2 (AutoName_prefix_format w) (AutoName_directory w)
            (AutoName_count w + 1) (AutoWrite_on w) (root_handler w)
            (root_level w))
  else (Ok tt, w).

(** [if not os.path.isdir(d): os.mkdir(d)]. *)
Definition mkdir_if_missing (w : World) (d : string) : result unit * World :=
  if fs_isdir (fs w) d then (Ok tt, w)
  else lift_fs w (fs_mkdir (fs w) d).

(** [FileBackend(directory)] makes its directory when it is not there. *)
Definition filebackend_init (w : World) (directory : string)
  : result unit * World :=
  mkdir_if_missing w directory.

(** What each call does to the world and what it returns.

    Scope of the model.  The calls of the operating system, of [logging]
    and of the decorator's saving step act on the world as written out
    above.  A call of the image library is modelled by the value it
    returns; that it may raise instead (as [normalise] does on an image
    without pixels) is not represented.  The properties of
    [analyse_image] are therefore stated of its calls and, for its
    result, of a run that returns.
    [DataManager.load] is modelled by the collection it gives.  On the
    first load of a file the library also unpacks it into a cache entry
    of its own, a directory of images with a manifest, inside the backend
    directory; these are not represented in [fs], and the statements on
    what a run leaves in the file system leave open what lies inside the
    backend directory. *)
Definition handle (ev : Event) (w : World) : result (ret ev) * World :=
  match ev return result (ret ev) * World with
  | OsPathIsdir p => (Ok (fs_isdir (fs w) p), w)
  | OsMkdir p => lift_fs w (fs_mkdir (fs w) p)
  | OsMakedirs p => lift_fs w (fs_makedirs (fs w) p)
  | OpenWb p => lift_fs w (fs_write (fs w) p "")
  | FhWrite p data => lift_fs w (fs_append (fs w) p data)
  | LoggingBasicConfig filename level => logging_basicConfig w filename level
  | LoggingInfo msg => emit_info w msg
  | ParserError msg => (Raise (SystemExit 2 msg), w)
  | AutoNameSetPrefixFormat fmt =>
      (Ok tt, mkWorld (fs w) fmt (AutoName_directory w) (AutoName_count w)
                (AutoWrite_on w) (root_handler w) (root_level w))
  | AutoNameSetDirectory d =>
      (Ok tt, mkWorld (fs w) (AutoName_prefix_format w) (Some d)
                (AutoName_count w) (AutoWrite_on w) (root_handler w)
                (root_level w))
  | AutoWriteSetOn b =>
      (Ok tt, mkWorld (fs w) (AutoName_prefix_format w) (AutoName_directory w)
                (AutoName_count w) b (root_handler w) (root_level w))
  | AutoWriteSave func_name png => autowrite_save w func_name png
  | DataSetFromUri uri => (from_uri uri, w)
  | FileBackendInit directory => filebackend_init w directory
  | DataManagerLoad _ input_file => (load input_file, w)
  | Normalise im => (Ok (lib_normalise im), w)
  | AsTypeFloat im => (Ok (astype_float im), w)
  | FromGrayscale im => (Ok (lib_from_grayscale im), w)
  | SmoothGaussian im sigma => (Ok (lib_smooth_gaussian im sigma), w)
  | ErodeBinary im => (Ok (lib_erode_binary im), w)
  | RemoveSmallObjects im n => (Ok (lib_remove_small_objects im n), w)
  | Disk r => (Ok (lib_disk r), w)
  | DilateBinary im selem => (Ok (lib_dilate_binary im selem), w)
  | WhiteTophat im selem => (Ok (lib_white_tophat im selem), w)
  | ConnectedComponents im bg => (Ok (lib_connected_components im bg), w)
  | Identifiers seg => (Ok (lib_identifiers seg), w)
  | PrettyColorFromIdentifier i => (Ok (lib_pretty_color_from_identifier i), w)
  | RegionByIdentifier seg i => (Ok (lib_region_by_identifier seg i), w)
  | ConvexHull r => (Ok (lib_convex_hull r), w)
  | Inner r => (Ok (lib_inner r), w)
  | Border r => (Ok (lib_border r), w)
  | Dilate r => (Ok (lib_dilate r), w)
  | MaskRegion canvas r color => (Ok (lib_mask_region canvas r color), w)
  | Png canvas => (Ok (lib_png canvas), w)
  end.

(** A finished run: what the program gave, the world it left, the calls it
    made in order. *)
Record Run (A : Type) := mkRun {
  outcome : result A;
  final : World;
  calls : list Event
}.
Arguments mkRun {A} outcome final calls.
Arguments outcome {A} r.
Arguments final {A} r.
Arguments calls {A} r.

Definition after {A} (ev : Event) (r : Run A) : Run A :=
  mkRun (outcome r) (final r) (ev :: calls r).

Fixpoint exec {A} (p : Prog A) (w : World) : Run A :=
  match p with
  | Ret a => mkRun (Ok a) w []
  | Throw e => mkRun (Raise e) w []
  | Vis ev k => let hr := handle ev w in after ev (exec (k hr.1) hr.2)
  end.

(** ** The script *)

Definition os_path_isdir (p : string) : Prog bool := call (OsPathIsdir p).
Definition os_mkdir (p : string) : Prog unit := call (OsMkdir p).
Definition os_makedirs (p : string) : Prog unit := call (OsMakedirs p).
Definition logging_info (msg : string) : Prog unit := call (LoggingInfo msg).

(** [d[key]] on a dict. *)
Definition getitem (d : gmap string string) (key : string) : Prog string :=
  match d !! key with
  | Some v => Ret v
  | None => Throw (KeyError key)
  end.

(** numpy's [image * k] and [image > cutoff], element by element. *)
Definition array_mul (image : Image Scalar) (k : Scalar) : Image Scalar :=
  map (map (fun v => scalar_mul v k)) image.

Definition array_gt (image : Image Scalar) (cutoff : Scalar) : Image bool :=
  map (map (fun v => scalar_gt v cutoff)) image.

(** jicbioimage's [@transformation]: the function is applied and, when
    [AutoWrite.on] holds, its result is saved under the next automatic
    name (the script's own comment: intermediate images are written in
    debug mode only). *)
Definition transformation {A} (func_name : string) (png_of : A → string)
    (func : Prog A) : Prog A :=
  image <- func ;;
  call (AutoWriteSave func_name (png_of image)) ;;
  Ret image.

(** The transformations the script imports. *)
Definition smooth_gaussian (image : Image Scalar) (sigma : Z)
  : Prog (Image Scalar) :=
  transformation "smooth_gaussian" png_of_scalars
    (call (SmoothGaussian image sigma)).

Definition erode_binary (image : Image bool) : Prog (Image bool) :=
  transformation "erode_binary" png_of_bools (call (ErodeBinary image)).

Definition remove_small_objects (image : Image bool) (min_size : Z)
  : Prog (Image bool) :=
  transformation "remove_small_objects" png_of_bools
    (call (RemoveSmallObjects image min_size)).

Definition dilate_binary (image : Image bool) (selem : Selem)
  : Prog (Image bool) :=
  transformation "dilate_binary" png_of_bools (call (DilateBinary image selem)).

Definition connected_components (image : Image bool) (background : Z)
  : Prog SegmentedImage :=
  transformation "connected_components" png_of_segmentation
    (call (ConnectedComponents image background)).

(** Line 30: [AutoName.prefix_format = "{:03d}_"]. *)
Definition module_level : Prog unit :=
  call (AutoNameSetPrefixFormat "{:03d}_").

Definition get_microscopy_collection (input_file : string)
  : Prog MicroscopyCollection :=
  let data_dir := "output" in
  isdir <- os_path_isdir data_dir ;;
  (if negb isdir then os_mkdir data_dir else Ret tt) ;;
  let backend_dir := os_path_join data_dir ".backend" in
  call (FileBackendInit backend_dir) ;;
  microscopy_collection <- call (DataManagerLoad backend_dir input_file) ;;
  Ret microscopy_collection.

Definition safe_mkdir (directory : string) : Prog unit :=
  try_except (os_makedirs directory) (fun exc =>
    match exc with
    | OSError errno =>
        if bool_decide (errno = EEXIST) then
          isdir <- os_path_isdir directory ;;
          if isdir then Ret tt else Throw exc
        else Throw exc
    | _ => Throw exc
    end).

Definition item_output_path (output_directory rel_path : string)
  : Prog string :=
  let abs_path := os_path_join output_directory rel_path in
  safe_mkdir abs_path ;;
  Ret abs_path.

Definition identity (image : Image Scalar) : Prog (Image Scalar) :=
  transformation "identity" png_of_scalars (Ret image).

Definition threshold_abs (image : Image Scalar) (cutoff : Scalar)
  : Prog (Image bool) :=
  transformation "threshold_abs" png_of_bools (Ret (array_gt image cutoff)).

Definition white_tophat (image : Image Scalar) (radius : Z)
  : Prog (Image Scalar) :=
  transformation "white_tophat" png_of_scalars
    (selem <- call (Disk radius) ;;
     call (WhiteTophat image selem)).

(** The body of the loop of [analyse_image]: one component is outlined on
    the canvas, which [mask_region] changes in place. *)
Definition outline_component (segmentation : SegmentedImage)
    (canvas : AnnotatedImage) (i : Z) : Prog AnnotatedImage :=
  color <- call (PrettyColorFromIdentifier i) ;;
  region <- call (RegionByIdentifier segmentation i) ;;
  convex_hull <- call (ConvexHull region) ;;
  inner <- call (Inner convex_hull) ;;
  border <- call (Border inner) ;;
  outline <- call (Dilate border) ;;
  call (MaskRegion canvas outline color).

Definition analyse_image (image : Image Pixel) : Prog AnnotatedImage :=
  image <- call (Normalise image) ;;
  let image := array_mul image (scalar_of_Z 255) in
  canvas <- call (FromGrayscale image) ;;
  image <- call (AsTypeFloat image) ;;
  image <- smooth_gaussian image 5 ;;
  image <- threshold_abs image (scalar_of_Z 30) ;;
  image <- erode_binary image ;;
  image <- remove_small_objects image 5 ;;
  salem <- call (Disk 2) ;;
  image <- dilate_binary image salem ;;
  segmentation <- connected_components image 0 ;;
  identifiers <- call (Identifiers segmentation) ;;
  canvas <- for_update identifiers canvas (outline_component segmentation) ;;
  Ret canvas.

Definition annotation_name (s : Z) : string :=
  "series_" +:+ format_03d s +:+ "_annotation.png".

(** The body of the loop of [analyse_file]: series [s] is analysed and its
    annotation written.  The file is opened before [annotation.png()] is
    evaluated, as the [with] statement does. *)
Definition analyse_series (microscopy_collection : MicroscopyCollection)
    (output_directory : string) (s : Z) : Prog unit :=
  let image := collection_image microscopy_collection s in
  annotation <- analyse_image image ;;
  let annotation_file_name :=
    os_path_join output_directory (annotation_name s) in
  call (OpenWb annotation_file_name) ;;
  data <- call (Png annotation) ;;
  call (FhWrite annotation_file_name data).

Definition analyse_file (fpath output_directory : string) : Prog unit :=
  logging_info ("Analysing file: " +:+ fpath) ;;
  call (AutoNameSetDirectory output_directory) ;;
  microscopy_collection <- get_microscopy_collection fpath ;;
  for_each (collection_series microscopy_collection)
    (analyse_series microscopy_collection output_directory).

(** The body of the loop of [analyse_dataset]. *)
Definition analyse_item (dataset : DataSet) (output_dir : string) (i : string)
  : Prog unit :=
  let data_item_abspath := item_content_abspath dataset i in
  let item_info := item_properties dataset i in
  rel_path <- getitem item_info "relpath" ;;
  specific_output_dir <- item_output_path output_dir rel_path ;;
  analyse_file data_item_abspath specific_output_dir.

Definition analyse_dataset (dataset_dir output_dir : string) : Prog unit :=
  dataset <- call (DataSetFromUri dataset_dir) ;;
  logging_info ("Analysing items in dataset: " +:+ dataset_name dataset) ;;
  for_each (dataset_identifiers dataset) (analyse_item dataset output_dir).

(** The command line as [parse_args] returns it. *)
Record Namespace := mkArgs {
  input_dataset : string;
  output_dir : string;
  debug : bool
}.

Definition version : string := "0.2.1".

(** [main], from the parsed arguments on; [file] is [__file__]. *)
Definition main (file : string) (args : Namespace) : Prog unit :=
  isdir <- os_path_isdir (output_dir args) ;;
  (if negb isdir then os_mkdir (output_dir args) else Ret tt) ;;
  call (AutoNameSetDirectory (output_dir args)) ;;
  (if negb (debug args) then call (AutoWriteSetOn false) else Ret tt) ;;
  let log_fname := "audit.log" in
  let log_fpath := os_path_join (output_dir args) log_fname in
  let logging_level := if debug args then DEBUG else INFO in
  call (LoggingBasicConfig log_fpath logging_level) ;;
  logging_info ("Script name: " +:+ file) ;;
  logging_info ("Script version: " +:+ version) ;;
  isdir <- os_path_isdir (input_dataset args) ;;
  if isdir then analyse_dataset (input_dataset args) (output_dir args)
  else call (ParserError (input_dataset args +:+ " not a directory")).

(** Running the file as a script. *)
Definition script (file : string) (args : Namespace) : Prog unit :=
  module_level ;;
  main file args.

(** ** Runs in sequence *)

(** The run of [p] followed, when [p] returned, by the run [f] gives from
    where [p] stopped. *)
Definition then_run {A B} (r : Run A) (f : A → World → Run B) : Run B :=
  match outcome r with
  | Ok a =>
      let r' := f a (final r) in
      mkRun (outcome r') (final r') (calls r ++ calls r')
  | Raise e => mkRun (Raise e) (final r) (calls r)
  end.

(** A program that inspects a raised exception only after the calls in
    [allowed]: after any other call an exception goes straight up. *)
Fixpoint catches_only (allowed : Event → Prop) {A} (p : Prog A) : Prop :=
  match p with
  | Ret _ | Throw _ => True
  | Vis ev k =>
      (allowed ev ∨ ∀ e, k (Raise e) = Throw e)
      ∧ ∀ r, catches_only allowed (k r)
  end.

Definition is_makedirs (ev : Event) : Prop := ∃ d, ev = OsMakedirs d.

(** ** The segmentation chain, stage by stage

    The stages as the specification lists them, each applied to the result
    of the one before, with the parameters the specification gives. *)

Definition stage_scaled (image : Image Pixel) : Image Scalar :=
  array_mul (lib_normalise image) (scalar_of_Z 255).

Definition stage_smoothed (image : Image Pixel) : Image Scalar :=
  lib_smooth_gaussian (astype_float (stage_scaled image)) 5.

Definition stage_thresholded (image : Image Pixel) : Image bool :=
  array_gt (stage_smoothed image) (scalar_of_Z 30).

Definition stage_eroded (image : Image Pixel) : Image bool :=
  lib_erode_binary (stage_thresholded image).

Definition stage_cleaned (image : Image Pixel) : Image bool :=
  lib_remove_small_objects (stage_eroded image) 5.

Definition stage_dilated (image : Image Pixel) : Image bool :=
  lib_dilate_binary (stage_cleaned image) (lib_disk 2).

Definition stage_labelled (image : Image Pixel) : SegmentedImage :=
  lib_connected_components (stage_dilated image) 0.

(** The calls of the chain, in order, up to and including the labelling. *)
Definition segmentation_calls (image : Image Pixel) : list Event :=
  [ Normalise image;
    FromGrayscale (stage_scaled image);
    AsTypeFloat (stage_scaled image);
    SmoothGaussian (astype_float (stage_scaled image)) 5;
    AutoWriteSave "smooth_gaussian" (png_of_scalars (stage_smoothed image));
    AutoWriteSave "threshold_abs" (png_of_bools (stage_thresholded image));
    ErodeBinary (stage_thresholded image);
    AutoWriteSave "erode_binary" (png_of_bools (stage_eroded image));
    RemoveSmallObjects (stage_eroded image) 5;
    AutoWriteSave "remove_small_objects" (png_of_bools (stage_cleaned image));
    Disk 2;
    DilateBinary (stage_cleaned image) (lib_disk 2);
    AutoWriteSave "dilate_binary" (png_of_bools (stage_dilated image));
    ConnectedComponents (stage_dilated image) 0;
    AutoWriteSave "connected_components"
      (png_of_segmentation (stage_labelled image)) ].

(** The outline of component [i]: the dilated border of the interior of
    its convex hull. *)
Definition outline_region (seg : SegmentedImage) (i : Z) : Region :=
  lib_dilate (lib_border (lib_inner (lib_convex_hull
    (lib_region_by_identifier seg i)))).

(** The canvas once component [i] is outlined on it. *)
Definition outlined (seg : SegmentedImage) (canvas : AnnotatedImage) (i : Z)
  : AnnotatedImage :=
  lib_mask_region canvas (outline_region seg i)
    (lib_pretty_color_from_identifier i).

Definition outline_calls (seg : SegmentedImage) (canvas : AnnotatedImage)
    (i : Z) : list Event :=
  [ PrettyColorFromIdentifier i;
    RegionByIdentifier seg i;
    ConvexHull (lib_region_by_identifier seg i);
    Inner (lib_convex_hull (lib_region_by_identifier seg i));
    Border (lib_inner (lib_convex_hull (lib_region_by_identifier seg i)));
    Dilate (lib_border (lib_inner (lib_convex_hull
      (lib_region_by_identifier seg i))));
    MaskRegion canvas (outline_region seg i)
      (lib_pretty_color_from_identifier i) ].

(** The calls of the whole loop over the identifiers. *)
Fixpoint outlines_calls (seg : SegmentedImage) (canvas : AnnotatedImage)
    (ids : list Z) : list Event :=
  match ids with
  | [] => []
  | i :: ids' =>
      outline_calls seg canvas i ++ outlines_calls seg (outlined seg canvas i) ids'
  end.

(** The annotated canvas of an image: every component of the labelling
    outlined, in the order of the identifiers, on the grayscale canvas. *)
Definition annotated (image : Image Pixel) : AnnotatedImage :=
  fold_left (outlined (stage_labelled image))
    (lib_identifiers (stage_labelled image))
    (lib_from_grayscale (stage_scaled image)).

Definition analyse_image_calls (image : Image Pixel) : list Event :=
  segmentation_calls image
  ++ Identifiers (stage_labelled image)
  :: outlines_calls (stage_labelled image)
       (lib_from_grayscale (stage_scaled image))
       (lib_identifiers (stage_labelled image)).

(** The calls that belong to the segmentation chain. *)
Definition chain_step (ev : Event) : bool :=
  match ev with
  | Normalise _ | FromGrayscale _ | AsTypeFloat _ | SmoothGaussian _ _
  | AutoWriteSave _ _ | ErodeBinary _ | RemoveSmallObjects _ _ | Disk _
  | DilateBinary _ _ | WhiteTophat _ _ | ConnectedComponents _ _ => true
  | _ => false
  end.

(** [analyse_image] run twice in a row on the same image. *)
Definition twice (image : Image Pixel) : Prog (AnnotatedImage * AnnotatedImage) :=
  bind (analyse_image image) (fun c1 =>
  bind (analyse_image image) (fun c2 => Ret (c1, c2))).

(** No call at all. *)
Definition nothing (ev : Event) : Prop := False.

(** Where the annotation of series [s] goes. *)
Definition annotation_path (output_directory : string) (s : Z) : string :=
  os_path_join output_directory (annotation_name s).

(** The calls of the outlining loop. *)
Definition outline_step (ev : Event) : bool :=
  match ev with
  | Identifiers _ | PrettyColorFromIdentifier _ | RegionByIdentifier _ _
  | ConvexHull _ | Inner _ | Border _ | Dilate _ | MaskRegion _ _ _ => true
  | _ => false
  end.

(** The ["relpath"] property of an item, its output directory and the
    annotation files of its series. *)
Definition relpath_of (ds : DataSet) (i : string) : string :=
  default "" (item_properties ds i !! "relpath").

Definition item_output_dir (ds : DataSet) (output_dir i : string) : string :=
  os_path_join output_dir (relpath_of ds i).

Definition item_annotations (ds : DataSet) (output_dir i : string)
  : list string :=
  match load (item_content_abspath ds i) with
  | Ok mc => map (annotation_path (item_output_dir ds output_dir i)) (collection_series mc)
  | Raise _ => []
  end.


(** Projections of a list of calls. *)
Definition masked (ev : Event) : option (Region * Color) :=
  match ev with
  | MaskRegion _ r color => Some (r, color)
  | _ => None
  end.

Definition opened (ev : Event) : option string :=
  match ev with
  | OpenWb p => Some p
  | _ => None
  end.

Definition written (ev : Event) : option (string * string) :=
  match ev with
  | FhWrite p data => Some (p, data)
  | _ => None
  end.

Definition loaded (ev : Event) : option string :=
  match ev with
  | DataManagerLoad _ input_file => Some input_file
  | _ => None
  end.


Definition made (ev : Event) : option string :=
  match ev with
  | OsMakedirs d => Some d
  | _ => None
  end.

Definition is_save (ev : Event) : bool :=
  match ev with
  | AutoWriteSave _ _ => true
  | _ => false
  end.

(** A pixel of an image, when the position is inside it. *)
Definition pixel {A} (im : Image A) (i j : nat) : option A :=
  im !! i ≫= (.!! j).

(** ** Two runs side by side

    [w0] is a world of a run without [--debug], [w1] of the run with it. *)
Definition related (w0 w1 : World) : Prop :=
  wf_fs (fs w1)
  ∧ only_intermediates (fs w0) (fs w1)
  ∧ AutoName_prefix_format w1 = "{:03d}_"
  ∧ AutoWrite_on w0 = false
  ∧ root_handler w0 = root_handler w1
  ∧ (level_number (root_level w0) <=? 20) = (level_number (root_level w1) <=? 20).

(** An outcome other than an [OSError]. *)
Definition clean {A} (o : result A) : Prop :=
  match o with
  | Raise (OSError _) => False
  | _ => True
  end.


(** A program that ends alike in related worlds and leaves them related,
    whenever the debug run meets no [OSError]. *)
Definition sim {A} (p : Prog A) : Prop :=
  ∀ w0 w1, related w0 w1 → clean (outcome (exec p w1)) →
    outcome (exec p w0) = outcome (exec p w1)
    ∧ related (final (exec p w0)) (final (exec p w1)).

(** Every call a program can make satisfies [P]. *)
Fixpoint events_satisfy (P : Event → Prop) {A} (p : Prog A) : Prop :=
  match p with
  | Ret _ | Throw _ => True
  | Vis ev k => P ev ∧ ∀ r, events_satisfy P (k r)
  end.


(** Calls that neither assign [AutoWrite.on] nor configure logging. *)
Definition keeps_autowrite (ev : Event) : Prop :=
  match ev with
  | AutoWriteSetOn _ | LoggingBasicConfig _ _ => False
  | _ => True
  end.

(** The number of saving steps among some calls. *)
Definition saves (evs : list Event) : Z := Z.of_nat (length (filter (fun ev => is_save ev = true) evs)).

(** With no assignment to [AutoWrite.on], the flag stays and the counter
    advances once per save when the flag holds; a configured root logger
    keeps its level. *)
Definition frame (w w' : World) (evs : list Event) : Prop :=
  AutoWrite_on w' = AutoWrite_on w
  ∧ AutoName_count w'
    = AutoName_count w + (if AutoWrite_on w then saves evs else 0)
  ∧ (is_Some (root_handler w) →
     is_Some (root_handler w') ∧ root_level w' = root_level w).

(** [main] in two parts: up to [logging.basicConfig], and the rest. *)
Definition main_setup (args : Namespace) : Prog unit :=
  bind (os_path_isdir (output_dir args)) (fun isdir =>
  bind (if negb isdir then os_mkdir (output_dir args) else Ret tt) (fun _ =>
  bind (call (AutoNameSetDirectory (output_dir args))) (fun _ =>
  bind (if negb (debug args) then call (AutoWriteSetOn false) else Ret tt) (fun _ =>
  call (LoggingBasicConfig (os_path_join (output_dir args) "audit.log")
          (if debug args then DEBUG else INFO)))))).

Definition main_tail (file : string) (args : Namespace) : Prog unit :=
  bind (logging_info ("Script name: " +:+ file)) (fun _ =>
  bind (logging_info ("Script version: " +:+ version)) (fun _ =>
  bind (os_path_isdir (input_dataset args)) (fun isdir =>
  if isdir then analyse_dataset (input_dataset args) (output_dir args)
  else call (ParserError (input_dataset args +:+ " not a directory"))))).

(** ** What the calls of a run do to the world *)

(** Calls that leave [AutoName.directory] at [d]. *)
Definition keeps_directory (d : string) (ev : Event) : Prop :=
  match ev with
  | AutoNameSetDirectory d' => d' = d
  | _ => True
  end.

(** The message of a call to [logging.info], and the line the root logger
    writes for it under the default format. *)
Definition logged (ev : Event) : option string :=
  match ev with
  | LoggingInfo msg => Some msg
  | _ => None
  end.

Definition record (msg : string) : string := "INFO:root:" +:+ msg +:+ newline.

Definition records (msgs : list string) : string :=
  foldr (fun m s => record m +:+ s) "" msgs.

(** The calls of the run once logging is set up, when [os.makedirs] is
    asked for the paths in [R_dir] only and files are opened at the paths
    in [R_file] only. *)
Definition writes_within (R_dir R_file : string → Prop) (ev : Event) : Prop :=
  match ev with
  | OsMkdir p => p = "output"
  | FileBackendInit d => d = "output/.backend"
  | OsMakedirs p => R_dir p
  | OpenWb p | FhWrite p _ => R_file p
  | LoggingBasicConfig _ _ | AutoWriteSetOn _ => False
  | _ => True
  end.

(** The world after the setup of [main] without [--debug]: the output
    directory [ko] is there, nothing is saved automatically, and the root
    logger writes records from INFO on to [log]. *)
Definition set_up (ko : Key) (log : string) (w : World) : Prop :=
  wf_fs (fs w) ∧ isdir_key (fs w) ko = true ∧ AutoWrite_on w = false
  ∧ root_handler w = Some (FileHandler log) ∧ root_level w = INFO.

(** The paths [analyse_dataset] asks [os.makedirs] for, and the files it
    opens: the output directory of an item, the annotations in it. *)
Definition item_dir_of (ds : DataSet) (out : string) (p : string) : Prop :=
  ∃ i, i ∈ dataset_identifiers ds ∧ p = item_output_dir ds out i.

Definition item_file_of (ds : DataSet) (out : string) (p : string) : Prop :=
  ∃ i s, i ∈ dataset_identifiers ds
         ∧ p = annotation_path (item_output_dir ds out i) s.

(** Calls that belong to neither [identity] nor [white_tophat]. *)
Definition outside_unused (ev : Event) : Prop :=
  match ev with
  | WhiteTophat _ _ => False
  | AutoWriteSave func_name _ =>
      func_name ≠ "identity" ∧ func_name ≠ "white_tophat"
  | _ => True
  end.

(** The file the [j]-th image saved from [w] on goes to, under the
    script's prefix format and with [AutoName.directory] at [d]. *)
Definition intermediate_path (w : World) (d : string) (j : Z)
    (func_name : string) : string :=
  os_path_join d
    ((format_03d (AutoName_count w + j) +:+ "_") +:+ func_name +:+ ".png").

(** The transformations of [analyse_image], numbered in the order they are
    applied. *)
Definition chain_names : list (Z * string) :=
  [ (1, "smooth_gaussian"); (2, "threshold_abs"); (3, "erode_binary");
    (4, "remove_small_objects"); (5, "dilate_binary");
    (6, "connected_components") ].

End Script.

Arguments Ret {L A} a.
Arguments Throw {L A} e.
Arguments Vis {L A} ev k.
Arguments mkRun {L A} outcome final calls.
Arguments outcome {L A} r.
Arguments final {L A} r.
Arguments calls {L A} r.
Arguments autowrite_save : simpl never.
Arguments logging_basicConfig : simpl never.
Arguments emit_info : simpl never.
Arguments filebackend_init : simpl never.
Arguments fs_mkdir : simpl never.
Arguments fs_makedirs : simpl never.
Arguments fs_write : simpl never.
Arguments fs_append : simpl never.
Arguments fs_isdir : simpl never.
Arguments get_microscopy_collection : simpl never.
Arguments safe_mkdir : simpl never.
Arguments item_output_path : simpl never.
Arguments analyse_image : simpl never.
Arguments analyse_file : simpl never.
Arguments analyse_series : simpl never.
Arguments analyse_item : simpl never.
Arguments analyse_dataset : simpl never.
Arguments main : simpl never.

(** ** A small instance of the libraries

    Used to run the script on concrete inputs.  Pixels and floats are
    integers; one dataset, ["dataset"], holds two items; an item's file
    loads as a collection of two or one series.  Smoothing halves each
    value, the morphological operations leave a binary image as it is,
    and every row that has a set pixel is one component, labelled by its
    row number from one.  A region is the list of identifiers it was
    selected by, followed by the operations applied; a canvas remembers
    the outlines in the order they were masked. *)

Definition toy_dataset : list (string * (string * string)) :=
  [("id_a", ("dataset/data/leaf_a.czi", "leaf_a.czi"));
   ("id_b", ("dataset/data/sub/leaf_b.czi", "sub/leaf_b.czi"))].

Definition toy_lookup (ds : list (string * (string * string))) (i : string)
  : string * string :=
  default ("", "") (snd <$> List.find (fun e => bool_decide (e.1 = i)) ds).

Definition toy_collections : list (string * list (Image Z)) :=
  [("dataset/data/leaf_a.czi", [ [[0; 10]; [200; 255]]; [[0; 0]; [0; 0]] ]);
   ("dataset/data/sub/leaf_b.czi", [ [[90; 90]; [90; 3]] ])].

Definition toy_load (path : string) : result (list (Image Z)) :=
  match List.find (fun e => bool_decide (e.1 = path)) toy_collections with
  | Some e => Ok e.2
  | None => Raise (LibraryError "cannot load")
  end.

Definition toy_labels (im : Image bool) : list Z :=
  omap (fun ir : nat * list bool =>
          if existsb id ir.2 then Some (Z.of_nat ir.1 + 1) else None)
       (imap pair im).

Definition toy : Libraries := {|
  Pixel := Z;
  Scalar := Z;
  scalar_of_Z := id;
  scalar_mul := Z.mul;
  scalar_gt := Z.gtb;
  astype_float := id;
  DataSet := list (string * (string * string));
  from_uri uri :=
    if bool_decide (uri = "dataset") then Ok toy_dataset
    else Raise (LibraryError "not a dataset");
  dataset_name _ := "toy";
  dataset_identifiers ds := fst <$> ds;
  item_content_abspath ds i := (toy_lookup ds i).1;
  item_properties ds i := {[ "relpath" := (toy_lookup ds i).2 ]};
  MicroscopyCollection := list (Image Z);
  load := toy_load;
  collection_series c := Z.of_nat <$> seq 0 (length c);
  collection_image c s := default [] (c !! Z.to_nat s);
  Selem := Z;
  lib_normalise im := im;
  lib_smooth_gaussian im _ := map (map (fun v => v / 2)) im;
  lib_erode_binary im := im;
  lib_remove_small_objects im _ := im;
  lib_disk r := r;
  lib_dilate_binary im _ := im;
  lib_white_tophat im _ := im;
  SegmentedImage := list Z;
  Region := list Z;
  lib_connected_components im _ := toy_labels im;
  lib_identifiers seg := seg;
  lib_region_by_identifier _ i := [i];
  lib_convex_hull r := r ++ [1];
  lib_inner r := r ++ [2];
  lib_border r := r ++ [3];
  lib_dilate r := r ++ [4];
  Color := Z;
  AnnotatedImage := list (list Z * Z);
  lib_from_grayscale _ := [];
  lib_pretty_color_from_identifier i := 100 + i;
  lib_mask_region canvas r color := canvas ++ [(r, color)];
  lib_png canvas := "PNG" +:+ format_d (Z.of_nat (length canvas));
  png_of_scalars _ := "scalars";
  png_of_bools _ := "bools";
  png_of_segmentation _ := "labels"
|}.

(** A file system that holds the directory of the dataset, and one that
    holds an output directory as well. *)
Definition toy_fs : FS := mkFS {[ (false, ["dataset"]) ]} ∅.

Definition toy_fs_out : FS :=
  mkFS {[ (false, ["dataset"]); (false, ["out"]) ]} ∅.

Definition toy_image : list (list Z) := [[0; 0]; [200; 255]].

(** The same libraries over datasets whose items carry no properties. *)
Definition toy_bare : Libraries := {|
  Pixel := Z;
  Scalar := Z;
  scalar_of_Z := id;
  scalar_mul := Z.mul;
  scalar_gt := Z.gtb;
  astype_float := id;
  DataSet := list (string * (string * string));
  from_uri uri :=
    if bool_decide (uri = "dataset") then Ok toy_dataset
    else Raise (LibraryError "not a dataset");
  dataset_name _ := "toy";
  dataset_identifiers ds := fst <$> ds;
  item_content_abspath ds i := (toy_lookup ds i).1;
  item_properties _ _ := ∅;
  MicroscopyCollection := list (Image Z);
  load := toy_load;
  collection_series c := Z.of_nat <$> seq 0 (length c);
  collection_image c s := default [] (c !! Z.to_nat s);
  Selem := Z;
  lib_normalise im := im;
  lib_smooth_gaussian im _ := map (map (fun v => v / 2)) im;
  lib_erode_binary im := im;
  lib_remove_small_objects im _ := im;
  lib_disk r := r;
  lib_dilate_binary im _ := im;
  lib_white_tophat im _ := im;
  SegmentedImage := list Z;
  Region := list Z;
  lib_connected_components im _ := toy_labels im;
  lib_identifiers seg := seg;
  lib_region_by_identifier _ i := [i];
  lib_convex_hull r := r ++ [1];
  lib_inner r := r ++ [2];
  lib_border r := r ++ [3];
  lib_dilate r := r ++ [4];
  Color := Z;
  AnnotatedImage := list (list Z * Z);
  lib_from_grayscale _ := [];
  lib_pretty_color_from_identifier i := 100 + i;
  lib_mask_region canvas r color := canvas ++ [(r, color)];
  lib_png canvas := "PNG" +:+ format_d (Z.of_nat (length canvas));
  png_of_scalars _ := "scalars";
  png_of_bools _ := "bools";
  png_of_segmentation _ := "labels"
|}.

(** File systems in which a regular file stands where the script wants a
    directory: [out/sub], and [output]. *)
Definition toy_fs_blocked : FS :=
  mkFS {[ (false, ["dataset"]); (false, ["out"]) ]}
       {[ (false, ["out"; "sub"]) := "" ]}.

Definition toy_fs_output_file : FS :=
  mkFS {[ (false, ["dataset"]) ]} {[ (false, ["output"]) := "" ]}.

(** Worlds as [main] leaves them before the analysis: without [--debug],
    and with it. *)
Definition toy_quiet : World :=
  mkWorld toy_fs_out "{:03d}_" (Some "out") 0 false None WARNING.

Definition toy_debug : World :=
  mkWorld toy_fs_out "{:03d}_" (Some "out") 0 true None WARNING.

Example format_03d_7 : format_03d 7 = "007". Proof. reflexivity. Qed.
Example format_03d_1234 : format_03d 1234 = "1234". Proof. reflexivity. Qed.
Example format_03d_neg : format_03d (-5) = "-05". Proof. reflexivity. Qed.
Example join_rel : os_path_join "out" "a/b.tif" = "out/a/b.tif". Proof. reflexivity. Qed.
Example join_abs : os_path_join "out" "/etc" = "/etc". Proof. reflexivity. Qed.
Example join_slash : os_path_join "out/" "x" = "out/x". Proof. reflexivity. Qed.
Example key_ex : path_key "out//a/./b/" = Some (false, ["out"; "a"; "b"]). Proof. vm_compute. reflexivity. Qed.
Example mk_ex : (fs_makedirs fs_empty "a/b/c").1 = Ok tt. Proof. vm_compute. reflexivity. Qed.
Example mk_ex2 : fs_isdir (fs_makedirs fs_empty "a/b/c").2 "a/b" = true. Proof. vm_compute. reflexivity. Qed.
Example mk_ex3 : (fs_mkdir fs_empty "a/b").1 = Raise (OSError ENOENT). Proof. vm_compute. reflexivity. Qed.

Example toy_run_outcome :
  outcome (exec (L:=toy) (script "analysis.py" (mkArgs "dataset" "out" false)) (startup toy_fs)) = Ok tt.
Proof. vm_compute. reflexivity. Qed.

(** * Properties *)

Lemma parse_digits_zero s :
  parse_digits (String "0" s) = parse_digits s.
Proof.
  unfold parse_digits. simpl.
  destruct (NilEmpty.uint_of_string s) as [d|]; reflexivity.
Qed.

Lemma parse_digits_zeros k s :
  parse_digits (zeros k +:+ s) = parse_digits s.
Proof.
  induction k as [|k IH]; simpl; [reflexivity|].
  etrans; [apply parse_digits_zero|apply IH].
Qed.

Lemma to_uint_not_nil n : N.to_uint n ≠ Decimal.Nil.
Proof.
  intros H. pose proof (DecimalN.Unsigned.of_to n) as Hn. rewrite H in Hn.
  simpl in Hn. subst n. discriminate H.
Qed.

Lemma parse_digits_decimal n : parse_digits (decimal n) = Some n.
Proof.
  unfold parse_digits, decimal.
  pose proof (to_uint_not_nil n) as Hnil.
  assert (NilZero.string_of_uint (N.to_uint n)
          = NilEmpty.string_of_uint (N.to_uint n)) as ->.
  { by destruct (N.to_uint n). }
  rewrite NilEmpty.usu. simpl. f_equal. apply DecimalN.Unsigned.of_to.
Qed.

Lemma parse_digits_zfill w n : parse_digits (zfill w (decimal n)) = Some n.
Proof. unfold zfill. by rewrite parse_digits_zeros, parse_digits_decimal. Qed.

Lemma parse_digits_minus t : parse_digits (String "-" t) = None.
Proof.
  unfold parse_digits. simpl.
  by destruct (NilEmpty.uint_of_string t).
Qed.

Lemma decimal_nonempty n : decimal n ≠ "".
Proof. unfold decimal. by destruct (N.to_uint n). Qed.

Lemma zfill_nonempty w s : s ≠ "" → zfill w s ≠ "".
Proof.
  unfold zfill. intros Hs H. destruct (zeros (w - String.length s)); [done|].
  discriminate H.
Qed.

Lemma parse_int_format_03d n : parse_int (format_03d n) = Some n.
Proof.
  unfold format_03d. destruct (n <? 0) eqn:Hn.
  - change (parse_int ("-" +:+ ?t)) with ((fun n => - Z.of_N n) <$> parse_digits t).
    rewrite parse_digits_zfill. simpl. f_equal. lia.
  - pose proof (parse_digits_zfill 3 (Z.to_N n)) as H.
    pose proof (zfill_nonempty 3 _ (decimal_nonempty (Z.to_N n))) as Hne.
    destruct (zfill 3 (decimal (Z.to_N n))) as [|c t] eqn:E; [done|].
    unfold parse_int. case_bool_decide as Hc.
    + subst c. by rewrite parse_digits_minus in H.
    + rewrite H. simpl. f_equal. lia.
Qed.

Lemma format_03d_inj n m : format_03d n = format_03d m → n = m.
Proof.
  intros H. apply (f_equal parse_int) in H.
  rewrite !parse_int_format_03d in H. by injection H.
Qed.

Lemma string_length_app (s t : string) :
  String.length (s +:+ t) = (String.length s + String.length t)%nat.
Proof. induction s as [|c s IH]; simpl; [done|]. by rewrite IH. Qed.

Lemma string_app_inv_tail (s1 s2 t : string) : s1 +:+ t = s2 +:+ t → s1 = s2.
Proof.
  revert s2. induction s1 as [|c s1 IH]; intros [|c2 s2] H.
  - done.
  - apply (f_equal String.length) in H.
    rewrite !string_length_app in H. simpl in H. lia.
  - apply (f_equal String.length) in H.
    rewrite !string_length_app in H. simpl in H. lia.
  - simpl in H. injection H as -> H. f_equal. by apply IH.
Qed.

Section Properties.
Context `{L : Libraries}.

Lemma after_then_run {A B} ev (r : Run A) (f : A → World → Run B) :
  after ev (then_run r f) = then_run (after ev r) f.
Proof. unfold then_run, after. simpl. destruct (outcome r); reflexivity. Qed.

Lemma then_run_ok {A B} (r : Run A) (f : A → World → Run B) a :
  outcome r = Ok a →
  then_run r f
  = mkRun (outcome (f a (final r))) (final (f a (final r)))
      (calls r ++ calls (f a (final r))).
Proof. intros H. unfold then_run. by rewrite H. Qed.

Lemma then_run_raise {A B} (r : Run A) (f : A → World → Run B) e :
  outcome r = Raise e → then_run r f = mkRun (Raise e) (final r) (calls r).
Proof. intros H. unfold then_run. by rewrite H. Qed.

Lemma then_run_inv {A B} (r : Run A) (f : A → World → Run B) b :
  outcome (then_run r f) = Ok b →
  ∃ a, outcome r = Ok a ∧ outcome (f a (final r)) = Ok b.
Proof.
  unfold then_run. destruct (outcome r) as [a|e]; [|done]. eauto.
Qed.

Lemma exec_bind {A B} (p : Prog A) (f : A → Prog B) w :
  exec (bind p f) w = then_run (exec p w) (fun a => exec (f a)).
Proof.
  revert w. induction p as [a|e|ev k IH]; intros w; simpl.
  - unfold then_run. simpl. by destruct (exec (f a) w).
  - reflexivity.
  - rewrite IH. apply after_then_run.
Qed.

Lemma exec_outline_component seg canvas i w :
  exec (outline_component seg canvas i) w
  = mkRun (Ok (outlined seg canvas i)) w (outline_calls seg canvas i).
Proof. reflexivity. Qed.

Lemma exec_outlines seg ids : ∀ canvas w,
  exec (for_update ids canvas (outline_component seg)) w
  = mkRun (Ok (fold_left (outlined seg) ids canvas)) w
      (outlines_calls seg canvas ids).
Proof.
  induction ids as [|i ids IH]; intros canvas w; simpl; [reflexivity|].
  rewrite IH. reflexivity.
Qed.

Ltac step_save :=
  match goal with
  | |- context [autowrite_save ?w ?n ?p] =>
      destruct (autowrite_save w n p) as [[[]|?] ?]; cbn;
      [|intros; discriminate]
  end.

Lemma exec_analyse_image w image c :
  outcome (exec (analyse_image image) w) = Ok c →
  c = annotated image ∧ calls (exec (analyse_image image) w) = analyse_image_calls image.
Proof.
  unfold analyse_image. cbn.
  repeat step_save.
  rewrite exec_bind, exec_outlines. cbn. rewrite app_nil_r.
  intros [= <-]. split; reflexivity.
Qed.

Ltac step_save_prefix :=
  match goal with
  | |- context [autowrite_save ?w ?n ?p] =>
      destruct (autowrite_save w n p) as [[[]|?] ?]; cbn;
      [|unfold analyse_image_calls, segmentation_calls; cbn; by eexists]
  end.

Lemma exec_analyse_image_prefix w image :
  calls (exec (analyse_image image) w) `prefix_of` analyse_image_calls image.
Proof.
  unfold analyse_image. cbn.
  repeat step_save_prefix.
  rewrite exec_bind, exec_outlines. cbn. by rewrite app_nil_r.
Qed.

Lemma autowrite_save_off w n p :
  AutoWrite_on w = false → autowrite_save w n p = (Ok tt, w).
Proof. intros H. unfold autowrite_save. by rewrite H. Qed.

Lemma exec_analyse_image_off w image :
  AutoWrite_on w = false →
  exec (analyse_image image) w = mkRun (Ok (annotated image)) w (analyse_image_calls image).
Proof.
  intros Hoff. unfold analyse_image. cbn.
  repeat (rewrite autowrite_save_off by done; cbn).
  rewrite exec_bind, exec_outlines. cbn. rewrite app_nil_r. reflexivity.
Qed.

Lemma outlines_calls_no_chain_step seg ids : ∀ canvas,
  Forall (fun ev => chain_step ev = false) (outlines_calls seg canvas ids).
Proof.
  induction ids as [|i ids IH]; intros canvas; simpl; [constructor|].
  repeat (constructor; [reflexivity|]). apply IH.
Qed.

Lemma omap_masked_outlines seg ids : ∀ canvas,
  omap masked (outlines_calls seg canvas ids)
  = map (fun i => (outline_region seg i, lib_pretty_color_from_identifier i)) ids.
Proof.
  induction ids as [|i ids IH]; intros canvas; simpl; [reflexivity|].
  by rewrite IH.
Qed.

(** C1.  For every image and every world, the calls [analyse_image] makes
    are an initial part of one fixed list, [analyse_image_calls]: a run
    that is cut short stops somewhere along it, and no run leaves it.  A
    run that returns has made the whole segmentation chain, in this order
    and with these parameters: normalise and scale by 255, smoothing with
    sigma 5, thresholding at 30, erosion, removal of objects below 5
    pixels, dilation by the disk of radius 2, labelling with background 0,
    each applied to the result of the step before; the calls that follow
    (the outlining of the labelled components) repeat none of them, and
    the value returned is the annotated canvas.  The chain takes nothing
    from the caller but the image. *)
Theorem analyse_image_fixed_sequence (w : World) (image : Image Pixel) :
  let r := exec (analyse_image image) w in
  calls r `prefix_of` analyse_image_calls image
  ∧ (∀ c, outcome r = Ok c →
      c = annotated image
      ∧ ∃ rest, calls r
                = segmentation_calls image
                  ++ Identifiers (stage_labelled image) :: rest
                ∧ Forall (fun ev => chain_step ev = false) rest)
  ∧ stage_labelled image
    = lib_connected_components
        (lib_dilate_binary
           (lib_remove_small_objects
              (lib_erode_binary
                 (array_gt
                    (lib_smooth_gaussian
                       (astype_float
                          (array_mul (lib_normalise image) (scalar_of_Z 255)))
                       5)
                    (scalar_of_Z 30)))
              5)
           (lib_disk 2))
        0.
Proof.
  cbv zeta. split; [|split].
  - apply exec_analyse_image_prefix.
  - intros c Hc. destruct (exec_analyse_image _ _ _ Hc) as [-> ->].
    split; [reflexivity|].
    eexists. split; [reflexivity|]. apply outlines_calls_no_chain_step.
  - reflexivity.
Qed.

(** C6.  When [analyse_image] returns, the canvas is the grayscale canvas
    on which every identifier of the labelling was outlined in turn, and
    the regions masked onto it are, one per identifier and in order, the
    dilated border of the interior of the convex hull of the component,
    each in the colour [pretty_color_from_identifier] gives for it. *)
Theorem analyse_image_outlines_each_component (w : World) (image : Image Pixel)
    (c : AnnotatedImage) :
  let r := exec (analyse_image image) w in
  let seg := stage_labelled image in
  outcome r = Ok c →
  c = fold_left (outlined seg) (lib_identifiers seg)
        (lib_from_grayscale (stage_scaled image))
  ∧ omap masked (calls r)
    = map (fun i => (outline_region seg i, lib_pretty_color_from_identifier i))
        (lib_identifiers seg)
  ∧ length (omap masked (calls r)) = length (lib_identifiers seg).
Proof.
  cbv zeta. intros Hc. destruct (exec_analyse_image _ _ _ Hc) as [-> ->].
  split; [reflexivity|].
  assert (omap masked (analyse_image_calls image)
    = map (fun i => (outline_region (stage_labelled image) i,
                     lib_pretty_color_from_identifier i))
        (lib_identifiers (stage_labelled image))) as ->.
  { unfold analyse_image_calls. rewrite omap_app. simpl.
    apply omap_masked_outlines. }
  split; [reflexivity|]. by rewrite length_map.
Qed.

(** C7.  The canvas [analyse_image] returns depends on the image alone:
    two runs on the same image, from any two worlds, return the same
    canvas, and so do two runs in a row, the second starting in the world
    the first left. *)
Theorem analyse_image_deterministic (image : Image Pixel) :
  (∀ w1 w2 c1 c2,
     outcome (exec (analyse_image image) w1) = Ok c1 →
     outcome (exec (analyse_image image) w2) = Ok c2 →
     c1 = c2)
  ∧ (∀ w c1 c2, outcome (exec (twice image) w) = Ok (c1, c2) → c1 = c2).
Proof.
  split.
  - intros w1 w2 c1 c2 H1 H2.
    destruct (exec_analyse_image _ _ _ H1) as [-> _].
    by destruct (exec_analyse_image _ _ _ H2) as [-> _].
  - intros w c1 c2 H. unfold twice in H. rewrite exec_bind in H.
    apply then_run_inv in H as (a & H1 & H). rewrite exec_bind in H.
    apply then_run_inv in H as (b & H2 & [= <- <-]).
    destruct (exec_analyse_image _ _ _ H1) as [-> _].
    by destruct (exec_analyse_image _ _ _ H2) as [-> _].
Qed.

Lemma lookup_map {A B} (f : A → B) (l : list A) (i : nat) :
  map f l !! i = f <$> l !! i.
Proof. exact (list_lookup_fmap f l i). Qed.

Lemma pixel_array_gt image cutoff i j :
  pixel (array_gt image cutoff) i j
  = (fun v => scalar_gt v cutoff) <$> pixel image i j.
Proof.
  unfold pixel, array_gt. rewrite lookup_map.
  destruct (image !! i) as [row|]; simpl; [|reflexivity].
  apply lookup_map.
Qed.

Lemma exec_threshold_abs w image cutoff b :
  outcome (exec (threshold_abs image cutoff) w) = Ok b → b = array_gt image cutoff.
Proof.
  unfold threshold_abs, transformation. cbn.
  destruct (autowrite_save _ _ _) as [[[]|e] w']; cbn; [|done].
  by intros [= <-].
Qed.

(** C5.  [threshold_abs] returns an image of the shape of its input in which
    a pixel is set exactly when the input pixel is greater than the cutoff
    (numpy's [>]); and in [analyse_image] it is applied with cutoff 30 to the
    result of the smoothing, its result going to the erosion. *)
Theorem threshold_abs_is_absolute (w : World) (image : Image Scalar)
    (cutoff : Scalar) :
  (AutoWrite_on w = false →
   ∃ b, outcome (exec (threshold_abs image cutoff) w) = Ok b)
  ∧ (∀ b, outcome (exec (threshold_abs image cutoff) w) = Ok b →
     length b = length image
     ∧ ∀ i j, pixel b i j = Some true
              ↔ ∃ v, pixel image i j = Some v ∧ scalar_gt v cutoff = true)
  ∧ (∀ (im : Image Pixel) c, outcome (exec (analyse_image im) w) = Ok c →
     ∃ before rest,
       calls (exec (analyse_image im) w)
       = before
         ++ [ SmoothGaussian (astype_float (stage_scaled im)) 5;
              AutoWriteSave "smooth_gaussian" (png_of_scalars (stage_smoothed im));
              AutoWriteSave "threshold_abs"
                (png_of_bools (array_gt (stage_smoothed im) (scalar_of_Z 30)));
              ErodeBinary (array_gt (stage_smoothed im) (scalar_of_Z 30)) ]
         ++ rest).
Proof.
  split; [|split].
  - intros Hoff. unfold threshold_abs, transformation. cbn.
    rewrite autowrite_save_off by done. cbn. eauto.
  - intros b Hb. apply exec_threshold_abs in Hb as ->. split.
    + unfold array_gt. by rewrite length_map.
    + intros i j. rewrite pixel_array_gt.
      destruct (pixel image i j) as [v|]; simpl.
      * split; [intros [= H]; eauto|]. by intros (v' & [= <-] & ->).
      * split; [done|]. by intros (v' & [=] & _).
  - intros im c Hc. destruct (exec_analyse_image _ _ _ Hc) as [_ ->].
    exists [Normalise im; FromGrayscale (stage_scaled im); AsTypeFloat (stage_scaled im)].
    eexists. reflexivity.
Qed.

Lemma mkdir_key_ok f k f' :
  mkdir_key f k = (Ok tt, f') → f' = mkFS ({[k]} ∪ dirs f) (files f).
Proof.
  unfold mkdir_key. destruct (parent_error f k); [done|].
  destruct (exists_key f k); [done|]. by intros [= <-].
Qed.

Lemma mkdir_key_ok_isdir f k f' :
  mkdir_key f k = (Ok tt, f') → isdir_key f' k = true.
Proof.
  intros ->%mkdir_key_ok. unfold isdir_key. simpl.
  rewrite bool_decide_eq_true_2 by set_solver. apply orb_true_r.
Qed.

Lemma makedirs_from_ok_isdir rest : ∀ f a pre f',
  makedirs_from f a pre rest = (Ok tt, f') →
  isdir_key f' (a, pre ++ rest) = true.
Proof.
  induction rest as [|c rest IH]; intros f a pre f'.
  - simpl. rewrite app_nil_r. apply mkdir_key_ok_isdir.
  - destruct rest as [|c' rest].
    + simpl. apply mkdir_key_ok_isdir.
    + change (makedirs_from f a pre (c :: c' :: rest))
        with (if exists_key f (a, pre ++ [c])
              then makedirs_from f a (pre ++ [c]) (c' :: rest)
              else match mkdir_key f (a, pre ++ [c]) with
                   | (Ok _, f1) => makedirs_from f1 a (pre ++ [c]) (c' :: rest)
                   | (Raise e, f1) => (Raise e, f1)
                   end).
      replace (pre ++ c :: c' :: rest) with ((pre ++ [c]) ++ c' :: rest)
        by by rewrite <- app_assoc.
      destruct (exists_key f (a, pre ++ [c])); [apply IH|].
      destruct (mkdir_key f (a, pre ++ [c])) as [[[]|e] f1]; [apply IH|done].
Qed.

Lemma fs_makedirs_ok_isdir f p f' :
  fs_makedirs f p = (Ok tt, f') → fs_isdir f' p = true.
Proof.
  unfold fs_makedirs, fs_isdir. destruct (path_key p) as [[a cs]|]; [|done].
  intros H. by apply makedirs_from_ok_isdir in H.
Qed.

Lemma exec_safe_mkdir d w :
  exec (safe_mkdir d) w
  = let m := fs_makedirs (fs w) d in
    match m.1 with
    | Ok _ => mkRun (Ok tt) (with_fs w m.2) [OsMakedirs d]
    | Raise (OSError EEXIST) =>
        mkRun (if fs_isdir m.2 d then Ok tt else Raise (OSError EEXIST))
          (with_fs w m.2) [OsMakedirs d; OsPathIsdir d]
    | Raise e => mkRun (Raise e) (with_fs w m.2) [OsMakedirs d]
    end.
Proof.
  unfold safe_mkdir. cbn.
  destruct (fs_makedirs (fs w) d) as [[[]|e] f]; cbn; [reflexivity|].
  destruct e as [[]| | |]; cbn; try reflexivity.
  rewrite bool_decide_eq_true_2 by done. cbn. by destruct (fs_isdir f d).
Qed.

Lemma catches_only_bind {A B} allowed (p : Prog A) (f : A → Prog B) :
  catches_only allowed p → (∀ a, catches_only allowed (f a)) →
  catches_only allowed (bind p f).
Proof.
  intros Hp Hf. induction p as [a|e|ev k IH]; simpl; [apply Hf|done|].
  destruct Hp as [Hk Hr]. split.
  - destruct Hk as [?|Hk]; [by left|]. right. intros e. by rewrite Hk.
  - intros r. apply IH, Hr.
Qed.

Lemma catches_only_call allowed ev : catches_only allowed (call ev).
Proof. split; [by right|]. by intros []. Qed.

Lemma catches_only_for_each {X} allowed (xs : list X) body :
  (∀ x, catches_only allowed (body x)) →
  catches_only allowed (for_each xs body).
Proof.
  intros Hb. induction xs as [|x xs IH]; simpl; [done|].
  apply catches_only_bind; [apply Hb|done].
Qed.

Lemma catches_only_for_update {X S} allowed (xs : list X) body : ∀ s : S,
  (∀ s x, catches_only allowed (body s x)) →
  catches_only allowed (for_update xs s body).
Proof.
  intros s Hb. revert s. induction xs as [|x xs IH]; intros s; simpl; [done|].
  apply catches_only_bind; [apply Hb|]. intros s'. apply IH.
Qed.

Lemma catches_only_weaken {A} (P Q : Event → Prop) (p : Prog A) :
  (∀ ev, P ev → Q ev) → catches_only P p → catches_only Q p.
Proof.
  intros HPQ. induction p as [a|e|ev k IH]; simpl; [done|done|].
  intros [Hk Hr]. split; [|intros r; by apply IH].
  destruct Hk; [left; auto|by right].
Qed.

Create HintDb catch.

Ltac no_catch :=
  unfold os_path_isdir, os_mkdir, os_makedirs, logging_info;
  repeat first
    [ solve [auto with catch nocore]
    | match goal with
      | |- catches_only ?P (call ?ev) => exact (catches_only_call P ev)
      end
    | apply catches_only_bind; [|intros ?]
    | apply catches_only_for_each; intros ?
    | apply catches_only_for_update; intros ? ?
    | exact I
    | match goal with |- catches_only _ (if ?b then _ else _) => destruct b end ].

Lemma analyse_image_catches_nothing image :
  catches_only nothing (analyse_image image).
Proof.
  unfold analyse_image, smooth_gaussian, threshold_abs, erode_binary,
    remove_small_objects, dilate_binary, connected_components, transformation,
    outline_component.
  no_catch.
Qed.

#[local] Hint Resolve analyse_image_catches_nothing : catch.

Lemma get_microscopy_collection_catches_nothing input_file :
  catches_only nothing (get_microscopy_collection input_file).
Proof.
  unfold get_microscopy_collection, os_path_isdir, os_mkdir. no_catch.
Qed.

#[local] Hint Resolve get_microscopy_collection_catches_nothing : catch.

Lemma analyse_file_catches_nothing fpath output_directory :
  catches_only nothing (analyse_file fpath output_directory).
Proof.
  unfold analyse_file, analyse_series, logging_info.
  no_catch.
Qed.

Lemma safe_mkdir_catches_makedirs directory :
  catches_only is_makedirs (safe_mkdir directory).
Proof.
  unfold safe_mkdir. simpl. split; [left; by eexists|].
  intros [[]|e]; simpl; [done|].
  destruct e as [errno| | |]; simpl; try done.
  destruct (bool_decide (errno = EEXIST)); simpl; [|done].
  split; [by right|]. intros [[]|e]; simpl; done.
Qed.

Lemma analyse_file_catches_no_more fpath output_directory :
  catches_only is_makedirs (analyse_file fpath output_directory).
Proof.
  eapply catches_only_weaken; [|apply analyse_file_catches_nothing]. by intros ? [].
Qed.

#[local] Hint Resolve safe_mkdir_catches_makedirs analyse_file_catches_no_more : catch.

Lemma script_catches_makedirs file args :
  catches_only is_makedirs (script file args).
Proof.
  unfold script, module_level, main, analyse_dataset, analyse_item,
    item_output_path, getitem.
  no_catch. by destruct (_ !! _).
Qed.

Lemma annotation_name_inj s1 s2 : annotation_name s1 = annotation_name s2 → s1 = s2.
Proof.
  unfold annotation_name. intros H.
  apply (inj (String.app "series_")) in H.
  apply string_app_inv_tail in H. by apply format_03d_inj.
Qed.

Lemma annotation_name_relative s : startswith_sep (annotation_name s) = false.
Proof. reflexivity. Qed.

Lemma os_path_join_inj a b1 b2 :
  startswith_sep b1 = false → startswith_sep b2 = false →
  os_path_join a b1 = os_path_join a b2 → b1 = b2.
Proof.
  unfold os_path_join. intros -> ->.
  destruct (bool_decide (a = "") || endswith_sep a); intros H.
  - by apply (inj (String.app a)) in H.
  - apply (inj (String.app a)) in H. by apply (inj (String.app "/")) in H.
Qed.

#[export] Instance fs_grows_preorder : PreOrder fs_grows.
Proof.
  split.
  - by intros f.
  - intros f1 f2 f3 [? ?] [? ?]. split; by etrans.
Qed.

Lemma isdir_key_grows f f' k :
  fs_grows f f' → isdir_key f k = true → isdir_key f' k = true.
Proof.
  intros [Hd _]. unfold isdir_key. rewrite !orb_true_iff, !bool_decide_eq_true.
  intros [?|?]; [by left|right]. by apply Hd.
Qed.

Lemma isfile_key_dom f k : isfile_key f k = true ↔ k ∈ dom (files f).
Proof. unfold isfile_key. by rewrite bool_decide_eq_true, elem_of_dom. Qed.

Lemma isfile_key_grows f f' k :
  fs_grows f f' → isfile_key f k = true → isfile_key f' k = true.
Proof. intros [_ Hf]. rewrite !isfile_key_dom. apply Hf. Qed.

Lemma fs_isdir_grows f f' p :
  fs_grows f f' → fs_isdir f p = true → fs_isdir f' p = true.
Proof.
  unfold fs_isdir. destruct (path_key p); [|done]. apply isdir_key_grows.
Qed.

Lemma fs_isfile_grows f f' p :
  fs_grows f f' → fs_isfile f p = true → fs_isfile f' p = true.
Proof.
  unfold fs_isfile. destruct (path_key p); [|done]. apply isfile_key_grows.
Qed.

Lemma mkdir_key_grows f k : fs_grows f (mkdir_key f k).2.
Proof.
  unfold mkdir_key. destruct (parent_error f k); [done|].
  destruct (exists_key f k); [done|]. split; simpl; set_solver.
Qed.

Lemma makedirs_from_grows rest : ∀ f a pre, fs_grows f (makedirs_from f a pre rest).2.
Proof.
  induction rest as [|c rest IH]; intros f a pre.
  - apply mkdir_key_grows.
  - destruct rest as [|c' rest]; [apply mkdir_key_grows|].
    change (makedirs_from f a pre (c :: c' :: rest))
      with (if exists_key f (a, pre ++ [c])
            then makedirs_from f a (pre ++ [c]) (c' :: rest)
            else match mkdir_key f (a, pre ++ [c]) with
                 | (Ok _, f1) => makedirs_from f1 a (pre ++ [c]) (c' :: rest)
                 | (Raise e, f1) => (Raise e, f1)
                 end).
    destruct (exists_key f (a, pre ++ [c])); [apply IH|].
    pose proof (mkdir_key_grows f (a, pre ++ [c])) as Hm.
    destruct (mkdir_key f (a, pre ++ [c])) as [[[]|e] f1]; [|done].
    etrans; [exact Hm|apply IH].
Qed.

Lemma fs_mkdir_grows f p : fs_grows f (fs_mkdir f p).2.
Proof. unfold fs_mkdir. destruct (path_key p); [apply mkdir_key_grows|done]. Qed.

Lemma fs_makedirs_grows f p : fs_grows f (fs_makedirs f p).2.
Proof.
  unfold fs_makedirs. destruct (path_key p); [apply makedirs_from_grows|done].
Qed.

Lemma fs_write_grows f p data : fs_grows f (fs_write f p data).2.
Proof.
  unfold fs_write. destruct (path_key p) as [k|]; [|done].
  destruct (open_error f k); [done|]. split; simpl; [done|].
  rewrite dom_insert_L. set_solver.
Qed.

Lemma fs_append_grows f p data : fs_grows f (fs_append f p data).2.
Proof.
  unfold fs_append. destruct (path_key p) as [k|]; [|done].
  destruct (open_error f k); [done|]. split; simpl; [done|].
  rewrite dom_insert_L. set_solver.
Qed.

Lemma fs_write_ok_isfile f p data f' :
  fs_write f p data = (Ok tt, f') → fs_isfile f' p = true.
Proof.
  unfold fs_write, fs_isfile. destruct (path_key p) as [k|]; [|done].
  destruct (open_error f k); [done|]. intros [= <-].
  rewrite isfile_key_dom. simpl. rewrite dom_insert_L. set_solver.
Qed.

Lemma fs_append_ok_isfile f p data f' :
  fs_append f p data = (Ok tt, f') → fs_isfile f' p = true.
Proof.
  unfold fs_append, fs_isfile. destruct (path_key p) as [k|]; [|done].
  destruct (open_error f k); [done|]. intros [= <-].
  rewrite isfile_key_dom. simpl. rewrite dom_insert_L. set_solver.
Qed.

Lemma handle_grows ev w : fs_grows (fs w) (fs (handle ev w).2).
Proof.
  destruct ev; simpl; try reflexivity.
  - apply fs_mkdir_grows.
  - apply fs_makedirs_grows.
  - apply fs_write_grows.
  - apply fs_append_grows.
  - unfold logging_basicConfig. destruct (root_handler w); [reflexivity|].
    pose proof (fs_append_grows (fs w) filename "") as H.
    by destruct (fs_append (fs w) filename "") as [[[]|e] f].
  - unfold emit_info. simpl.
    destruct (_ <=? _); [|reflexivity].
    destruct (default StreamHandler (root_handler w)); [|reflexivity].
    apply fs_append_grows.
  - unfold autowrite_save. destruct (AutoWrite_on w); [|reflexivity].
    apply fs_write_grows.
  - unfold filebackend_init, mkdir_if_missing.
    destruct (fs_isdir (fs w) directory); [reflexivity|]. apply fs_mkdir_grows.
Qed.

Lemma exec_grows {A} (p : Prog A) : ∀ w, fs_grows (fs w) (fs (final (exec p w))).
Proof.
  induction p as [a|e|ev k IH]; intros w; simpl; [reflexivity..|].
  etrans; [apply (handle_grows ev w)|apply IH].
Qed.

Lemma exec_call ev w :
  exec (call ev) w = mkRun (handle ev w).1 (handle ev w).2 [ev].
Proof. unfold call. simpl. by destruct (handle ev w).1. Qed.

(** What a bind that returned tells about its two parts. *)
Lemma exec_bind_ok {A B} (p : Prog A) (f : A → Prog B) w b :
  outcome (exec (bind p f) w) = Ok b →
  ∃ a, outcome (exec p w) = Ok a
       ∧ outcome (exec (f a) (final (exec p w))) = Ok b
       ∧ final (exec (bind p f) w) = final (exec (f a) (final (exec p w)))
       ∧ calls (exec (bind p f) w)
         = calls (exec p w) ++ calls (exec (f a) (final (exec p w))).
Proof.
  rewrite exec_bind. intros H. destruct (then_run_inv _ _ _ H) as (a & Ha & Hb).
  exists a. rewrite (then_run_ok _ _ _ Ha). auto.
Qed.

Lemma for_each_calls {X Y} (proj : Event → option Y) (g : X → list Y)
    (xs : list X) (body : X → Prog unit) :
  (∀ x w, outcome (exec (body x) w) = Ok tt →
          omap proj (calls (exec (body x) w)) = g x) →
  ∀ w, outcome (exec (for_each xs body) w) = Ok tt →
       omap proj (calls (exec (for_each xs body) w)) = concat (map g xs).
Proof.
  intros Hbody. induction xs as [|x xs IH]; intros w H; [reflexivity|].
  simpl in H |- *. apply exec_bind_ok in H as ([] & Hx & Hxs & _ & ->).
  rewrite omap_app. f_equal; [by apply Hbody|by apply IH].
Qed.

Lemma for_each_final {X} (Q : X → World → Prop) (xs : list X)
    (body : X → Prog unit) :
  (∀ x w, outcome (exec (body x) w) = Ok tt → Q x (final (exec (body x) w))) →
  (∀ x (p : Prog unit) w, Q x w → Q x (final (exec p w))) →
  ∀ w, outcome (exec (for_each xs body) w) = Ok tt →
       ∀ x, x ∈ xs → Q x (final (exec (for_each xs body) w)).
Proof.
  intros Hbody Hstable. induction xs as [|x xs IH]; intros w H y Hy.
  - by apply elem_of_nil in Hy.
  - simpl in H |- *. apply exec_bind_ok in H as ([] & Hx & Hxs & -> & _).
    apply elem_of_cons in Hy as [->|Hy].
    + apply Hstable. by apply Hbody.
    + by apply IH.
Qed.

Lemma concat_map_singleton {X Y} (f : X → Y) (xs : list X) :
  concat (map (fun x => [f x]) xs) = map f xs.
Proof. induction xs as [|x xs IH]; simpl; [done|]. by rewrite IH. Qed.

Lemma concat_map_nil {X Y} (xs : list X) :
  concat (map (fun _ => @nil Y) xs) = [].
Proof. induction xs as [|x xs IH]; simpl; done. Qed.

Lemma analyse_series_ok mc out s w :
  outcome (exec (analyse_series mc out s) w) = Ok tt →
  calls (exec (analyse_series mc out s) w)
  = analyse_image_calls (collection_image mc s)
    ++ [ OpenWb (annotation_path out s);
         Png (annotated (collection_image mc s));
         FhWrite (annotation_path out s)
           (lib_png (annotated (collection_image mc s))) ]
  ∧ fs_isfile (fs (final (exec (analyse_series mc out s) w)))
      (annotation_path out s) = true.
Proof.
  unfold analyse_series. intros H.
  apply exec_bind_ok in H as (c & Hc & H & -> & ->).
  destruct (exec_analyse_image _ _ _ Hc) as [-> ->].
  set (w1 := final (exec (analyse_image (collection_image mc s)) w)) in *.
  clearbody w1. clear Hc. cbn in H |- *.
  destruct (fs_write (fs w1) _ "") as [[[]|e] f1]; cbn in H |- *; [|done].
  destruct (fs_append f1 _ _) as [[[]|e] f2] eqn:Ha; cbn in H |- *; [|done].
  split; [reflexivity|]. by apply fs_append_ok_isfile in Ha.
Qed.

Lemma exec_get_microscopy_collection_ok input_file w mc :
  outcome (exec (get_microscopy_collection input_file) w) = Ok mc →
  load input_file = Ok mc
  ∧ omap loaded (calls (exec (get_microscopy_collection input_file) w))
    = [input_file]
  ∧ omap opened (calls (exec (get_microscopy_collection input_file) w)) = []
  ∧ omap written (calls (exec (get_microscopy_collection input_file) w)) = []
  ∧ omap made (calls (exec (get_microscopy_collection input_file) w)) = [].
Proof.
  unfold get_microscopy_collection. cbn.
  destruct (fs_isdir (fs w) "output"); cbn.
  - destruct (filebackend_init w _) as [[[]|e] w1]; cbn; [|done].
    destruct (load input_file) as [mc'|e]; cbn; [|done]. by intros [= <-].
  - destruct (fs_mkdir (fs w) "output") as [[[]|e] f1]; cbn; [|done].
    destruct (filebackend_init _ _) as [[[]|e] w1]; cbn; [|done].
    destruct (load input_file) as [mc'|e]; cbn; [|done]. by intros [= <-].
Qed.

Lemma outlines_calls_steps seg ids : ∀ canvas,
  Forall (fun ev => outline_step ev = true) (outlines_calls seg canvas ids).
Proof.
  induction ids as [|i ids IH]; intros canvas; simpl; [constructor|].
  repeat (constructor; [reflexivity|]). apply IH.
Qed.

Lemma analyse_image_calls_steps image :
  Forall (fun ev => chain_step ev || outline_step ev = true)
    (analyse_image_calls image).
Proof.
  unfold analyse_image_calls. apply Forall_app. split.
  - unfold segmentation_calls. repeat constructor.
  - constructor; [reflexivity|].
    eapply Forall_impl; [apply outlines_calls_steps|].
    simpl. intros ev ->. apply orb_true_r.
Qed.

Lemma omap_none {X Y} (proj : X → option Y) (l : list X) :
  Forall (fun x => proj x = None) l → omap proj l = [].
Proof. induction 1 as [|x l Hx _ IH]; simpl; [done|]. by rewrite Hx. Qed.

Lemma omap_analyse_image_calls {Y} (proj : Event → option Y) image :
  (∀ ev, chain_step ev || outline_step ev = true → proj ev = None) →
  omap proj (analyse_image_calls image) = [].
Proof.
  intros H. apply omap_none. eapply Forall_impl; [apply analyse_image_calls_steps|].
  apply H.
Qed.

Ltac image_calls_none :=
  rewrite omap_analyse_image_calls by (intros []; simpl; done).

Lemma analyse_file_ok fpath out w :
  let r := exec (analyse_file fpath out) w in
  outcome r = Ok tt →
  ∃ mc, load fpath = Ok mc
    ∧ omap loaded (calls r) = [fpath]
    ∧ omap made (calls r) = []
    ∧ omap opened (calls r) = map (annotation_path out) (collection_series mc)
    ∧ omap written (calls r)
      = map (fun s => (annotation_path out s,
                       lib_png (annotated (collection_image mc s))))
          (collection_series mc)
    ∧ ∀ s, s ∈ collection_series mc →
        fs_isfile (fs (final r)) (annotation_path out s) = true.
Proof.
  cbv zeta. unfold analyse_file, logging_info. intros H.
  apply exec_bind_ok in H as ([] & _ & H & -> & ->).
  apply exec_bind_ok in H as ([] & _ & H & -> & ->).
  apply exec_bind_ok in H as (mc & Hmc & H & -> & ->).
  set (w3 := final (exec (get_microscopy_collection fpath) _)) in *.
  apply exec_get_microscopy_collection_ok in Hmc as (Hload & Hl & Ho & Hw & Hm).
  exists mc. rewrite !omap_app, Hl, Ho, Hw, Hm. rewrite !exec_call. simpl.
  split; [done|]. split.
  { rewrite (for_each_calls loaded (fun _ => [])); [|
      intros s w' Hs; apply analyse_series_ok in Hs as [-> _];
      rewrite omap_app; by image_calls_none | done].
    by rewrite concat_map_nil. }
  split.
  { rewrite (for_each_calls made (fun _ => [])); [|
      intros s w' Hs; apply analyse_series_ok in Hs as [-> _];
      rewrite omap_app; by image_calls_none | done].
    apply concat_map_nil. }
  split.
  { rewrite (for_each_calls opened (fun s => [annotation_path out s])); [|
      intros s w' Hs; apply analyse_series_ok in Hs as [-> _];
      rewrite omap_app; by image_calls_none | done].
    apply concat_map_singleton. }
  split.
  { rewrite (for_each_calls written
      (fun s => [(annotation_path out s,
                  lib_png (annotated (collection_image mc s)))])); [|
      intros s w' Hs; apply analyse_series_ok in Hs as [-> _];
      rewrite omap_app; by image_calls_none | done].
    apply concat_map_singleton. }
  apply (for_each_final
    (fun s w' => fs_isfile (fs w') (annotation_path out s) = true)); [| |done].
  - intros s w' Hs. by apply analyse_series_ok in Hs as [_ ?].
  - intros s p w' Hs. eapply fs_isfile_grows; [apply exec_grows|done].
Qed.

Lemma safe_mkdir_ok d w :
  let r := exec (safe_mkdir d) w in
  outcome r = Ok tt →
  fs_isdir (fs (final r)) d = true
  ∧ omap made (calls r) = [d]
  ∧ omap loaded (calls r) = []
  ∧ omap opened (calls r) = [].
Proof.
  cbv zeta. rewrite exec_safe_mkdir. cbv zeta.
  destruct (fs_makedirs (fs w) d) as [[[]|e] f] eqn:Hm; simpl.
  - intros _. split; [|done]. by apply fs_makedirs_ok_isdir in Hm.
  - destruct e as [[]| | |]; simpl; try done.
    destruct (fs_isdir f d); [done|done].
Qed.

Lemma analyse_item_ok ds out i w :
  let r := exec (analyse_item ds out i) w in
  outcome r = Ok tt →
  ∃ rel mc,
    item_properties ds i !! "relpath" = Some rel
    ∧ load (item_content_abspath ds i) = Ok mc
    ∧ fs_isdir (fs (final r)) (os_path_join out rel) = true
    ∧ omap made (calls r) = [os_path_join out rel]
    ∧ omap loaded (calls r) = [item_content_abspath ds i]
    ∧ omap opened (calls r)
      = map (annotation_path (os_path_join out rel)) (collection_series mc).
Proof.
  cbv zeta. unfold analyse_item, getitem, item_output_path. intros H.
  destruct (item_properties ds i !! "relpath") as [rel|] eqn:Hrel; [|done].
  cbn [bind] in H |- *.
  apply exec_bind_ok in H as (d & Hd & H & -> & ->).
  apply exec_bind_ok in Hd as ([] & Hmk & Hret & Hfin & ->).
  cbn [exec outcome final calls] in Hret, Hfin. injection Hret as <-.
  rewrite Hfin in *. clear Hfin.
  apply safe_mkdir_ok in Hmk as (Hdir & Hmade & Hl & Ho).
  destruct (analyse_file_ok _ _ _ H) as (mc & Hload & Hl' & Hm' & Ho' & _ & _).
  exists rel, mc. cbn [exec calls].
  rewrite !omap_app, Hmade, Hl, Ho, Hl', Hm', Ho'.
  repeat split; try done.
  eapply fs_isdir_grows; [apply exec_grows|done].
Qed.

Lemma item_annotations_ok ds out i rel mc :
  item_properties ds i !! "relpath" = Some rel →
  load (item_content_abspath ds i) = Ok mc →
  item_annotations ds out i
  = map (annotation_path (os_path_join out rel)) (collection_series mc).
Proof.
  intros Hrel Hload. unfold item_annotations, item_output_dir, relpath_of.
  by rewrite Hrel, Hload.
Qed.

Lemma analyse_dataset_ok dataset_dir out w :
  let r := exec (analyse_dataset dataset_dir out) w in
  outcome r = Ok tt →
  ∃ ds, from_uri dataset_dir = Ok ds
    ∧ omap loaded (calls r)
      = map (item_content_abspath ds) (dataset_identifiers ds)
    ∧ omap made (calls r)
      = map (item_output_dir ds out) (dataset_identifiers ds)
    ∧ omap opened (calls r)
      = concat (map (item_annotations ds out) (dataset_identifiers ds))
    ∧ ∀ i, i ∈ dataset_identifiers ds →
        is_Some (item_properties ds i !! "relpath")
        ∧ (∃ mc, load (item_content_abspath ds i) = Ok mc)
        ∧ fs_isdir (fs (final r)) (item_output_dir ds out i) = true.
Proof.
  cbv zeta. unfold analyse_dataset, logging_info. intros H.
  apply exec_bind_ok in H as (ds & Hds & H & -> & ->).
  apply exec_bind_ok in H as ([] & _ & H & -> & ->).
  rewrite exec_call in Hds. simpl in Hds.
  exists ds. split; [done|].
  match type of H with outcome (exec _ ?w') = _ => set (w2 := w') in * end.
  clearbody w2.
  rewrite !omap_app, !exec_call. cbn [calls omap loaded made opened app].
  split.
  { rewrite (for_each_calls loaded (fun i => [item_content_abspath ds i]));
      [apply concat_map_singleton| |done].
    intros i w' Hi. by apply analyse_item_ok in Hi as (? & ? & _ & _ & _ & _ & ? & _). }
  split.
  { rewrite (for_each_calls made (fun i => [item_output_dir ds out i]));
      [apply concat_map_singleton| |done].
    intros i w' Hi. apply analyse_item_ok in Hi as (rel & ? & Hrel & _ & _ & -> & _).
    unfold item_output_dir, relpath_of. by rewrite Hrel. }
  split.
  { rewrite (for_each_calls opened (item_annotations ds out)); [done| |done].
    intros i w' Hi. apply analyse_item_ok in Hi as (rel & mc & Hrel & Hload & _ & _ & _ & ->).
    symmetry. by apply item_annotations_ok. }
  apply (for_each_final (fun i w' =>
    is_Some (item_properties ds i !! "relpath")
    ∧ (∃ mc, load (item_content_abspath ds i) = Ok mc)
    ∧ fs_isdir (fs w') (item_output_dir ds out i) = true)); [| |done].
  - intros i w' Hi.
    apply analyse_item_ok in Hi as (rel & mc & Hrel & Hload & Hdir & _).
    unfold item_output_dir, relpath_of. rewrite Hrel. eauto.
  - intros i p w' (? & ? & Hdir). do 2 (split; [done|]).
    eapply fs_isdir_grows; [apply exec_grows|done].
Qed.

Lemma format_03d_small_check :
  forallb (fun n => Nat.eqb (String.length (format_03d (Z.of_nat n))) 3)
    (seq 0 1000) = true.
Proof. vm_compute. reflexivity. Qed.

Lemma format_03d_length (s : Z) :
  0 ≤ s < 1000 → String.length (format_03d s) = 3%nat.
Proof.
  intros Hs. pose proof format_03d_small_check as H.
  rewrite forallb_forall in H. specialize (H (Z.to_nat s)).
  rewrite Z2Nat.id in H by lia. apply Nat.eqb_eq, H, in_seq. lia.
Qed.

Lemma string_app_assoc (s t u : string) : s +:+ (t +:+ u) = (s +:+ t) +:+ u.
Proof.
  induction s as [|c s IH]; [reflexivity|].
  change (String c (s +:+ (t +:+ u)) = String c ((s +:+ t) +:+ u)).
  by rewrite IH.
Qed.

Lemma os_path_join_relative a b :
  startswith_sep b = false →
  ∃ d, (d = a ∨ d = a +:+ "/") ∧ os_path_join a b = d +:+ b.
Proof.
  intros Hb. unfold os_path_join. rewrite Hb.
  destruct (bool_decide (a = "") || endswith_sep a).
  - exists a. auto.
  - exists (a +:+ "/"). split; [auto|]. apply string_app_assoc.
Qed.

Lemma annotation_path_NoDup out (l : list Z) :
  NoDup l → NoDup (map (annotation_path out) l).
Proof.
  intros Hl. apply (NoDup_fmap_2_strong (annotation_path out)); [|done].
  intros s1 s2 _ _ H. unfold annotation_path in H.
  apply os_path_join_inj in H; [|apply annotation_name_relative..].
  by apply annotation_name_inj.
Qed.

(** C3.  When [analyse_file] returns, the file loaded as a collection, and
    the files opened for writing are, series by series and in order, the
    paths [os.path.join(output_directory, "series_{:03d}_annotation.png")];
    each received the PNG of the annotation of its series and exists at the
    end; there are as many as series, and distinct series give distinct
    paths.  The number is printed with at least three digits, padded with
    zeros, and reads back as [s]. *)
Theorem analyse_file_one_png_per_series (fpath output_directory : string)
    (w : World) :
  let r := exec (analyse_file fpath output_directory) w in
  outcome r = Ok tt →
  ∃ mc, load fpath = Ok mc
    ∧ omap opened (calls r)
      = map (fun s => os_path_join output_directory
                        ("series_" +:+ format_03d s +:+ "_annotation.png"))
          (collection_series mc)
    ∧ omap written (calls r)
      = map (fun s => (annotation_path output_directory s,
                       lib_png (annotated (collection_image mc s))))
          (collection_series mc)
    ∧ length (omap opened (calls r)) = length (collection_series mc)
    ∧ (NoDup (collection_series mc) → NoDup (omap opened (calls r)))
    ∧ (∀ s, s ∈ collection_series mc →
         fs_isfile (fs (final r)) (annotation_path output_directory s) = true
         ∧ ∃ d, (d = output_directory ∨ d = output_directory +:+ "/")
                ∧ annotation_path output_directory s = d +:+ annotation_name s)
    ∧ (∀ s, parse_int (format_03d s) = Some s
            ∧ (0 ≤ s < 1000 → String.length (format_03d s) = 3%nat)).
Proof.
  cbv zeta. intros H.
  destruct (analyse_file_ok _ _ _ H) as (mc & Hload & _ & _ & Ho & Hw & Hf).
  exists mc. rewrite Ho, Hw. repeat split; try done.
  - by rewrite length_map.
  - apply annotation_path_NoDup.
  - by apply Hf.
  - apply os_path_join_relative, annotation_name_relative.
  - apply parse_int_format_03d.
  - apply format_03d_length.
Qed.

(** C2.  When [analyse_dataset] returns, the dataset was read and, item by
    item in the order of the identifiers: the item's file was loaded, the
    directory [os.path.join(output_dir, relpath)] was passed to
    [os.makedirs] and is a directory at the end, and the annotations of the
    item were written into it.  A relative ["relpath"] keeps the directory
    below the output directory. *)
Theorem analyse_dataset_every_item (dataset_dir output_dir : string)
    (w : World) :
  let r := exec (analyse_dataset dataset_dir output_dir) w in
  outcome r = Ok tt →
  ∃ ds, from_uri dataset_dir = Ok ds
    ∧ omap loaded (calls r)
      = map (item_content_abspath ds) (dataset_identifiers ds)
    ∧ omap made (calls r)
      = map (item_output_dir ds output_dir) (dataset_identifiers ds)
    ∧ omap opened (calls r)
      = concat (map (item_annotations ds output_dir) (dataset_identifiers ds))
    ∧ ∀ i, i ∈ dataset_identifiers ds →
        ∃ rel mc,
          item_properties ds i !! "relpath" = Some rel
          ∧ load (item_content_abspath ds i) = Ok mc
          ∧ item_output_dir ds output_dir i = os_path_join output_dir rel
          ∧ fs_isdir (fs (final r)) (os_path_join output_dir rel) = true
          ∧ item_annotations ds output_dir i
            = map (annotation_path (os_path_join output_dir rel))
                (collection_series mc)
          ∧ (startswith_sep rel = false →
             ∃ d, (d = output_dir ∨ d = output_dir +:+ "/")
                  ∧ os_path_join output_dir rel = d +:+ rel).
Proof.
  cbv zeta. intros H.
  destruct (analyse_dataset_ok _ _ _ H) as (ds & Hds & Hl & Hm & Ho & Hi).
  exists ds. repeat (split; [done|]). intros i Hin.
  destruct (Hi i Hin) as ([rel Hrel] & [mc Hmc] & Hdir).
  assert (item_output_dir ds output_dir i = os_path_join output_dir rel) as Hd.
  { unfold item_output_dir, relpath_of. by rewrite Hrel. }
  exists rel, mc. rewrite <- Hd. repeat (split; [done|]). split.
  - rewrite Hd. by apply item_annotations_ok.
  - rewrite Hd. apply os_path_join_relative.
Qed.

(** C4.  [safe_mkdir] ends as [os.makedirs] does, except that an [OSError]
    with errno [EEXIST] is dropped when the path is a directory: it returns
    exactly when the directory was made or such an error was dropped, and
    any other exception is the one [os.makedirs] raised.  In the whole
    script no other call has its exception inspected. *)
Theorem safe_mkdir_is_the_only_recovery (directory : string) (w : World) :
  let m := fs_makedirs (fs w) directory in
  let r := exec (safe_mkdir directory) w in
  fs (final r) = m.2
  ∧ (outcome r = Ok tt ↔
       m.1 = Ok tt
       ∨ (m.1 = Raise (OSError EEXIST) ∧ fs_isdir m.2 directory = true))
  ∧ (m.1 = Ok tt → fs_isdir m.2 directory = true)
  ∧ (∀ e, outcome r = Raise e → m.1 = Raise e)
  ∧ (∀ e, m.1 = Raise e →
       ¬ (e = OSError EEXIST ∧ fs_isdir m.2 directory = true) →
       outcome r = Raise e)
  ∧ (∀ file args, catches_only is_makedirs (script file args))
  ∧ (∀ fpath output_directory,
       catches_only nothing (analyse_file fpath output_directory)).
Proof.
  cbv zeta. rewrite exec_safe_mkdir. cbv zeta.
  pose proof script_catches_makedirs as Hs.
  pose proof analyse_file_catches_nothing as Ha.
  destruct (fs_makedirs (fs w) directory) as [[[]|e] f] eqn:Hm; cbn [fst snd].
  - split_and!; try done.
    + split; auto.
    + intros _. by apply fs_makedirs_ok_isdir in Hm.
  - assert (e = OSError EEXIST ∧ fs_isdir f directory = true
            ∨ ¬ (e = OSError EEXIST ∧ fs_isdir f directory = true)) as [[-> Hd]|Hn].
    { destruct (decide (e = OSError EEXIST)) as [->|]; [|right; by intros []].
      destruct (fs_isdir f directory); [by left|right; by intros []]. }
    + rewrite Hd. cbn [outcome final with_fs fs]. split_and!; try done.
      * split; auto.
      * intros e [= <-] Hn. by destruct Hn.
    + assert (match e with
              | OSError EEXIST =>
                  mkRun (if fs_isdir f directory then Ok ()
                         else Raise (OSError EEXIST))
                    (with_fs w f) [OsMakedirs directory; OsPathIsdir directory]
              | _ => mkRun (Raise e) (with_fs w f) [OsMakedirs directory]
              end
              = mkRun (Raise e) (with_fs w f)
                  (if decide (e = OSError EEXIST)
                   then [OsMakedirs directory; OsPathIsdir directory]
                   else [OsMakedirs directory])) as ->.
      { destruct e as [[]| | |]; try reflexivity.
        destruct (fs_isdir f directory); [|reflexivity]. by destruct Hn. }
      cbn [outcome final with_fs fs]. split_and!; try done.
      split; [done|]. intros [?|[[= ->] ?]]; [done|]. by destruct Hn.
Qed.

Lemma split_sep_nonempty s : split_sep s ≠ [].
Proof.
  destruct s as [|c s]; simpl; [done|].
  case_bool_decide; [done|]. by destruct (split_sep s).
Qed.

Lemma split_sep_app a b :
  split_sep (a +:+ String sep b) = split_sep a ++ split_sep b.
Proof.
  induction a as [|c a IH].
  - reflexivity.
  - change (String c a +:+ String sep b) with (String c (a +:+ String sep b)).
    simpl. rewrite IH. case_bool_decide; [done|].
    pose proof (split_sep_nonempty a).
    by destruct (split_sep a).
Qed.

Lemma components_app a b :
  components (a +:+ String sep b) = components a ++ components b.
Proof. unfold components. by rewrite split_sep_app, filter_app. Qed.

Lemma endswith_sep_inv a : endswith_sep a = true → ∃ a0, a = a0 +:+ "/".
Proof.
  induction a as [|c a IH]; [done|]. simpl.
  destruct a as [|c' a'].
  - rewrite bool_decide_eq_true. intros ->. by exists "".
  - intros H. destruct (IH H) as [a0 Ha0]. exists (String c a0).
    by rewrite Ha0.
Qed.

Lemma string_app_nil_r (s : string) : s +:+ "" = s.
Proof.
  induction s as [|c s IH]; [done|].
  change (String c (s +:+ "") = String c s). by rewrite IH.
Qed.

Lemma components_join a b :
  startswith_sep b = false →
  components (os_path_join a b) = components a ++ components b.
Proof.
  intros Hb. unfold os_path_join. rewrite Hb.
  case_bool_decide as Ha; simpl.
  - by subst a.
  - destruct (endswith_sep a) eqn:He.
    + destruct (endswith_sep_inv _ He) as [a0 ->].
      rewrite <- string_app_assoc.
      change ("/" +:+ b) with (String sep b).
      rewrite components_app.
      change (a0 +:+ "/") with (a0 +:+ String sep "").
      by rewrite components_app, <- app_assoc.
    + change (a +:+ "/" +:+ b) with (a +:+ String sep b).
      apply components_app.
Qed.

Lemma startswith_sep_app a b : a ≠ "" → startswith_sep (a +:+ b) = startswith_sep a.
Proof. by destruct a. Qed.

Lemma path_key_join a b k :
  path_key a = Some k → startswith_sep b = false →
  path_key (os_path_join a b) = Some (k.1, k.2 ++ components b).
Proof.
  unfold path_key. case_bool_decide as Ha; [done|]. intros [= <-] Hb.
  rewrite components_join by done. simpl.
  assert (os_path_join a b ≠ "" ∧ startswith_sep (os_path_join a b) = startswith_sep a)
    as [Hne ->].
  { unfold os_path_join. rewrite Hb.
    destruct (bool_decide (a = "") || endswith_sep a);
      (split; [by destruct a|by apply startswith_sep_app]). }
  by rewrite bool_decide_eq_false_2.
Qed.

Lemma parent_snoc a cs c : parent (a, cs ++ [c]) = (a, cs).
Proof. unfold parent. simpl. by rewrite removelast_last. Qed.

Lemma fs_isdir_dirs f f' p : dirs f = dirs f' → fs_isdir f p = fs_isdir f' p.
Proof.
  intros H. unfold fs_isdir, isdir_key. destruct (path_key p); [|done].
  by rewrite H.
Qed.

Lemma fs_append_dirs f p data : dirs (fs_append f p data).2 = dirs f.
Proof.
  unfold fs_append. destruct (path_key p) as [k|]; [|done].
  by destruct (open_error f k).
Qed.

Lemma fs_write_dirs f p data : dirs (fs_write f p data).2 = dirs f.
Proof.
  unfold fs_write. destruct (path_key p) as [k|]; [|done].
  by destruct (open_error f k).
Qed.

Lemma emit_info_dirs w msg : dirs (fs (emit_info w msg).2) = dirs (fs w).
Proof.
  unfold emit_info. simpl. destruct (_ <=? _); [|done].
  destruct (default StreamHandler (root_handler w)); [|done].
  apply fs_append_dirs.
Qed.

Lemma emit_info_ok w msg : (emit_info w msg).1 = Ok tt.
Proof. reflexivity. Qed.

(** What a successful [mkdir_if_missing] leaves. *)
Lemma mkdir_if_missing_ok w d :
  (mkdir_if_missing w d).1 = Ok tt →
  ∃ k, path_key d = Some k
    ∧ isdir_key (fs (mkdir_if_missing w d).2) k = true
    ∧ (dirs (fs (mkdir_if_missing w d).2) = dirs (fs w)
       ∨ dirs (fs (mkdir_if_missing w d).2) = {[k]} ∪ dirs (fs w))
    ∧ files (fs (mkdir_if_missing w d).2) = files (fs w)
    ∧ root_handler (mkdir_if_missing w d).2 = root_handler w
    ∧ AutoWrite_on (mkdir_if_missing w d).2 = AutoWrite_on w.
Proof.
  unfold mkdir_if_missing, fs_isdir, fs_mkdir.
  destruct (path_key d) as [k|]; [|done]. intros H. exists k. split; [done|].
  destruct (isdir_key (fs w) k) eqn:Hk; [by auto 10|].
  simpl in H |- *. destruct (mkdir_key (fs w) k) as [[[]|e] f] eqn:Hm; [|done].
  pose proof (mkdir_key_ok_isdir _ _ _ Hm). apply mkdir_key_ok in Hm as ->.
  simpl. auto 10.
Qed.




Lemma isdir_key_dirs f f' k : dirs f = dirs f' → isdir_key f k = isdir_key f' k.
Proof. intros H. unfold isdir_key. by rewrite H. Qed.

Lemma isfile_key_false f k : isfile_key f k = false ↔ k ∉ dom (files f).
Proof.
  unfold isfile_key. by rewrite bool_decide_eq_false, elem_of_dom.
Qed.

Lemma mkdir_key_wf f k : wf_fs f → wf_fs (mkdir_key f k).2.
Proof.
  intros [Hd Hf]. unfold mkdir_key, parent_error.
  destruct (isdir_key f (parent k)) eqn:Hp; [|by destruct (isfile_key f (parent k))].
  destruct (exists_key f k) eqn:Hk; [done|]. simpl.
  apply orb_false_iff in Hk as [Hkd Hkf]. apply isfile_key_false in Hkf.
  set (f' := mkFS ({[k]} ∪ dirs f) (files f)).
  assert (fs_grows f f') as Hg.
  { split; simpl; [|done]. apply union_subseteq_r. }
  split.
  - intros k' [->%elem_of_singleton|Hk']%elem_of_union.
    + by apply (isdir_key_grows f).
    + apply (isdir_key_grows f); auto.
  - simpl. intros k' Hk'. destruct (Hf k' Hk') as [H1 H2]. split.
    + by apply (isdir_key_grows f).
    + unfold isdir_key in *. simpl. apply orb_false_iff in H2 as [-> H2]. simpl.
      apply bool_decide_eq_false in H2. apply bool_decide_eq_false.
      rewrite elem_of_union, elem_of_singleton. intros [->|?]; done.
Qed.

Lemma open_error_None f k :
  open_error f k = None → isdir_key f k = false ∧ isdir_key f (parent k) = true.
Proof.
  unfold open_error, parent_error. destruct (isdir_key f k); [done|].
  destruct (isdir_key f (parent k)); [done|]. by destruct (isfile_key f (parent k)).
Qed.

Lemma insert_file_wf f k data :
  wf_fs f → open_error f k = None → wf_fs (mkFS (dirs f) (<[k:=data]> (files f))).
Proof.
  intros [Hd Hf] [Hk Hp]%open_error_None. split; simpl.
  - intros k' Hk'. rewrite <- (Hd k' Hk'). by apply isdir_key_dirs.
  - intros k' Hk'. rewrite dom_insert_L in Hk'.
    rewrite !(isdir_key_dirs _ f) by done.
    apply elem_of_union in Hk' as [->%elem_of_singleton|Hk']; [done|]. by apply Hf.
Qed.

Lemma fs_write_wf f p data : wf_fs f → wf_fs (fs_write f p data).2.
Proof.
  intros Hwf. unfold fs_write. destruct (path_key p) as [k|]; [|done].
  destruct (open_error f k) eqn:Ho; [done|]. by apply insert_file_wf.
Qed.

Lemma fs_append_wf f p data : wf_fs f → wf_fs (fs_append f p data).2.
Proof.
  intros Hwf. unfold fs_append. destruct (path_key p) as [k|]; [|done].
  destruct (open_error f k) eqn:Ho; [done|]. by apply insert_file_wf.
Qed.

Lemma fs_mkdir_wf f p : wf_fs f → wf_fs (fs_mkdir f p).2.
Proof.
  intros Hwf. unfold fs_mkdir. destruct (path_key p); [|done]. by apply mkdir_key_wf.
Qed.

Lemma makedirs_from_unfold f a pre c c' rest :
  makedirs_from f a pre (c :: c' :: rest)
  = if exists_key f (a, pre ++ [c])
    then makedirs_from f a (pre ++ [c]) (c' :: rest)
    else match mkdir_key f (a, pre ++ [c]) with
         | (Ok _, f1) => makedirs_from f1 a (pre ++ [c]) (c' :: rest)
         | (Raise e, f1) => (Raise e, f1)
         end.
Proof. reflexivity. Qed.

Lemma makedirs_from_wf rest : ∀ f a pre, wf_fs f → wf_fs (makedirs_from f a pre rest).2.
Proof.
  induction rest as [|c rest IH]; intros f a pre Hwf.
  - by apply mkdir_key_wf.
  - destruct rest as [|c' rest]; [by apply mkdir_key_wf|].
    rewrite makedirs_from_unfold.
    destruct (exists_key f (a, pre ++ [c])); [by apply IH|].
    pose proof (mkdir_key_wf f (a, pre ++ [c]) Hwf) as Hm.
    destruct (mkdir_key f (a, pre ++ [c])) as [[[]|e] f1]; [by apply IH|done].
Qed.

Lemma fs_makedirs_wf f p : wf_fs f → wf_fs (fs_makedirs f p).2.
Proof.
  intros Hwf. unfold fs_makedirs. destruct (path_key p); [|done].
  by apply makedirs_from_wf.
Qed.

Lemma handle_wf ev w : wf_fs (fs w) → wf_fs (fs (handle ev w).2).
Proof.
  intros Hwf. destruct ev; simpl; try done.
  - by apply fs_mkdir_wf.
  - by apply fs_makedirs_wf.
  - by apply fs_write_wf.
  - by apply fs_append_wf.
  - unfold logging_basicConfig. destruct (root_handler w); [done|].
    pose proof (fs_append_wf (fs w) filename "" Hwf) as H.
    by destruct (fs_append (fs w) filename "") as [[[]|e] f].
  - unfold emit_info. simpl. destruct (_ <=? _); [|done].
    destruct (default StreamHandler (root_handler w)); [|done].
    by apply fs_append_wf.
  - unfold autowrite_save. destruct (AutoWrite_on w); [|done]. by apply fs_write_wf.
  - unfold filebackend_init, mkdir_if_missing.
    destruct (fs_isdir (fs w) directory); [done|]. by apply fs_mkdir_wf.
Qed.

Lemma only_intermediates_exists f0 f1 k :
  only_intermediates f0 f1 → exists_key f0 k = true → exists_key f1 k = true.
Proof.
  intros (Hd & Hf & _). unfold exists_key. rewrite !orb_true_iff.
  rewrite !(isdir_key_dirs f0 f1) by done. rewrite !isfile_key_dom.
  intros [?|?]; [by left|right; by apply Hf].
Qed.

Lemma parent_error_None f k : parent_error f k = None ↔ isdir_key f (parent k) = true.
Proof.
  unfold parent_error. destruct (isdir_key f (parent k)); [done|].
  by destruct (isfile_key f (parent k)).
Qed.

Lemma parent_error_not_eexist f k : parent_error f k ≠ Some EEXIST.
Proof.
  unfold parent_error. destruct (isdir_key f (parent k)); [done|].
  by destruct (isfile_key f (parent k)).
Qed.

Lemma mkdir_key_raises f k e f' :
  mkdir_key f k = (Raise e, f') → f' = f ∧ ∃ en, e = OSError en.
Proof.
  unfold mkdir_key. destruct (parent_error f k); [intros [= <- <-]; eauto|].
  destruct (exists_key f k); [intros [= <- <-]; eauto|done].
Qed.

Lemma mkdir_key_sim f0 f1 k :
  wf_fs f1 → only_intermediates f0 f1 →
  (mkdir_key f1 k).1 = Ok tt →
  (mkdir_key f0 k).1 = Ok tt
  ∧ only_intermediates (mkdir_key f0 k).2 (mkdir_key f1 k).2.
Proof.
  intros Hwf Hoi. pose proof Hoi as (Hd & Hf & Hx). unfold mkdir_key.
  destruct (parent_error f1 k) eqn:Hp1; [done|].
  apply parent_error_None in Hp1.
  rewrite <- (isdir_key_dirs f0 f1) in Hp1 by done.
  apply parent_error_None in Hp1. rewrite Hp1.
  destruct (exists_key f1 k) eqn:Hk1; [done|].
  destruct (exists_key f0 k) eqn:Hk0.
  { apply (only_intermediates_exists _ _ _ Hoi) in Hk0. congruence. }
  intros _. split; [done|]. simpl. split; [by rewrite Hd|]. done.
Qed.







Lemma fs_isdir_sim f0 f1 p :
  only_intermediates f0 f1 → fs_isdir f0 p = fs_isdir f1 p.
Proof. intros (Hd & _). by apply fs_isdir_dirs. Qed.

Lemma wf_below_file f a pre c :
  wf_fs f → isfile_key f (a, pre) = true →
  exists_key f (a, pre ++ [c]) = false
  ∧ mkdir_key f (a, pre ++ [c]) = (Raise (OSError ENOTDIR), f).
Proof.
  intros [Hd Hf] Hfile. pose proof Hfile as Hfile'.
  apply isfile_key_dom in Hfile. destruct (Hf _ Hfile) as [_ Hnd].
  assert (exists_key f (a, pre ++ [c]) = false) as Hne.
  { unfold exists_key. apply orb_false_iff. split.
    - unfold isdir_key. apply orb_false_iff. split.
      + unfold is_root. simpl. apply bool_decide_eq_false. by destruct pre.
      + apply bool_decide_eq_false. intros Hin. apply Hd in Hin.
        rewrite parent_snoc in Hin. congruence.
    - apply isfile_key_false. intros Hin. apply Hf in Hin as [Hin _].
      rewrite parent_snoc in Hin. congruence. }
  split; [done|]. unfold mkdir_key, parent_error. rewrite parent_snoc, Hnd.
  by rewrite Hfile'.
Qed.

Lemma makedirs_from_below_file rest : ∀ f a pre,
  wf_fs f → isfile_key f (a, pre) = true → rest ≠ [] →
  makedirs_from f a pre rest = (Raise (OSError ENOTDIR), f).
Proof.
  destruct rest as [|c [|c' rest]]; intros f a pre Hwf Hfile Hne; [done| |].
  - simpl. by apply wf_below_file.
  - rewrite makedirs_from_unfold.
    destruct (wf_below_file f a pre c Hwf Hfile) as [-> ->]. done.
Qed.

Lemma mkdir_key_agree f0 f1 k :
  wf_fs f1 → only_intermediates f0 f1 →
  makedirs_agree f0 f1 k (mkdir_key f0 k) (mkdir_key f1 k).
Proof.
  intros Hwf Hoi. unfold makedirs_agree.
  destruct (mkdir_key f1 k) as [[[]|e] f1'] eqn:H1; simpl.
  - destruct (mkdir_key_sim f0 f1 k Hwf Hoi) as [H0 Hr]; [by rewrite H1|].
    by rewrite H1 in Hr.
  - destruct (mkdir_key_raises _ _ _ _ H1) as [-> [en ->]].
    destruct en; eauto.
    (* EEXIST: the directory holding [k] is there and [k] exists *)
    unfold mkdir_key in H1 |- *. pose proof Hoi as (Hd & Hf & _).
    destruct (parent_error f1 k) eqn:Hp1.
    { injection H1 as ->. by apply parent_error_not_eexist in Hp1. }
    apply parent_error_None in Hp1.
    rewrite <- (isdir_key_dirs f0 f1) in Hp1 by done.
    apply parent_error_None in Hp1. rewrite Hp1.
    destruct (isdir_key f1 k) eqn:Hk; [|by right]. left.
    assert (exists_key f0 k = true) as ->; [|done].
    unfold exists_key. by rewrite (isdir_key_dirs f0 f1), Hk.
Qed.

Lemma makedirs_from_sim rest : ∀ f0 f1 a pre,
  wf_fs f1 → only_intermediates f0 f1 →
  makedirs_agree f0 f1 (a, pre ++ rest)
    (makedirs_from f0 a pre rest) (makedirs_from f1 a pre rest).
Proof.
  induction rest as [|c rest IH]; intros f0 f1 a pre Hwf Hoi.
  - simpl. rewrite app_nil_r. by apply mkdir_key_agree.
  - destruct rest as [|c' rest]; [by apply mkdir_key_agree|].
    rewrite !makedirs_from_unfold.
    replace (pre ++ c :: c' :: rest) with ((pre ++ [c]) ++ c' :: rest)
      by by rewrite <- app_assoc.
    destruct (exists_key f1 (a, pre ++ [c])) eqn:Hk1.
    + destruct (exists_key f0 (a, pre ++ [c])) eqn:Hk0; [by apply IH|].
      (* in [f1] the prefix is an intermediate file *)
      assert (isfile_key f1 (a, pre ++ [c]) = true) as Hfile.
      { unfold exists_key in *. apply orb_false_iff in Hk0 as [Hk0 _].
        destruct Hoi as (Hd & _). rewrite (isdir_key_dirs f0 f1) in Hk0 by done.
        by rewrite Hk0 in Hk1. }
      rewrite (makedirs_from_below_file _ f1) by done.
      unfold makedirs_agree. simpl. eauto.
    + destruct (exists_key f0 (a, pre ++ [c])) eqn:Hk0.
      { apply (only_intermediates_exists _ _ _ Hoi) in Hk0. congruence. }
      destruct (mkdir_key f1 (a, pre ++ [c])) as [[[]|e] f1'] eqn:H1.
      * destruct (mkdir_key_sim f0 f1 (a, pre ++ [c]) Hwf Hoi) as [H0 Hr];
          [by rewrite H1|]. rewrite H1 in Hr. simpl in Hr.
        pose proof (mkdir_key_wf f1 (a, pre ++ [c]) Hwf) as Hwf'.
        rewrite H1 in Hwf'. simpl in Hwf'.
        destruct (mkdir_key f0 (a, pre ++ [c])) as [[[]|e] f0']; [|done].
        by apply IH.
      * destruct (mkdir_key_raises _ _ _ _ H1) as [-> [en ->]].
        unfold makedirs_agree. simpl.
        unfold mkdir_key in H1. rewrite Hk1 in H1.
        destruct (parent_error f1 (a, pre ++ [c])) eqn:Hp1; [|done].
        injection H1 as ->. destruct en; eauto.
        by apply parent_error_not_eexist in Hp1.
Qed.

Lemma related_with_fs w0 w1 f0 f1 :
  related w0 w1 → wf_fs f1 → only_intermediates f0 f1 →
  related (with_fs w0 f0) (with_fs w1 f1).
Proof. intros (? & ? & ? & ? & ? & ?) ? ?. unfold related. simpl. auto 10. Qed.







Lemma fs_append_raises f p data e :
  (fs_append f p data).1 = Raise e → ∃ en, e = OSError en.
Proof.
  unfold fs_append. destruct (path_key p) as [k|]; [|intros [= <-]; eauto].
  destruct (open_error f k); [intros [= <-]; eauto|done].
Qed.









Lemma sim_safe_mkdir d : sim (safe_mkdir d).
Proof.
  intros w0 w1 Hrel. pose proof Hrel as (Hwf & Hoi & _).
  rewrite !exec_safe_mkdir. cbv zeta.
  pose proof (fs_makedirs_wf (fs w1) d Hwf) as Hwf'.
  assert (∃ k, makedirs_agree (fs w0) (fs w1) k
                 (fs_makedirs (fs w0) d) (fs_makedirs (fs w1) d)
               ∧ ∀ f, fs_isdir f d = isdir_key f k ∨ path_key d = None)
    as (k & Hag & Hkd).
  { unfold fs_makedirs, fs_isdir. destruct (path_key d) as [[a cs]|].
    - exists (a, cs). split; [|by left]. by apply (makedirs_from_sim cs _ _ a []).
    - exists (false, []). split; [|by right]. unfold makedirs_agree. simpl. eauto. }
  unfold makedirs_agree in Hag.
  destruct (fs_makedirs (fs w1) d) as [[[]|e] f1] eqn:H1; simpl in *.
  - destruct Hag as [-> Hoi']. intros _. split; [done|]. by apply related_with_fs.
  - destruct e as [[]| | |]; simpl; try done; try (by destruct Hag).
    destruct (fs_isdir f1 d) eqn:Hd1; [|done]. intros _.
    destruct Hag as [[-> Hoi']|Hnd].
    + rewrite (fs_isdir_sim _ _ d Hoi'), Hd1. split; [done|]. by apply related_with_fs.
    + destruct (Hkd f1) as [Hk|Hk]; [congruence|].
      unfold fs_isdir in Hd1. by rewrite Hk in Hd1.
Qed.

Lemma events_satisfy_bind {A B} P (p : Prog A) (f : A → Prog B) :
  events_satisfy P p → (∀ a, events_satisfy P (f a)) →
  events_satisfy P (bind p f).
Proof.
  intros Hp Hf. induction p as [a|e|ev k IH]; simpl; [apply Hf|done|].
  destruct Hp as [Hev Hk]. split; [done|]. intros r. apply IH, Hk.
Qed.

Lemma events_satisfy_call (P : Event → Prop) ev : P ev → events_satisfy P (call ev).
Proof. intros H. split; [done|]. by intros []. Qed.

Lemma events_satisfy_for_each {X} P (xs : list X) body :
  (∀ x, events_satisfy P (body x)) → events_satisfy P (for_each xs body).
Proof.
  intros Hb. induction xs as [|x xs IH]; simpl; [done|].
  apply events_satisfy_bind; [apply Hb|done].
Qed.

Lemma events_satisfy_for_update {X S} P (xs : list X) body :
  (∀ s x, events_satisfy P (body s x)) →
  ∀ s : S, events_satisfy P (for_update xs s body).
Proof.
  intros Hb. induction xs as [|x xs IH]; intros s; simpl; [done|].
  apply events_satisfy_bind; [apply Hb|]. intros s'. apply IH.
Qed.

Lemma events_satisfy_try {A} P (p : Prog A) h :
  events_satisfy P p → (∀ e, events_satisfy P (h e)) →
  events_satisfy P (try_except p h).
Proof.
  intros Hp Hh. induction p as [a|e|ev k IH]; simpl; [done|apply Hh|].
  destruct Hp as [Hev Hk]. split; [done|]. intros r. apply IH, Hk.
Qed.

Create HintDb quiet.



Lemma events_satisfy_calls {A} P (p : Prog A) :
  events_satisfy P p → ∀ w, Forall P (calls (exec p w)).
Proof.
  induction p as [a|e|ev k IH]; intros Hp w; simpl; [constructor..|].
  destruct Hp as [Hev Hk]. constructor; [done|]. apply IH, Hk.
Qed.


Lemma backend_dir_key : path_key (os_path_join "output" ".backend") = Some backend_key.
Proof. vm_compute. reflexivity. Qed.


Lemma saves_app l1 l2 : saves (l1 ++ l2) = saves l1 + saves l2.
Proof. unfold saves. rewrite filter_app, length_app. lia. Qed.

Lemma saves_singleton ev : saves [ev] = if is_save ev then 1 else 0.
Proof.
  unfold saves. rewrite filter_cons, filter_nil.
  destruct (decide (is_save ev = true)) as [->|H]; [done|].
  by destruct (is_save ev).
Qed.

Lemma saves_cons ev l : saves (ev :: l) = (if is_save ev then 1 else 0) + saves l.
Proof. by rewrite <- saves_singleton, <- saves_app. Qed.

Lemma frame_refl w : frame w w [].
Proof. unfold frame, saves. simpl. destruct (AutoWrite_on w); split_and!; auto; lia. Qed.

Lemma frame_trans w1 w2 w3 l1 l2 :
  frame w1 w2 l1 → frame w2 w3 l2 → frame w1 w3 (l1 ++ l2).
Proof.
  intros (Ha1 & Hc1 & Hl1) (Ha2 & Hc2 & Hl2). unfold frame.
  rewrite Ha2, Ha1, Hc2, Hc1, Ha1, saves_app. split_and!; [done| |].
  - destruct (AutoWrite_on w1); lia.
  - intros H. destruct (Hl1 H) as [H2 <-]. by apply Hl2.
Qed.

Lemma handle_frame ev w : keeps_autowrite ev → frame w (handle ev w).2 [ev].
Proof.
  intros Hk. unfold frame. rewrite saves_singleton.
  destruct ev; try done; unfold handle; simpl;
    try (destruct (AutoWrite_on w); split_and!; auto; lia).
  - unfold autowrite_save. destruct (AutoWrite_on w) eqn:Hon; simpl;
      rewrite ?Hon; split_and!; auto; lia.
  - unfold filebackend_init, mkdir_if_missing.
    destruct (fs_isdir (fs w) directory); simpl;
      destruct (AutoWrite_on w); split_and!; auto; lia.
Qed.

Lemma exec_frame {A} (p : Prog A) : ∀ w,
  events_satisfy keeps_autowrite p →
  frame w (final (exec p w)) (calls (exec p w)).
Proof.
  induction p as [a|e|ev k IH]; intros w Hp; simpl; [apply frame_refl..|].
  destruct Hp as [Hev Hk].
  apply (frame_trans w (handle ev w).2 _ [ev]); [by apply handle_frame|].
  apply IH, Hk.
Qed.

Create HintDb sim.


#[local] Hint Resolve sim_safe_mkdir : sim.


Lemma then_run_ext {A B} (r : Run A) (f g : A → World → Run B) :
  (∀ a w, f a w = g a w) → then_run r f = then_run r g.
Proof. intros H. unfold then_run. destruct (outcome r); [|done]. by rewrite H. Qed.

Lemma exec_bind_ext {A B} (p : Prog A) (f g : A → Prog B) w :
  (∀ a w', exec (f a) w' = exec (g a) w') →
  exec (bind p f) w = exec (bind p g) w.
Proof. intros H. rewrite !exec_bind. by apply then_run_ext. Qed.

Lemma exec_bind_assoc {A B C} (p : Prog A) (f : A → Prog B) (g : B → Prog C) :
  ∀ w, exec (bind (bind p f) g) w = exec (bind p (fun a => bind (f a) g)) w.
Proof.
  induction p as [a|e|ev k IH]; intros w; simpl; [done..|]. by rewrite IH.
Qed.

Lemma exec_main_split file args w :
  exec (main file args) w
  = exec (bind (main_setup args) (fun _ => main_tail file args)) w.
Proof.
  unfold main, main_setup. symmetry.
  rewrite exec_bind_assoc. apply exec_bind_ext. intros isdir w1.
  rewrite exec_bind_assoc. apply exec_bind_ext. intros [] w2.
  rewrite exec_bind_assoc. apply exec_bind_ext. intros [] w3.
  rewrite exec_bind_assoc. apply exec_bind_ext. intros [] w4.
  reflexivity.
Qed.



Lemma logging_basicConfig_raises w p l e :
  (logging_basicConfig w p l).1 = Raise e → ∃ en, e = OSError en.
Proof.
  unfold logging_basicConfig. destruct (root_handler w); [done|].
  destruct (fs_append (fs w) p "") as [[[]|e'] f] eqn:H; [done|]. simpl.
  intros [= <-]. apply (fs_append_raises (fs w) p ""). by rewrite H.
Qed.


Lemma exec_script file args w :
  exec (script file args) w
  = after (AutoNameSetPrefixFormat "{:03d}_")
      (then_run
         (exec (main_setup args) (handle (AutoNameSetPrefixFormat "{:03d}_") w).2)
         (fun _ => exec (main_tail file args))).
Proof.
  unfold script, module_level. cbn. by rewrite exec_main_split, exec_bind.
Qed.


(** ** Further properties of the script

    What the functions do at the edges: on a second call, on paths that
    are taken, and on what a run leaves in the file system and in the
    log. *)

Ltac event_step :=
  first
    [ match goal with
      | |- events_satisfy ?P (call ?ev) =>
          first [ exact (events_satisfy_call P ev I)
                | exact (events_satisfy_call P ev eq_refl) ]
      end
    | apply events_satisfy_bind; [|intros ?]
    | apply events_satisfy_for_each; intros ?
    | apply events_satisfy_for_update; intros ? ?
    | apply events_satisfy_try; [|intros ?]
    | exact I
    | match goal with
      | |- events_satisfy _ (if ?b then _ else _) => destruct b
      | |- events_satisfy _ (match ?x with _ => _ end) => destruct x
      | |- events_satisfy _ (Vis _ _) =>
          split; [first [exact I | reflexivity]|intros ?]
      end ].

Ltac each_event :=
  unfold os_path_isdir, os_mkdir, os_makedirs, logging_info;
  repeat event_step.

Ltac unfold_script :=
  unfold script, module_level, main, analyse_dataset, analyse_item,
    item_output_path, safe_mkdir, getitem,
    analyse_file, analyse_series, get_microscopy_collection,
    analyse_image, smooth_gaussian, threshold_abs, erode_binary,
    remove_small_objects, dilate_binary, connected_components, transformation,
    outline_component.

Lemma with_fs_same w : with_fs w (fs w) = w.
Proof. by destruct w. Qed.

Lemma exec_preserves {A} (P : Event → Prop) (I : World → Prop) (p : Prog A) :
  (∀ ev w, P ev → I w → I (handle ev w).2) →
  events_satisfy P p → ∀ w, I w → I (final (exec p w)).
Proof.
  intros Hh. induction p as [a|e|ev k IH]; intros Hp w Hw; simpl; [done..|].
  destruct Hp as [Hev Hk]. apply IH; [apply Hk|]. by apply Hh.
Qed.

(** *** [get_microscopy_collection] *)

Lemma get_microscopy_collection_ok_dirs input_file w mc :
  outcome (exec (get_microscopy_collection input_file) w) = Ok mc →
  fs_isdir (fs (final (exec (get_microscopy_collection input_file) w))) "output"
  = true
  ∧ fs_isdir (fs (final (exec (get_microscopy_collection input_file) w)))
      "output/.backend" = true.
Proof.
  unfold get_microscopy_collection, os_path_isdir, os_mkdir. cbn.
  change (os_path_join "output" ".backend") with "output/.backend".
  assert (∀ w0, fs_isdir (fs w0) "output" = true →
    ∀ w1, filebackend_init w0 "output/.backend" = (Ok tt, w1) →
      fs_isdir (fs w1) "output" = true ∧ fs_isdir (fs w1) "output/.backend" = true)
    as Hinit.
  { intros w0 Hout w1 Hw1. split.
    - eapply fs_isdir_grows; [|exact Hout].
      pose proof (handle_grows (FileBackendInit "output/.backend") w0) as Hg.
      simpl in Hg. by rewrite Hw1 in Hg.
    - unfold filebackend_init in Hw1.
      assert ((mkdir_if_missing w0 "output/.backend").1 = Ok tt) as Hok
        by by rewrite Hw1.
      destruct (mkdir_if_missing_ok _ _ Hok) as (k & Hk & Hd & _).
      rewrite Hw1 in Hd. unfold fs_isdir. by rewrite Hk. }
  destruct (fs_isdir (fs w) "output") eqn:Hout; cbn.
  - destruct (filebackend_init w _) as [[[]|e] w1] eqn:Hw1; cbn; [|done].
    destruct (load input_file); cbn; [|done]. intros _. by apply (Hinit w).
  - destruct (fs_mkdir (fs w) "output") as [[[]|e] f1] eqn:Hf1; cbn; [|done].
    destruct (filebackend_init _ _) as [[[]|e] w1] eqn:Hw1; cbn; [|done].
    destruct (load input_file); cbn; [|done]. intros _.
    apply (Hinit (with_fs w f1)); [|done].
    unfold fs_mkdir in Hf1. unfold fs_isdir.
    destruct (path_key "output") as [k|]; [|done].
    by apply mkdir_key_ok_isdir in Hf1.
Qed.

(** X1.  When ["output"] and ["output/.backend"] are directories,
    [get_microscopy_collection] asks for no directory to be made: it
    checks ["output"], sets up the backend, and gives what the data
    manager loads, and these are all its calls.  That is the case after
    any call that returned, so a second call for the same file makes
    these three calls again and no [os.mkdir]. *)
Theorem get_microscopy_collection_cache_in_place (input_file : string)
    (w : World) :
  let r := exec (get_microscopy_collection input_file) w in
  let again := exec (get_microscopy_collection input_file) (final r) in
  (fs_isdir (fs w) "output" = true →
   fs_isdir (fs w) "output/.backend" = true →
   outcome r = load input_file
   ∧ calls r = [ OsPathIsdir "output"; FileBackendInit "output/.backend";
                 DataManagerLoad "output/.backend" input_file ])
  ∧ (∀ mc, outcome r = Ok mc →
       calls again = [ OsPathIsdir "output"; FileBackendInit "output/.backend";
                       DataManagerLoad "output/.backend" input_file ]).
Proof.
  cbv zeta.
  assert (∀ w', fs_isdir (fs w') "output" = true →
    fs_isdir (fs w') "output/.backend" = true →
    outcome (exec (get_microscopy_collection input_file) w') = load input_file
    ∧ calls (exec (get_microscopy_collection input_file) w')
      = [ OsPathIsdir "output"; FileBackendInit "output/.backend";
          DataManagerLoad "output/.backend" input_file ]) as Hplace.
  { intros w' Ho Hb. unfold get_microscopy_collection, os_path_isdir, os_mkdir. cbn.
    rewrite Ho. cbn. unfold filebackend_init, mkdir_if_missing.
    change (os_path_join "output" ".backend") with "output/.backend".
    rewrite Hb. cbn. by destruct (load input_file). }
  split; [apply Hplace|].
  intros mc Hok.
  destruct (get_microscopy_collection_ok_dirs _ _ _ Hok) as [Ho Hb].
  by destruct (Hplace _ Ho Hb) as [_ ->].
Qed.

(** X2.  When ["output"] is there but is not a directory,
    [get_microscopy_collection] ends in the [OSError] (EEXIST) of
    [os.mkdir], which nothing catches: nothing is loaded and the world is
    left as it is. *)
Theorem get_microscopy_collection_output_is_file (input_file : string)
    (w : World) :
  fs_isdir (fs w) "output" = false →
  fs_isfile (fs w) "output" = true →
  exec (get_microscopy_collection input_file) w
  = mkRun (Raise (OSError EEXIST)) w [OsPathIsdir "output"; OsMkdir "output"].
Proof.
  intros Hd Hf. unfold get_microscopy_collection, os_path_isdir, os_mkdir. cbn.
  rewrite Hd. cbn.
  assert (fs_mkdir (fs w) "output" = (Raise (OSError EEXIST), fs w)) as ->.
  { unfold fs_mkdir, fs_isfile in *.
    destruct (path_key "output") as [k|] eqn:Hk; [|done].
    assert (k = (false, ["output"])) as -> by (vm_compute in Hk; congruence).
    unfold mkdir_key, parent_error, exists_key. simpl. by rewrite Hf, orb_true_r. }
  cbn. by rewrite with_fs_same.
Qed.

(** *** [safe_mkdir] and [item_output_path] *)

Lemma exists_key_grows f f' k :
  fs_grows f f' → exists_key f k = true → exists_key f' k = true.
Proof.
  intros Hg. unfold exists_key. rewrite !orb_true_iff. intros [H|H].
  - left. by eapply isdir_key_grows.
  - right. by eapply isfile_key_grows.
Qed.

Lemma mkdir_key_eexist f k f' :
  mkdir_key f k = (Raise (OSError EEXIST), f') →
  f' = f ∧ isdir_key f (parent k) = true ∧ exists_key f k = true.
Proof.
  unfold mkdir_key. destruct (parent_error f k) as [e|] eqn:He.
  - intros [= -> <-]. by apply parent_error_not_eexist in He.
  - apply parent_error_None in He.
    destruct (exists_key f k); intros [= <-]; done.
Qed.

Lemma mkdir_key_present f k :
  isdir_key f (parent k) = true → exists_key f k = true →
  mkdir_key f k = (Raise (OSError EEXIST), f).
Proof.
  intros Hp He. unfold mkdir_key.
  apply parent_error_None in Hp. by rewrite Hp, He.
Qed.

Lemma mkdir_key_ok_parent f k f' :
  mkdir_key f k = (Ok tt, f') → isdir_key f (parent k) = true.
Proof.
  unfold mkdir_key. destruct (parent_error f k) as [e|] eqn:He; [done|].
  intros _. by apply parent_error_None.
Qed.

(** Once [os.makedirs] has made a directory, or has found it in place, it
    finds it in place from then on and changes nothing. *)
Lemma makedirs_from_again rest : ∀ f a pre,
  let m := makedirs_from f a pre rest in
  (m.1 = Ok tt ∨ m.1 = Raise (OSError EEXIST)) →
  isdir_key m.2 (a, pre ++ rest) = true →
  makedirs_from m.2 a pre rest = (Raise (OSError EEXIST), m.2).
Proof.
  assert (∀ f k, let m := mkdir_key f k in
            (m.1 = Ok tt ∨ m.1 = Raise (OSError EEXIST)) →
            isdir_key m.2 k = true →
            mkdir_key m.2 k = (Raise (OSError EEXIST), m.2)) as Hleaf.
  { intros f k m Hm Hd. apply mkdir_key_present.
    - destruct m as [r f'] eqn:Em. simpl in *. destruct Hm as [->| ->].
      + eapply isdir_key_grows; [|by eapply mkdir_key_ok_parent].
        pose proof (mkdir_key_grows f k) as Hg. unfold m in Em. by rewrite Em in Hg.
      + apply mkdir_key_eexist in Em as (-> & ? & ?). done.
    - unfold exists_key. by rewrite Hd. }
  induction rest as [|c rest IH]; intros f a pre.
  - simpl. rewrite app_nil_r. apply Hleaf.
  - destruct rest as [|c' rest]; [apply Hleaf|].
    cbv zeta. rewrite makedirs_from_unfold.
    replace (pre ++ c :: c' :: rest) with ((pre ++ [c]) ++ c' :: rest)
      by by rewrite <- app_assoc.
    destruct (exists_key f (a, pre ++ [c])) eqn:Hex.
    + intros Hm Hd. rewrite makedirs_from_unfold.
      rewrite (exists_key_grows f _ _ (makedirs_from_grows _ _ _ _) Hex).
      by apply IH.
    + pose proof (mkdir_key_grows f (a, pre ++ [c])) as Hg.
      destruct (mkdir_key f (a, pre ++ [c])) as [[[]|e] f1] eqn:Hmk.
      * intros Hm Hd. rewrite makedirs_from_unfold.
        assert (exists_key (makedirs_from f1 a (pre ++ [c]) (c' :: rest)).2
                  (a, pre ++ [c]) = true) as ->.
        { eapply exists_key_grows; [apply makedirs_from_grows|].
          unfold exists_key. by rewrite (mkdir_key_ok_isdir _ _ _ Hmk). }
        by apply IH.
      * simpl. intros [?|[= ->]]; [done|].
        apply mkdir_key_eexist in Hmk as (_ & _ & Hk). congruence.
Qed.

Lemma safe_mkdir_ok_makedirs d w :
  outcome (exec (safe_mkdir d) w) = Ok tt →
  let m := fs_makedirs (fs w) d in
  (m.1 = Ok tt ∨ m.1 = Raise (OSError EEXIST)) ∧ fs_isdir m.2 d = true
  ∧ final (exec (safe_mkdir d) w) = with_fs w m.2.
Proof.
  rewrite exec_safe_mkdir. cbv zeta.
  destruct (fs_makedirs (fs w) d) as [[[]|e] f] eqn:Hm; simpl.
  - intros _. split; [by left|]. split; [|done]. by eapply fs_makedirs_ok_isdir.
  - destruct e as [[]| | |]; simpl; try done.
    destruct (fs_isdir f d) eqn:Hd; [|done]. intros _. by auto.
Qed.

(** X3.  [safe_mkdir] can be repeated: after a call that returned, a second
    call for the same path returns as well and leaves the world as it is
    ([os.makedirs] raises EEXIST, the path is a directory, and the
    exception is dropped). *)
Theorem safe_mkdir_idempotent (directory : string) (w : World) :
  let r := exec (safe_mkdir directory) w in
  outcome r = Ok tt →
  exec (safe_mkdir directory) (final r)
  = mkRun (Ok tt) (final r) [OsMakedirs directory; OsPathIsdir directory].
Proof.
  cbv zeta. intros Hok.
  destruct (safe_mkdir_ok_makedirs _ _ Hok) as (Hm & Hd & ->).
  rewrite exec_safe_mkdir. cbv zeta.
  change (fs (with_fs w ?f)) with f.
  unfold fs_makedirs in *. unfold fs_isdir in Hd.
  destruct (path_key directory) as [k|] eqn:Hk; [|done].
  rewrite makedirs_from_again; [| exact Hm | by destruct k].
  simpl. unfold fs_isdir. rewrite Hk, Hd.
  reflexivity.
Qed.

Lemma wf_isdir_prefix f a cs :
  wf_fs f → isdir_key f (a, cs) = true →
  ∀ cs', cs' `prefix_of` cs → isdir_key f (a, cs') = true.
Proof.
  intros [Hwd _]. induction cs as [|c cs IH] using rev_ind; intros Hd cs' Hp.
  - apply prefix_nil_inv in Hp as ->. done.
  - destruct Hp as [t Ht]. revert Ht. destruct t as [|x t _] using rev_ind; intros Ht.
    + rewrite app_nil_r in Ht. by rewrite <- Ht.
    + rewrite app_assoc in Ht. apply app_inj_tail in Ht as [-> ->].
      apply IH; [|by eexists].
      unfold isdir_key in Hd. apply orb_true_iff in Hd as [Hr|Hd].
      * unfold is_root in Hr. apply bool_decide_eq_true in Hr. simpl in Hr.
        by apply app_eq_nil in Hr as [_ ?].
      * apply bool_decide_eq_true in Hd. apply Hwd in Hd.
        by rewrite parent_snoc in Hd.
Qed.


(** X4.  When [safe_mkdir] returns, the directory and every directory
    above it on the path exist, whichever of them were missing before. *)
Theorem safe_mkdir_makes_parents (directory : string) (w : World) (k : Key) :
  let r := exec (safe_mkdir directory) w in
  wf_fs (fs w) →
  path_key directory = Some k →
  outcome r = Ok tt →
  ∀ k', under k' k → isdir_key (fs (final r)) k' = true.
Proof.
  cbv zeta. intros Hwf Hk Hok [a' cs'] [Ha Hp]. cbn in Ha, Hp. subst a'.
  destruct (safe_mkdir_ok_makedirs _ _ Hok) as (_ & Hd & ->).
  change (fs (with_fs w ?f)) with f in *.
  apply (wf_isdir_prefix _ _ k.2); [by apply fs_makedirs_wf| |done].
  unfold fs_isdir in Hd. rewrite Hk in Hd. by destruct k.
Qed.


Lemma os_path_join_absolute a b : startswith_sep b = true → os_path_join a b = b.
Proof. unfold os_path_join. by intros ->. Qed.

Lemma exec_item_output_path out rel w :
  exec (item_output_path out rel) w
  = then_run (exec (safe_mkdir (os_path_join out rel)) w)
      (fun _ w' => mkRun (Ok (os_path_join out rel)) w' []).
Proof. unfold item_output_path. by rewrite exec_bind. Qed.

(** X6.  An absolute [rel_path] makes [item_output_path] ignore the output
    directory: whatever directory it is given, it makes and returns
    [rel_path] itself. *)
Theorem item_output_path_absolute_relpath (output_directory rel_path : string)
    (w : World) :
  let r := exec (item_output_path output_directory rel_path) w in
  startswith_sep rel_path = true →
  (∀ other, exec (item_output_path other rel_path) w = r)
  ∧ (∀ p, outcome r = Ok p →
       p = rel_path ∧ omap made (calls r) = [rel_path]
       ∧ fs_isdir (fs (final r)) rel_path = true).
Proof.
  cbv zeta. intros Habs. split.
  - intros other. unfold item_output_path. by rewrite !os_path_join_absolute.
  - intros p. rewrite exec_item_output_path, os_path_join_absolute by done.
    intros Hok. destruct (then_run_inv _ _ _ Hok) as ([] & Hs & Hp).
    injection Hp as <-. rewrite (then_run_ok _ _ _ Hs). simpl.
    rewrite app_nil_r. destruct (safe_mkdir_ok _ _ Hs) as (Hd & Hm & _). done.
Qed.

(** *** The transformations *)

(** X7.  [identity] returns its image and [white_tophat] the white top-hat
    of its image by a disk of the given radius, each saved once by the
    decorator under the name of the function; and no run of the script
    applies either of them. *)
Theorem identity_and_white_tophat (image : Image Scalar) (radius : Z)
    (w : World) :
  (∀ c, outcome (exec (identity image) w) = Ok c → c = image)
  ∧ (∀ c, outcome (exec (white_tophat image radius) w) = Ok c →
       c = lib_white_tophat image (lib_disk radius))
  ∧ calls (exec (white_tophat image radius) w)
    = [ Disk radius; WhiteTophat image (lib_disk radius);
        AutoWriteSave "white_tophat"
          (png_of_scalars (lib_white_tophat image (lib_disk radius))) ]
  ∧ calls (exec (identity image) w)
    = [ AutoWriteSave "identity" (png_of_scalars image) ]
  ∧ ∀ file args w',
      Forall outside_unused (calls (exec (script file args) w')).
Proof.
  split_and!.
  - unfold identity, transformation. cbn.
    destruct (autowrite_save w _ _) as [[[]|e] w1]; cbn; [|done]. by intros c [= <-].
  - unfold white_tophat, transformation. cbn.
    destruct (autowrite_save w _ _) as [[[]|e] w1]; cbn; [|done]. by intros c [= <-].
  - unfold white_tophat, transformation. cbn.
    by destruct (autowrite_save w _ _) as [[[]|e] w1].
  - unfold identity, transformation. cbn.
    by destruct (autowrite_save w _ _) as [[[]|e] w1].
  - intros file args w'. apply events_satisfy_calls.
    unfold script, module_level, main, analyse_dataset, analyse_item,
      item_output_path, safe_mkdir, getitem,
      analyse_file, analyse_series, get_microscopy_collection,
      analyse_image, smooth_gaussian, threshold_abs, erode_binary,
      remove_small_objects, dilate_binary, connected_components, transformation,
      outline_component.
    unfold os_path_isdir, os_mkdir, os_makedirs, logging_info.
    repeat first
      [ match goal with
        | |- events_satisfy ?P (call (AutoWriteSave ?n ?p)) =>
            refine (events_satisfy_call P (AutoWriteSave n p) _); by split
        end
      | event_step ].
Qed.

Lemma autowrite_save_on w func_name png d w' :
  AutoWrite_on w = true → AutoName_prefix_format w = "{:03d}_" →
  AutoName_directory w = Some d →
  autowrite_save w func_name png = (Ok tt, w') →
  fs_isfile (fs w') (intermediate_path w d 1 func_name) = true
  ∧ fs_grows (fs w) (fs w')
  ∧ AutoWrite_on w' = true ∧ AutoName_prefix_format w' = "{:03d}_"
  ∧ AutoName_directory w' = Some d
  ∧ AutoName_count w' = AutoName_count w + 1.
Proof.
  intros Hon Hfmt Hd. unfold autowrite_save. rewrite Hon. cbn.
  unfold AutoName_name, format_prefix. rewrite Hfmt, Hd.
  rewrite bool_decide_eq_true_2 by done.
  fold (intermediate_path w d 1 func_name).
  pose proof (fs_write_grows (fs w) (intermediate_path w d 1 func_name) png) as Hg.
  destruct (fs_write (fs w) _ png) as [[[]|e] f1] eqn:Hw; cbn; [|done].
  intros [= <-]. split; [by apply fs_write_ok_isfile in Hw|]. done.
Qed.

Lemma intermediate_path_next w w' d j n func_name :
  AutoName_count w' = AutoName_count w + n →
  intermediate_path w' d j func_name = intermediate_path w d (n + j) func_name.
Proof.
  intros H. unfold intermediate_path. rewrite H. by rewrite Z.add_assoc.
Qed.

(** X8.  With [AutoWrite.on], the script's prefix format and
    [AutoName.directory] at [d], a call of [analyse_image] that returns
    has saved six images in [d], one per transformation in the order of
    the chain, named by the counter from where it stood, three digits
    wide, and the name of the transformation; the counter has advanced by
    six. *)
Theorem analyse_image_debug_images (image : Image Pixel) (w : World)
    (d : string) :
  let r := exec (analyse_image image) w in
  AutoWrite_on w = true →
  AutoName_prefix_format w = "{:03d}_" →
  AutoName_directory w = Some d →
  (∃ c, outcome r = Ok c) →
  Forall (fun jn : Z * string =>
            fs_isfile (fs (final r)) (intermediate_path w d jn.1 jn.2) = true)
    chain_names
  ∧ AutoName_count (final r) = AutoName_count w + 6.
Proof.
  cbv zeta. intros Hon Hfmt Hd [c Hok]. revert Hok.
  unfold analyse_image. cbn.
  repeat match goal with
  | |- context [autowrite_save ?w0 ?n ?p] =>
      let Hs := fresh "Hs" in
      destruct (autowrite_save w0 n p) as [[[]|?] ?] eqn:Hs; cbn; [|done]
  end.
  rewrite exec_bind, exec_outlines. cbn. intros _.
  destruct (autowrite_save_on _ _ _ d _ Hon Hfmt Hd Hs)
    as (F1 & G1 & On1 & Fmt1 & D1 & C1).
  destruct (autowrite_save_on _ _ _ d _ On1 Fmt1 D1 Hs0)
    as (F2 & G2 & On2 & Fmt2 & D2 & C2).
  destruct (autowrite_save_on _ _ _ d _ On2 Fmt2 D2 Hs1)
    as (F3 & G3 & On3 & Fmt3 & D3 & C3).
  destruct (autowrite_save_on _ _ _ d _ On3 Fmt3 D3 Hs2)
    as (F4 & G4 & On4 & Fmt4 & D4 & C4).
  destruct (autowrite_save_on _ _ _ d _ On4 Fmt4 D4 Hs3)
    as (F5 & G5 & On5 & Fmt5 & D5 & C5).
  destruct (autowrite_save_on _ _ _ d _ On5 Fmt5 D5 Hs4)
    as (F6 & G6 & On6 & Fmt6 & D6 & C6).
  rewrite C1 in C2. rewrite C2 in C3. rewrite C3 in C4. rewrite C4 in C5.
  rewrite C5 in C6.
  rewrite (intermediate_path_next w _ d 1 1) in F2 by done.
  rewrite (intermediate_path_next w _ d 1 2) in F3 by (rewrite C2; lia).
  rewrite (intermediate_path_next w _ d 1 3) in F4 by (rewrite C3; lia).
  rewrite (intermediate_path_next w _ d 1 4) in F5 by (rewrite C4; lia).
  rewrite (intermediate_path_next w _ d 1 5) in F6 by (rewrite C5; lia).
  split; [|rewrite C6; lia].
  unfold chain_names. repeat constructor; cbn [fst snd].
  - do 5 (eapply fs_isfile_grows; [eassumption|]). exact F1.
  - do 4 (eapply fs_isfile_grows; [eassumption|]). exact F2.
  - do 3 (eapply fs_isfile_grows; [eassumption|]). exact F3.
  - do 2 (eapply fs_isfile_grows; [eassumption|]). exact F4.
  - eapply fs_isfile_grows; [eassumption|]. exact F5.
  - exact F6.
Qed.

(** *** [analyse_file] *)

Lemma handle_keeps_directory d ev w :
  keeps_directory d ev → AutoName_directory w = Some d →
  AutoName_directory (handle ev w).2 = Some d.
Proof.
  intros Hev Hw. destruct ev; try done; unfold handle; simpl; try done.
  - unfold logging_basicConfig. destruct (root_handler w); [done|].
    by destruct (fs_append _ _ _) as [[[]|?] ?].
  - by rewrite Hev.
  - unfold autowrite_save. by destruct (AutoWrite_on w).
  - unfold filebackend_init, mkdir_if_missing. by destruct (fs_isdir _ _).
Qed.

Lemma saves_omap evs :
  saves evs
  = Z.of_nat (length (omap (fun ev => if is_save ev then Some tt else None) evs)).
Proof.
  unfold saves. f_equal. induction evs as [|ev evs IH]; [done|].
  rewrite filter_cons. cbn [omap list_omap].
  destruct (is_save ev); case_decide; simpl; congruence.
Qed.

Lemma saves_analyse_image_calls image : saves (analyse_image_calls image) = 6.
Proof.
  unfold analyse_image_calls. rewrite saves_app, saves_cons. simpl.
  assert (saves (outlines_calls (stage_labelled image)
            (lib_from_grayscale (stage_scaled image))
            (lib_identifiers (stage_labelled image))) = 0) as ->.
  { rewrite saves_omap, omap_none; [done|].
    eapply Forall_impl; [apply outlines_calls_steps|].
    by intros []. }
  reflexivity.
Qed.

Lemma get_microscopy_collection_saves input_file w :
  saves (calls (exec (get_microscopy_collection input_file) w)) = 0.
Proof.
  rewrite saves_omap, omap_none; [done|].
  apply (events_satisfy_calls (fun ev => _ = None)).
  unfold get_microscopy_collection. each_event.
Qed.

Lemma for_each_saves {X} (n : Z) (xs : list X) (body : X → Prog unit) :
  (∀ x w, outcome (exec (body x) w) = Ok tt → saves (calls (exec (body x) w)) = n) →
  ∀ w, outcome (exec (for_each xs body) w) = Ok tt →
       saves (calls (exec (for_each xs body) w)) = n * Z.of_nat (length xs).
Proof.
  intros Hbody. induction xs as [|x xs IH]; intros w H; [cbn; by rewrite Z.mul_0_r|].
  simpl in H |- *. apply exec_bind_ok in H as ([] & Hx & Hxs & _ & ->).
  rewrite saves_app, (Hbody _ _ Hx), (IH _ Hxs).
  cbn [length]. rewrite Nat2Z.inj_succ. unfold Z.succ. ring.
Qed.

Lemma analyse_file_keeps_autowrite fpath out :
  events_satisfy keeps_autowrite (analyse_file fpath out).
Proof. unfold_script. each_event. Qed.

Lemma exec_sets_directory {A} d (p : Prog A) : ∀ w,
  events_satisfy (keeps_directory d) p →
  AutoNameSetDirectory d ∈ calls (exec p w) ∨ AutoName_directory w = Some d →
  AutoName_directory (final (exec p w)) = Some d.
Proof.
  induction p as [a|e|ev k IH]; intros w Hp Hw; simpl in *.
  - destruct Hw as [Hw|Hw]; [by apply elem_of_nil in Hw|done].
  - destruct Hw as [Hw|Hw]; [by apply elem_of_nil in Hw|done].
  - destruct Hp as [Hev Hk]. apply IH; [apply Hk|].
    destruct Hw as [Hw|Hw].
    + apply elem_of_cons in Hw as [<-|Hw]; [by right|by left].
    + right. by apply handle_keeps_directory.
Qed.

Lemma calls_logging_info msg w :
  calls (exec (logging_info msg) w) = [LoggingInfo msg].
Proof.
  unfold logging_info. cbn [exec call calls after].
  by destruct ((handle (LoggingInfo msg) w).1).
Qed.

Lemma analyse_file_saves fpath out w :
  let r := exec (analyse_file fpath out) w in
  outcome r = Ok tt →
  ∃ mc, load fpath = Ok mc
    ∧ saves (calls r) = 6 * Z.of_nat (length (collection_series mc))
    ∧ AutoNameSetDirectory out ∈ calls r.
Proof.
  cbv zeta. unfold analyse_file. intros H.
  apply exec_bind_ok in H as ([] & _ & H & _ & ->).
  apply exec_bind_ok in H as ([] & _ & H & _ & ->).
  apply exec_bind_ok in H as (mc & Hmc & H & _ & ->).
  exists mc. split; [by apply exec_get_microscopy_collection_ok in Hmc as [? _]|].
  rewrite calls_logging_info, exec_call. cbn [calls].
  split.
  - rewrite !saves_app, !saves_singleton, get_microscopy_collection_saves.
    rewrite (for_each_saves 6); [cbn [is_save]; lia| |done].
    intros s w' Hs. apply analyse_series_ok in Hs as [-> _].
    by rewrite saves_app, saves_analyse_image_calls.
  - apply elem_of_app. right. apply elem_of_app. left. apply list_elem_of_here.
Qed.

(** X9.  When [analyse_file] returns, six decorated transformations have
    been applied per series; [AutoWrite.on] is as before, the counter of
    [AutoName] has advanced by six per series when [AutoWrite.on] holds
    and not at all otherwise (it is never reset), and [AutoName.directory]
    is the output directory of the file. *)
Theorem analyse_file_six_saves_per_series (fpath output_directory : string)
    (w : World) :
  let r := exec (analyse_file fpath output_directory) w in
  outcome r = Ok tt →
  ∃ mc, load fpath = Ok mc
    ∧ saves (calls r) = 6 * Z.of_nat (length (collection_series mc))
    ∧ AutoWrite_on (final r) = AutoWrite_on w
    ∧ AutoName_count (final r)
      = AutoName_count w
        + (if AutoWrite_on w
           then 6 * Z.of_nat (length (collection_series mc)) else 0)
    ∧ AutoName_directory (final r) = Some output_directory.
Proof.
  cbv zeta. intros Hok.
  destruct (exec_frame _ w (analyse_file_keeps_autowrite fpath output_directory))
    as (Hon & Hcount & _).
  destruct (analyse_file_saves _ _ _ Hok) as (mc & Hload & Hs & Hin).
  exists mc. split; [done|]. split; [done|]. split; [done|].
  split; [by rewrite Hcount, Hs|].
  apply exec_sets_directory; [|by left].
  unfold_script. each_event.
Qed.

Lemma has_sep_app s t : has_sep (s +:+ t) = has_sep s || has_sep t.
Proof. induction s as [|c s IH]; simpl; [done|]. by rewrite IH, orb_assoc. Qed.

Lemma split_sep_no_sep s : has_sep s = false → split_sep s = [s].
Proof.
  induction s as [|c s IH]; simpl; [done|].
  intros H. apply orb_false_iff in H as [Hc Hs]. rewrite Hc, (IH Hs). done.
Qed.

Lemma has_sep_uint d : has_sep (NilEmpty.string_of_uint d) = false.
Proof. induction d; simpl; try done. Qed.

Lemma has_sep_decimal n : has_sep (decimal n) = false.
Proof.
  unfold decimal, NilZero.string_of_uint.
  destruct (N.to_uint n); try done; apply (has_sep_uint (_ _)).
Qed.

Lemma has_sep_zeros k : has_sep (zeros k) = false.
Proof. induction k; simpl; done. Qed.

Lemma has_sep_format_03d n : has_sep (format_03d n) = false.
Proof.
  unfold format_03d, zfill. destruct (n <? 0).
  - rewrite !has_sep_app, has_sep_zeros, has_sep_decimal. done.
  - by rewrite has_sep_app, has_sep_zeros, has_sep_decimal.
Qed.

Lemma has_sep_annotation_name s : has_sep (annotation_name s) = false.
Proof.
  unfold annotation_name. by rewrite !has_sep_app, has_sep_format_03d.
Qed.

Lemma components_annotation_name s :
  components (annotation_name s) = [annotation_name s].
Proof.
  unfold components. rewrite split_sep_no_sep by apply has_sep_annotation_name.
  rewrite filter_cons, decide_True; [done|].
  unfold is_name. apply andb_true_iff. split; apply negb_true_iff, bool_decide_eq_false; done.
Qed.

(** The annotation of a series lies directly in the output directory. *)
Lemma annotation_key out s :
  path_key (annotation_path out s)
  = Some ((dir_key out).1, (dir_key out).2 ++ [annotation_name s]).
Proof.
  unfold annotation_path, dir_key.
  destruct (path_key out) as [k|] eqn:Hk.
  - rewrite (path_key_join _ _ k Hk (annotation_name_relative s)).
    by rewrite components_annotation_name.
  - unfold path_key in Hk. case_bool_decide as Ho; [|done]. subst out.
    unfold os_path_join. rewrite annotation_name_relative.
    change (path_key (annotation_name s) = Some (false, [annotation_name s])).
    unfold path_key. rewrite bool_decide_eq_false_2 by done.
    by rewrite annotation_name_relative, components_annotation_name.
Qed.

Lemma annotation_key_inj out s1 s2 :
  path_key (annotation_path out s1) = path_key (annotation_path out s2) → s1 = s2.
Proof.
  assert (∀ a b : string, [a] = [b] → a = b) as Hinj by (by intros ?? [= ->]).
  rewrite !annotation_key. intros [= H]. apply app_inv_head in H.
  by apply annotation_name_inj, Hinj.
Qed.

(** With [AutoWrite] off, one round of the loop of [analyse_file] changes
    one file and nothing else. *)
Lemma exec_analyse_series_off mc out s w k :
  AutoWrite_on w = false →
  path_key (annotation_path out s) = Some k →
  outcome (exec (analyse_series mc out s) w) = Ok tt →
  final (exec (analyse_series mc out s) w)
  = with_fs w (mkFS (dirs (fs w))
      (<[k := lib_png (annotated (collection_image mc s))]> (files (fs w)))).
Proof.
  intros Hoff Hk. unfold analyse_series.
  rewrite exec_bind, (exec_analyse_image_off _ _ Hoff).
  unfold then_run. cbn. fold (annotation_path out s).
  unfold fs_write. rewrite Hk.
  destruct (open_error (fs w) k) eqn:Ho; cbn; [done|].
  unfold fs_append. rewrite Hk.
  assert (open_error (mkFS (dirs (fs w)) (<[k:=""]> (files (fs w)))) k = None) as ->.
  { apply open_error_None in Ho as [H1 H2]. unfold open_error, parent_error.
    set (f1 := mkFS _ _).
    rewrite (isdir_key_dirs f1 (fs w) k), (isdir_key_dirs f1 (fs w) (parent k)) by done.
    by rewrite H1, H2. }
  cbn. intros _. rewrite lookup_insert_eq. simpl. rewrite insert_insert_eq.
  by destruct w.
Qed.

Lemma analyse_series_loop mc out (l : list Z) : ∀ w,
  AutoWrite_on w = false →
  outcome (exec (for_each l (analyse_series mc out)) w) = Ok tt →
  let w' := final (exec (for_each l (analyse_series mc out)) w) in
  AutoWrite_on w' = false
  ∧ (NoDup l → ∀ s, s ∈ l →
       fs_read (fs w') (annotation_path out s)
       = Some (lib_png (annotated (collection_image mc s))))
  ∧ (∀ k, (∀ s, s ∈ l → path_key (annotation_path out s) ≠ Some k) →
       files (fs w') !! k = files (fs w) !! k).
Proof.
  induction l as [|x l IH]; intros w Hoff Hok; cbv zeta.
  - simpl. split; [done|]. split; [|done]. intros _ s Hs. by apply elem_of_nil in Hs.
  - cbn [for_each] in Hok |- *.
    apply exec_bind_ok in Hok as ([] & Hx & Hl & -> & _).
    rewrite (exec_analyse_series_off _ _ _ _ _ Hoff (annotation_key out x) Hx) in *.
    set (w1 := with_fs w _) in *.
    destruct (IH w1 Hoff Hl) as (Hoff' & Hin & Hout).
    split; [done|]. split.
    + intros Hnd s Hs. apply NoDup_cons in Hnd as [Hx' Hnd].
      apply elem_of_cons in Hs as [->|Hs]; [|by apply Hin].
      unfold fs_read. rewrite annotation_key. simpl. rewrite Hout.
      * unfold w1. simpl. by rewrite lookup_insert_eq.
      * intros s Hs Heq. rewrite <- annotation_key in Heq.
        apply annotation_key_inj in Heq as ->. done.
    + intros k Hk. rewrite Hout.
      * unfold w1. simpl. rewrite lookup_insert_ne; [done|].
        intros <-. eapply Hk; [by left|]. apply annotation_key.
      * intros s Hs. apply Hk. by right.
Qed.

(** X10.  With [AutoWrite] off, when [analyse_file] returns, the annotation
    file of each series holds the PNG of the annotated image of that series
    and nothing else, whatever a file of that name held before (the series
    being distinct); the file lies directly in the output directory,
    whatever the number of the series. *)
Theorem analyse_file_annotation_contents (fpath output_directory : string)
    (w : World) :
  let r := exec (analyse_file fpath output_directory) w in
  AutoWrite_on w = false →
  outcome r = Ok tt →
  ∃ mc, load fpath = Ok mc
    ∧ (NoDup (collection_series mc) →
       ∀ s, s ∈ collection_series mc →
         fs_read (fs (final r)) (annotation_path output_directory s)
         = Some (lib_png (annotated (collection_image mc s))))
    ∧ ∀ s, path_key (annotation_path output_directory s)
           = Some ((dir_key output_directory).1,
                   (dir_key output_directory).2 ++ [annotation_name s]).
Proof.
  cbv zeta. intros Hoff. unfold analyse_file, logging_info. intros H.
  apply exec_bind_ok in H as ([] & H1 & H & -> & _).
  apply exec_bind_ok in H as ([] & H2 & H & -> & _).
  apply exec_bind_ok in H as (mc & Hmc & H & -> & _).
  exists mc. split; [by apply exec_get_microscopy_collection_ok in Hmc as [? _]|].
  split; [|intros s; apply annotation_key].
  apply analyse_series_loop; [|done].
  match goal with |- AutoWrite_on (final (exec ?p ?w3)) = _ =>
    destruct (exec_frame p w3) as (-> & _) end.
  { unfold get_microscopy_collection, os_path_isdir, os_mkdir.
    repeat first
      [ match goal with
        | |- events_satisfy ?P (call ?ev) => exact (events_satisfy_call P ev I)
        end
      | apply events_satisfy_bind; [|intros ?]
      | exact I
      | match goal with
        | |- events_satisfy _ (if ?b then _ else _) => destruct b
        end ]. }
  rewrite !exec_call. cbn. exact Hoff.
Qed.

(** *** [analyse_dataset] *)

(** A loop whose body raises stops there: what comes after in the list is
    not touched. *)
Lemma for_each_raises {X} (body : X → Prog unit) (pre : list X) x rest e : ∀ w,
  let rp := exec (for_each pre body) w in
  let rx := exec (body x) (final rp) in
  outcome rp = Ok tt → outcome rx = Raise e →
  exec (for_each (pre ++ x :: rest) body) w
  = mkRun (Raise e) (final rx) (calls rp ++ calls rx).
Proof.
  induction pre as [|y pre IH]; intros w; cbv zeta.
  - simpl. intros _ Hx. rewrite exec_bind. unfold then_run. by rewrite Hx.
  - simpl. rewrite !exec_bind. unfold then_run at 1 2 3 4.
    destruct (outcome (exec (body y) w)) as [[]|e'] eqn:Hy; simpl; [|done].
    intros Hp Hx. unfold then_run. rewrite Hy. simpl.
    rewrite (IH _ Hp Hx). simpl. by rewrite app_assoc.
Qed.

Lemma exec_analyse_dataset dataset_dir out ds w :
  from_uri dataset_dir = Ok ds →
  exec (analyse_dataset dataset_dir out) w
  = let msg := "Analysing items in dataset: " +:+ dataset_name ds in
    let rl := exec (for_each (dataset_identifiers ds) (analyse_item ds out))
                (emit_info w msg).2 in
    mkRun (outcome rl) (final rl)
      (DataSetFromUri dataset_dir :: LoggingInfo msg :: calls rl).
Proof.
  intros Hds. unfold analyse_dataset, logging_info. cbn. rewrite Hds. cbn.
  rewrite emit_info_ok. cbn. reflexivity.
Qed.

(** X11.  [analyse_dataset] stops at the first item whose analysis raises:
    the exception is the outcome of the whole call, the items before have
    been analysed, and the items after are not touched (the calls end with
    those of the failing item). *)
Theorem analyse_dataset_stops_at_first_failure (dataset_dir output_dir : string)
    (w : World) (ds : DataSet) (pre rest : list string) (i : string) (e : Exn) :
  let msg := "Analysing items in dataset: " +:+ dataset_name ds in
  let rp := exec (for_each pre (analyse_item ds output_dir))
              (handle (LoggingInfo msg) w).2 in
  let ri := exec (analyse_item ds output_dir i) (final rp) in
  from_uri dataset_dir = Ok ds →
  dataset_identifiers ds = pre ++ i :: rest →
  outcome rp = Ok tt →
  outcome ri = Raise e →
  exec (analyse_dataset dataset_dir output_dir) w
  = mkRun (Raise e) (final ri)
      (DataSetFromUri dataset_dir :: LoggingInfo msg :: calls rp ++ calls ri).
Proof.
  cbv zeta. intros Hds Hids Hp Hi.
  rewrite (exec_analyse_dataset _ _ _ _ Hds). cbv zeta. rewrite Hids.
  change (handle (LoggingInfo ?m) w) with (emit_info w m) in *.
  by rewrite (for_each_raises _ _ _ _ _ _ Hp Hi).
Qed.

Lemma exec_analyse_item_no_relpath ds out i w :
  item_properties ds i !! "relpath" = None →
  exec (analyse_item ds out i) w = mkRun (Raise (KeyError "relpath")) w [].
Proof. intros H. unfold analyse_item, getitem. by rewrite H. Qed.

(** X12.  An item without a ["relpath"] property makes [analyse_dataset]
    fail; when it is the first item, the outcome is [KeyError] on
    ["relpath"], raised before any directory is made or any file is
    loaded. *)
Theorem analyse_dataset_missing_relpath (dataset_dir output_dir : string)
    (w : World) (ds : DataSet) (i : string) :
  let r := exec (analyse_dataset dataset_dir output_dir) w in
  from_uri dataset_dir = Ok ds →
  i ∈ dataset_identifiers ds →
  item_properties ds i !! "relpath" = None →
  outcome r ≠ Ok tt
  ∧ (∀ rest, dataset_identifiers ds = i :: rest →
       outcome r = Raise (KeyError "relpath")
       ∧ calls r
         = [ DataSetFromUri dataset_dir;
             LoggingInfo ("Analysing items in dataset: " +:+ dataset_name ds) ]
       ∧ dirs (fs (final r)) = dirs (fs w)).
Proof.
  cbv zeta. intros Hds Hi Hrel. split.
  - intros Hok. destruct (analyse_dataset_ok _ _ _ Hok) as (ds' & Hds' & _ & _ & _ & H).
    rewrite Hds in Hds'. injection Hds' as <-.
    destruct (H i Hi) as [[rel Hr] _]. congruence.
  - intros rest Hids.
    rewrite (exec_analyse_dataset _ _ _ _ Hds). cbv zeta. rewrite Hids.
    rewrite (for_each_raises _ [] i rest (KeyError "relpath")); cbn.
    + rewrite exec_analyse_item_no_relpath by done. cbn.
      by rewrite emit_info_dirs.
    + done.
    + by rewrite exec_analyse_item_no_relpath.
Qed.

(** *** [main] and the whole script *)


Lemma footprint_refl D F f : footprint D F f f.
Proof. split; auto. Qed.

Lemma footprint_trans D F f0 f1 f2 :
  footprint D F f0 f1 → footprint D F f1 f2 → footprint D F f0 f2.
Proof.
  intros [Hd1 Hf1] [Hd2 Hf2]. split; intros k Hk.
  - destruct (Hd2 k Hk); auto.
  - destruct (Hf2 k Hk); auto.
Qed.

Lemma footprint_weaken (D F D' F' : Key → Prop) f0 f :
  (∀ k, D k → D' k) → (∀ k, F k → F' k) →
  footprint D F f0 f → footprint D' F' f0 f.
Proof.
  intros HD HF [Hd Hf]. split; intros k Hk.
  - destruct (Hd k Hk); auto.
  - destruct (Hf k Hk); auto.
Qed.

Lemma mkdir_key_new f k k' :
  k' ∈ dirs (mkdir_key f k).2 →
  k' ∈ dirs f ∨ (k' = k ∧ exists_key f k = false).
Proof.
  unfold mkdir_key. destruct (parent_error f k); [by left|].
  destruct (exists_key f k); [by left|]. simpl.
  rewrite elem_of_union, elem_of_singleton. intros [->|?]; auto.
Qed.

Lemma mkdir_key_files f k : files (mkdir_key f k).2 = files f.
Proof.
  unfold mkdir_key. destruct (parent_error f k); [done|].
  by destruct (exists_key f k).
Qed.

Lemma fs_mkdir_new f p k' :
  k' ∈ dirs (fs_mkdir f p).2 → k' ∈ dirs f ∨ path_key p = Some k'.
Proof.
  unfold fs_mkdir. destruct (path_key p) as [k|]; [|by left].
  intros [?|[-> _]]%mkdir_key_new; auto.
Qed.

Lemma fs_mkdir_files f p : files (fs_mkdir f p).2 = files f.
Proof.
  unfold fs_mkdir. destruct (path_key p); [apply mkdir_key_files|done].
Qed.

Lemma makedirs_from_files rest : ∀ f a pre,
  files (makedirs_from f a pre rest).2 = files f.
Proof.
  induction rest as [|c rest IH]; intros f a pre; [apply mkdir_key_files|].
  destruct rest as [|c' rest]; [apply mkdir_key_files|].
  rewrite makedirs_from_unfold.
  destruct (exists_key f (a, pre ++ [c])); [apply IH|].
  pose proof (mkdir_key_files f (a, pre ++ [c])) as Hm.
  destruct (mkdir_key f (a, pre ++ [c])) as [[[]|e] f1]; [|done].
  simpl in Hm. by rewrite IH.
Qed.

Lemma fs_makedirs_files f p : files (fs_makedirs f p).2 = files f.
Proof.
  unfold fs_makedirs. destruct (path_key p); [apply makedirs_from_files|done].
Qed.

(** A directory [os.makedirs] makes was not there and lies on the path. *)
Lemma makedirs_from_new rest : ∀ f a pre k',
  k' ∈ dirs (makedirs_from f a pre rest).2 →
  k' ∈ dirs f
  ∨ (k'.1 = a ∧ pre `prefix_of` k'.2 ∧ k'.2 `prefix_of` pre ++ rest
     ∧ exists_key f k' = false).
Proof.
  induction rest as [|c rest IH]; intros f a pre k'.
  - simpl. intros [?|[-> ?]]%mkdir_key_new; [by left|right].
    rewrite app_nil_r. done.
  - destruct rest as [|c' rest].
    + simpl. intros [?|[-> ?]]%mkdir_key_new; [by left|right]. simpl.
      split_and!; try done. by eexists.
    + rewrite makedirs_from_unfold.
      replace (pre ++ c :: c' :: rest) with ((pre ++ [c]) ++ c' :: rest)
        by by rewrite <- app_assoc.
      destruct (exists_key f (a, pre ++ [c])) eqn:Hex.
      * intros [?|(? & Hp & ? & ?)]%IH; [by left|right].
        split_and!; try done. etrans; [|exact Hp]. by eexists.
      * destruct (mkdir_key f (a, pre ++ [c])) as [[[]|e] f1] eqn:Hm.
        -- pose proof (mkdir_key_grows f (a, pre ++ [c])) as Hg.
           rewrite Hm in Hg. simpl in Hg.
           intros [Hk|(? & Hp & ? & Hne)]%IH.
           ++ assert (f1 = (mkdir_key f (a, pre ++ [c])).2) as -> by by rewrite Hm.
              apply mkdir_key_new in Hk as [?|[-> ?]]; [by left|right].
              simpl. split_and!; try done; by eexists.
           ++ right. split_and!; try done.
              ** etrans; [|exact Hp]. by eexists.
              ** destruct (exists_key f k') eqn:Hk'; [|done].
                 by rewrite (exists_key_grows _ _ _ Hg Hk') in Hne.
        -- simpl. pose proof (mkdir_key_raises _ _ _ _ Hm) as [-> _]. by left.
Qed.

Lemma fs_write_new f p data k :
  k ∈ dom (files (fs_write f p data).2) →
  k ∈ dom (files f) ∨ path_key p = Some k.
Proof.
  unfold fs_write. destruct (path_key p) as [k'|]; [|by left].
  destruct (open_error f k'); [by left|]. simpl.
  rewrite dom_insert, elem_of_union, elem_of_singleton. intros [->|?]; auto.
Qed.

Lemma fs_append_new f p data k :
  k ∈ dom (files (fs_append f p data).2) →
  k ∈ dom (files f) ∨ path_key p = Some k.
Proof.
  unfold fs_append. destruct (path_key p) as [k'|]; [|by left].
  destruct (open_error f k'); [by left|]. simpl.
  rewrite dom_insert, elem_of_union, elem_of_singleton. intros [->|?]; auto.
Qed.

Lemma fs_write_other f p data k :
  path_key p ≠ Some k → files (fs_write f p data).2 !! k = files f !! k.
Proof.
  unfold fs_write. destruct (path_key p) as [k'|]; [|done]. intros Hk.
  destruct (open_error f k'); [done|]. simpl.
  apply lookup_insert_ne. congruence.
Qed.

Lemma fs_append_other f p data k :
  path_key p ≠ Some k → files (fs_append f p data).2 !! k = files f !! k.
Proof.
  unfold fs_append. destruct (path_key p) as [k'|]; [|done]. intros Hk.
  destruct (open_error f k'); [done|]. simpl.
  apply lookup_insert_ne. congruence.
Qed.

Lemma fs_read_files f f' p : files f = files f' → fs_read f p = fs_read f' p.
Proof. unfold fs_read. by intros ->. Qed.

Lemma fs_append_read f p data f' :
  fs_append f p data = (Ok tt, f') →
  fs_read f' p = Some (default "" (fs_read f p) +:+ data).
Proof.
  unfold fs_append, fs_read. destruct (path_key p) as [k|]; [|done]. simpl.
  destruct (open_error f k); [done|]. intros [= <-]. simpl.
  by rewrite lookup_insert_eq.
Qed.

(** A file in a directory of a well-formed file system takes what is
    appended to it. *)
Lemma fs_append_file f p k c data :
  wf_fs f → path_key p = Some k → files f !! k = Some c →
  files (fs_append f p data).2 !! k = Some (c +:+ data).
Proof.
  intros [_ Hwf] Hk Hc. unfold fs_append. rewrite Hk.
  destruct (Hwf k) as [Hp Hd]; [by apply elem_of_dom|].
  unfold open_error, parent_error. rewrite Hd, Hp. simpl.
  by rewrite lookup_insert_eq, Hc.
Qed.

Lemma handle_set_up ko log R_dir R_file ev w :
  writes_within R_dir R_file ev → set_up ko log w →
  set_up ko log (handle ev w).2.
Proof.
  intros Hev (Hwf & Hko & Hoff & Hh & Hl).
  split; [by apply handle_wf|].
  split; [by apply (isdir_key_grows _ _ _ (handle_grows ev w))|].
  destruct ev; try done; unfold handle; simpl; try done.
  - unfold emit_info. simpl. by rewrite Hh.
  - by rewrite autowrite_save_off.
  - unfold filebackend_init, mkdir_if_missing. by destruct (fs_isdir _ _).
Qed.

Lemma item_dirs_makedirs ko R_dir f p k :
  wf_fs f → isdir_key f ko = true → R_dir p →
  k ∈ dirs (fs_makedirs f p).2 → k ∈ dirs f ∨ item_dirs ko R_dir k.
Proof.
  intros Hwf Hko Hp. unfold fs_makedirs.
  destruct (path_key p) as [kr|] eqn:Hkr; [|by left].
  intros [?|(Ha & _ & Hpre & Hne)]%makedirs_from_new; [by left|right].
  simpl in Hpre. right. right. exists p, kr. split_and!; try done.
  intros [Hka Hkp]. split; [congruence|].
  destruct (prefix_weak_total _ _ _ Hkp Hpre) as [?|Hk]; [done|].
  exfalso. destruct ko as [a cs], k as [a' cs']. simpl in *.
  assert (a' = a) as -> by congruence.
  unfold exists_key in Hne. apply orb_false_iff in Hne as [Hne _].
  by rewrite (wf_isdir_prefix f a cs Hwf Hko cs' Hk) in Hne.
Qed.

Lemma handle_footprint ko log R_dir R_file f0 ev w :
  writes_within R_dir R_file ev → set_up ko log w →
  footprint (item_dirs ko R_dir) (item_files log R_file) f0 (fs w) →
  footprint (item_dirs ko R_dir) (item_files log R_file) f0 (fs (handle ev w).2).
Proof.
  intros Hev (Hwf & Hko & Hoff & Hh & Hl) [Hd Hf].
  destruct ev; try done; unfold handle; simpl in *; try (by split).
  - (* os.mkdir *) subst p. split.
    + intros k [?|Hk]%fs_mkdir_new; [by apply Hd|]. right. left.
      vm_compute in Hk. congruence.
    + intros k. rewrite fs_mkdir_files. apply Hf.
  - (* os.makedirs *) split.
    + intros k [?|?]%(item_dirs_makedirs ko R_dir); auto.
    + intros k. unfold fs_makedirs. destruct (path_key p); [|apply Hf].
      rewrite makedirs_from_files. apply Hf.
  - (* open *) split.
    + intros k. rewrite fs_write_dirs. apply Hd.
    + intros k [?|?]%fs_write_new; [by apply Hf|]. right. right. by exists p.
  - (* write *) split.
    + intros k. rewrite fs_append_dirs. apply Hd.
    + intros k [?|?]%fs_append_new; [by apply Hf|]. right. right. by exists p.
  - (* logging.info *) unfold emit_info. simpl. rewrite Hh, Hl. simpl. split.
    + intros k. rewrite fs_append_dirs. apply Hd.
    + intros k [?|?]%fs_append_new; [by apply Hf|]. right. by left.
  - (* a transformation *) rewrite autowrite_save_off by done. by split.
  - (* FileBackend *) subst directory. unfold filebackend_init, mkdir_if_missing.
    destruct (fs_isdir _ _); [by split|]. simpl. split.
    + intros k [?|Hk]%fs_mkdir_new; [by apply Hd|]. right. right. left.
      change "output/.backend" with (os_path_join "output" ".backend") in Hk.
      rewrite backend_dir_key in Hk. by injection Hk.
    + intros k. rewrite fs_mkdir_files. apply Hf.
Qed.

(** After the setup, a program that writes within [R_dir] and [R_file]
    leaves nothing else behind. *)
Lemma exec_footprint {A} ko log R_dir R_file f0 (p : Prog A) w :
  events_satisfy (writes_within R_dir R_file) p →
  set_up ko log w →
  footprint (item_dirs ko R_dir) (item_files log R_file) f0 (fs w) →
  set_up ko log (final (exec p w))
  ∧ footprint (item_dirs ko R_dir) (item_files log R_file) f0
      (fs (final (exec p w))).
Proof.
  intros Hp Hs Hf.
  apply (exec_preserves (writes_within R_dir R_file)
           (fun w' => set_up ko log w'
              ∧ footprint (item_dirs ko R_dir) (item_files log R_file) f0 (fs w')));
    [|done|done].
  intros ev w' Hev [Hs' Hf']. split.
  - by eapply handle_set_up.
  - by eapply handle_footprint.
Qed.

Lemma events_satisfy_for_each_in {X} P (xs : list X) body :
  (∀ x, x ∈ xs → events_satisfy P (body x)) → events_satisfy P (for_each xs body).
Proof.
  induction xs as [|x xs IH]; intros Hb; simpl; [done|].
  apply events_satisfy_bind; [apply Hb; by left|]. intros _.
  apply IH. intros y Hy. apply Hb. by right.
Qed.

Lemma events_satisfy_bind_ret {A B C} P (p : Prog A) (b : B) (g : B → Prog C) :
  events_satisfy P p → events_satisfy P (g b) →
  events_satisfy P (bind (bind p (fun _ => Ret b)) g).
Proof.
  intros Hp Hg. induction p as [a|e|ev k IH]; simpl; [done..|].
  destruct Hp as [Hev Hk]. split; [done|]. intros r. apply IH, Hk.
Qed.

Lemma analyse_image_writes_within R_dir R_file image :
  events_satisfy (writes_within R_dir R_file) (analyse_image image).
Proof.
  unfold analyse_image, smooth_gaussian, threshold_abs, erode_binary,
    remove_small_objects, dilate_binary, connected_components, transformation,
    outline_component.
  each_event.
Qed.

Lemma analyse_file_writes_within R_dir (R_file : string → Prop) fpath out :
  (∀ s, R_file (annotation_path out s)) →
  events_satisfy (writes_within R_dir R_file) (analyse_file fpath out).
Proof.
  intros HR. unfold analyse_file, get_microscopy_collection, analyse_series.
  pose proof (analyse_image_writes_within R_dir R_file) as Him.
  unfold os_path_isdir, os_mkdir, logging_info.
  repeat first
    [ match goal with
      | |- events_satisfy _ (analyse_image ?im) => exact (Him im)
      end
    | match goal with
      | |- events_satisfy ?P (call (OpenWb ?p)) =>
          exact (events_satisfy_call P (OpenWb p) (HR _))
      | |- events_satisfy ?P (call (FhWrite ?p ?d)) =>
          exact (events_satisfy_call P (FhWrite p d) (HR _))
      | |- events_satisfy ?P (call ?ev) =>
          first [ exact (events_satisfy_call P ev I)
                | exact (events_satisfy_call P ev eq_refl) ]
      end
    | apply events_satisfy_bind; [|intros ?]
    | apply events_satisfy_for_each; intros ?
    | exact I
    | match goal with
      | |- events_satisfy _ (if ?b then _ else _) => destruct b
      end ].
Qed.

Lemma items_write_within ds out :
  events_satisfy (writes_within (item_dir_of ds out) (item_file_of ds out))
    (for_each (dataset_identifiers ds) (analyse_item ds out)).
Proof.
  apply events_satisfy_for_each_in. intros i Hi.
  unfold analyse_item, getitem, item_output_path.
  destruct (item_properties ds i !! "relpath") as [rel|] eqn:Hrel; [|done].
  cbn [bind].
  assert (os_path_join out rel = item_output_dir ds out i) as ->.
  { unfold item_output_dir, relpath_of. by rewrite Hrel. }
  apply events_satisfy_bind_ret.
  - unfold safe_mkdir, os_makedirs, os_path_isdir.
    apply events_satisfy_try.
    + refine (events_satisfy_call _ (OsMakedirs _) _). by exists i.
    + intros e. each_event.
  - apply analyse_file_writes_within. intros s. by exists i, s.
Qed.

(** The setup of [main] without [--debug], in a fresh interpreter. *)
Lemma main_setup_no_debug args w :
  let s := exec (main_setup args) w in
  let log := os_path_join (output_dir args) "audit.log" in
  debug args = false → root_handler w = None → wf_fs (fs w) →
  footprint (fun k => path_key (output_dir args) = Some k)
    (fun k => path_key log = Some k) (fs w) (fs (final s))
  ∧ (outcome s = Ok tt →
     ∃ ko, path_key (output_dir args) = Some ko
       ∧ set_up ko log (final s)
       ∧ fs_read (fs (final s)) log = Some (default "" (fs_read (fs w) log))).
Proof.
  cbv zeta. intros Hdebug Hnone Hwf.
  unfold main_setup, os_path_isdir, os_mkdir. rewrite Hdebug. cbn.
  set (out := output_dir args). set (log := os_path_join out "audit.log").
  assert (∀ f1 (w1 : World),
    fs w1 = f1 → root_handler w1 = None → AutoWrite_on w1 = false →
    wf_fs f1 →
    footprint (fun k => path_key out = Some k) (fun k => path_key log = Some k)
      (fs w) f1 →
    fs_read f1 log = fs_read (fs w) log →
    fs_isdir f1 out = true →
    let c := logging_basicConfig w1 log INFO in
    footprint (fun k => path_key out = Some k) (fun k => path_key log = Some k)
      (fs w) (fs c.2)
    ∧ (c.1 = Ok tt →
       ∃ ko, path_key out = Some ko ∧ set_up ko log c.2
         ∧ fs_read (fs c.2) log = Some (default "" (fs_read (fs w) log))))
    as Hcfg.
  { intros f1 w1 Hf1 Hh Hoff Hwf1 Hfp Hread Hdir. cbv zeta.
    unfold logging_basicConfig. rewrite Hh, Hf1.
    pose proof (fs_append_wf f1 log "" Hwf1) as Hwf2.
    pose proof (fs_append_dirs f1 log "") as Hd2.
    pose proof (fs_append_new f1 log "") as Hn2.
    pose proof (fs_append_read f1 log "") as Hr2.
    destruct (fs_append f1 log "") as [[[]|e] f2]; simpl in *.
    - split.
      + eapply footprint_trans; [exact Hfp|]. split; intros k Hk.
        * left. by rewrite <- Hd2.
        * destruct (Hn2 k Hk); auto.
      + intros _. unfold fs_isdir in Hdir.
        destruct (path_key out) as [ko|]; [|done]. exists ko.
        split; [done|]. split.
        * split_and!; try done. by rewrite (isdir_key_dirs f2 f1).
        * rewrite (Hr2 f2 eq_refl), Hread. by rewrite string_app_nil_r.
    - split; [|done].
      eapply footprint_trans; [exact Hfp|]. split; intros k Hk.
      + left. by rewrite <- Hd2.
      + destruct (Hn2 k Hk); auto. }
  destruct (fs_isdir (fs w) out) eqn:Hout; cbn.
  - destruct (Hcfg (fs w)
      (mkWorld (fs w) (AutoName_prefix_format w) (Some out) (AutoName_count w)
         false (root_handler w) (root_level w)))
      as [H1 H2]; try done; [apply footprint_refl|].
    destruct (logging_basicConfig _ log INFO) as [[[]|e] w2]; cbn in *; [|done].
    split; [done|]. intros _. by apply H2.
  - pose proof (fs_mkdir_wf (fs w) out Hwf) as Hwf1.
    pose proof (fs_mkdir_new (fs w) out) as Hn1.
    pose proof (fs_mkdir_files (fs w) out) as Hf1.
    destruct (fs_mkdir (fs w) out) as [[[]|e] f1] eqn:Hmk; cbn in *.
    + assert (footprint (fun k => path_key out = Some k)
                (fun k => path_key log = Some k) (fs w) f1) as Hfp.
      { split; intros k Hk; [by apply Hn1|]. left. by rewrite <- Hf1. }
      destruct (Hcfg f1
        (mkWorld f1 (AutoName_prefix_format w) (Some out) (AutoName_count w)
           false (root_handler w) (root_level w)))
        as [H1 H2]; try done.
      { by apply fs_read_files. }
      { unfold fs_mkdir in Hmk. unfold fs_isdir.
        destruct (path_key out) as [k|]; [|done].
        by apply mkdir_key_ok_isdir in Hmk. }
      destruct (logging_basicConfig _ log INFO) as [[[]|e] w2]; cbn in *; [|done].
      split; [done|]. intros _. by apply H2.
    + split; [|done]. split; intros k Hk; [by apply Hn1|]. left. by rewrite <- Hf1.
Qed.

Lemma exec_main_tail file args w :
  exec (main_tail file args) w
  = let m1 := "Script name: " +:+ file in
    let m2 := "Script version: " +:+ version in
    let w2 := (handle (LoggingInfo m2) (handle (LoggingInfo m1) w).2).2 in
    let start := [LoggingInfo m1; LoggingInfo m2; OsPathIsdir (input_dataset args)] in
    if fs_isdir (fs w2) (input_dataset args) then
      match from_uri (input_dataset args) with
      | Ok ds =>
          let m3 := "Analysing items in dataset: " +:+ dataset_name ds in
          let rl := exec (for_each (dataset_identifiers ds)
                            (analyse_item ds (output_dir args)))
                      (handle (LoggingInfo m3) w2).2 in
          mkRun (outcome rl) (final rl)
            (start ++ DataSetFromUri (input_dataset args) :: LoggingInfo m3
                   :: calls rl)
      | Raise e =>
          mkRun (Raise e) w2 (start ++ [DataSetFromUri (input_dataset args)])
      end
    else
      mkRun (Raise (SystemExit 2 (input_dataset args +:+ " not a directory"))) w2
        (start ++ [ParserError (input_dataset args +:+ " not a directory")]).
Proof.
  unfold main_tail, analyse_dataset, logging_info, os_path_isdir. cbn.
  repeat (rewrite emit_info_ok; cbn).
  destruct (fs_isdir _ (input_dataset args)); cbn; [|reflexivity].
  destruct (from_uri (input_dataset args)) as [ds|e]; cbn; [|reflexivity].
  rewrite emit_info_ok. cbn. reflexivity.
Qed.

Lemma under_refl k : under k k.
Proof. by split. Qed.

Lemma has_dotdot_join a b :
  startswith_sep b = false →
  has_dotdot a = false → has_dotdot b = false →
  has_dotdot (os_path_join a b) = false.
Proof.
  unfold has_dotdot. intros Hb Ha Hd. rewrite components_join by done.
  apply bool_decide_eq_false in Ha. apply bool_decide_eq_false in Hd.
  apply bool_decide_eq_false. rewrite elem_of_app. tauto.
Qed.

(** X14.  Without [--debug], from a fresh interpreter and a well-formed
    file system, a run of the script removes nothing, and whatever way it
    ends, a directory it leaves that was not there before is the output
    directory, ["output"], ["output/.backend"] or a directory inside it
    (the cache of the data manager), or the output directory of an item
    of the dataset or a directory above it (inside the output directory
    when the item's directory, given without [".."], is, as it is for a
    relative ["relpath"] without [".."]); a file it leaves that was not
    there before is [audit.log] in the output directory, a file inside
    ["output/.backend"], or the annotation of a series in the output
    directory of an item. *)
Theorem script_leaves_only_its_outputs (file : string) (args : Namespace)
    (w : World) :
  let r := exec (script file args) w in
  let out := output_dir args in
  let log := os_path_join out "audit.log" in
  debug args = false → root_handler w = None → wf_fs (fs w) →
  fs_grows (fs w) (fs (final r))
  ∧ (∀ k, k ∈ dirs (fs (final r)) → k ∉ dirs (fs w) →
       path_key out = Some k ∨ k = (false, ["output"]) ∨ under backend_key k
       ∨ ∃ ds i kr,
           from_uri (input_dataset args) = Ok ds
           ∧ i ∈ dataset_identifiers ds
           ∧ path_key (item_output_dir ds out i) = Some kr
           ∧ under k kr
           ∧ (has_dotdot (item_output_dir ds out i) = false →
              under (dir_key out) kr → under (dir_key out) k))
  ∧ (∀ k, k ∈ dom (files (fs (final r))) → k ∉ dom (files (fs w)) →
       path_key log = Some k ∨ under backend_key k
       ∨ ∃ ds i s,
           from_uri (input_dataset args) = Ok ds
           ∧ i ∈ dataset_identifiers ds
           ∧ path_key (annotation_path (item_output_dir ds out i) s) = Some k)
  ∧ (∀ rel, path_key out ≠ None → startswith_sep rel = false →
       has_dotdot out = false → has_dotdot rel = false →
       ∃ kr, path_key (os_path_join out rel) = Some kr
             ∧ has_dotdot (os_path_join out rel) = false
             ∧ under (dir_key out) kr).
Proof.
  cbv zeta. intros Hdebug Hnone Hwf.
  set (out := output_dir args). set (log := os_path_join out "audit.log").
  set (D := fun k : Key =>
    path_key out = Some k ∨ k = (false, ["output"]) ∨ under backend_key k
    ∨ ∃ ds i kr,
        from_uri (input_dataset args) = Ok ds
        ∧ i ∈ dataset_identifiers ds
        ∧ path_key (item_output_dir ds out i) = Some kr
        ∧ under k kr
        ∧ (has_dotdot (item_output_dir ds out i) = false →
           under (dir_key out) kr → under (dir_key out) k)).
  set (F := fun k : Key =>
    path_key log = Some k ∨ under backend_key k
    ∨ ∃ ds i s,
        from_uri (input_dataset args) = Ok ds
        ∧ i ∈ dataset_identifiers ds
        ∧ path_key (annotation_path (item_output_dir ds out i) s) = Some k).
  split; [apply exec_grows|].
  assert (footprint D F (fs w) (fs (final (exec (script file args) w)))) as [Hd Hf].
  2:{ split; [|split].
      - intros k Hk Hn. by destruct (Hd k Hk).
      - intros k Hk Hn. by destruct (Hf k Hk).
      - intros rel Hout Hrel Hdo Hdr. unfold dir_key.
        destruct (path_key out) as [ko|] eqn:Hko; [|done].
        rewrite (path_key_join _ _ _ Hko Hrel). eexists. split; [done|].
        split; [by apply has_dotdot_join|].
        split; [done|]. by eexists. }
  rewrite exec_script.
  set (w0 := (handle (AutoNameSetPrefixFormat "{:03d}_") w).2).
  destruct (main_setup_no_debug args w0 Hdebug Hnone Hwf) as [Hfp Hok].
  fold out log in Hfp, Hok. change (fs w0) with (fs w) in Hfp, Hok.
  assert (footprint D F (fs w) (fs (final (exec (main_setup args) w0)))) as Hfp'.
  { eapply footprint_weaken; [| |exact Hfp]; intros k Hk; by left. }
  unfold then_run. cbn [final after].
  destruct (outcome (exec (main_setup args) w0)) as [[]|e]; [|exact Hfp'].
  destruct (Hok eq_refl) as (ko & Hko & Hset & _). clear Hok.
  set (w1 := final (exec (main_setup args) w0)) in *. clearbody w1.
  cbn [final]. rewrite exec_main_tail. cbv zeta.
  assert (∀ R_dir R_file ev w',
    writes_within R_dir R_file ev → set_up ko log w' →
    footprint D F (fs w) (fs w') →
    (∀ k, item_dirs ko R_dir k → D k) → (∀ k, item_files log R_file k → F k) →
    set_up ko log (handle ev w').2 ∧ footprint D F (fs w) (fs (handle ev w').2))
    as Hstep.
  { intros R_dir R_file ev w' Hev Hs Hfw HD HF. split; [by eapply handle_set_up|].
    eapply footprint_trans; [exact Hfw|].
    eapply footprint_weaken; [exact HD|exact HF|].
    eapply handle_footprint; [exact Hev|exact Hs|apply footprint_refl]. }
  assert (∀ k, item_dirs ko (fun _ => False) k → D k) as HD0.
  { intros k [->|[->|(? & ? & [] & _)]]; unfold D; auto using under_refl. }
  assert (∀ k, item_files log (fun _ => False) k → F k) as HF0.
  { intros k [?|(? & [] & _)]. by left. }
  destruct (Hstep (fun _ => False) (fun _ => False)
              (LoggingInfo ("Script name: " +:+ file)) w1 I Hset Hfp' HD0 HF0)
    as [Hs1 Hf1].
  destruct (Hstep (fun _ => False) (fun _ => False)
              (LoggingInfo ("Script version: " +:+ version)) _ I Hs1 Hf1 HD0 HF0)
    as [Hs2 Hf2].
  set (w2 := (handle (LoggingInfo ("Script version: " +:+ version)) _).2) in *.
  clearbody w2.
  destruct (fs_isdir (fs w2) (input_dataset args)); [|exact Hf2].
  destruct (from_uri (input_dataset args)) as [ds|e] eqn:Hds; [|exact Hf2].
  cbn [final].
  assert (∀ k, item_dirs ko (item_dir_of ds out) k → D k) as HD1.
  { intros k [->|[->|(p & kr & (i & Hi & ->) & Hkr & Hu & Hin)]]; unfold D;
      auto using under_refl.
    right. right. right. exists ds, i, kr. unfold dir_key. rewrite Hko. done. }
  assert (∀ k, item_files log (item_file_of ds out) k → F k) as HF1.
  { intros k [?|(p & (i & s & Hi & ->) & Hk)]; [by left|].
    right. right. by exists ds, i, s. }
  destruct (Hstep (item_dir_of ds out) (item_file_of ds out)
              (LoggingInfo ("Analysing items in dataset: " +:+ dataset_name ds))
              w2 I Hs2 Hf2 HD1 HF1) as [Hs3 Hf3].
  set (w3 := (handle (LoggingInfo _) w2).2) in *. clearbody w3.
  eapply footprint_trans; [exact Hf3|].
  eapply footprint_weaken; [exact HD1|exact HF1|].
  eapply exec_footprint; [apply items_write_within|exact Hs3|apply footprint_refl].
Qed.

Lemma records_app l1 l2 : records (l1 ++ l2) = records l1 +:+ records l2.
Proof.
  induction l1 as [|m l1 IH]; [done|].
  cbn [records foldr app]. fold (records (l1 ++ l2)) (records l1).
  by rewrite IH, string_app_assoc.
Qed.

Lemma handle_logged ko log klog R_dir R_file ev w c :
  writes_within R_dir R_file ev → set_up ko log w →
  path_key log = Some klog →
  (∀ p, R_file p → path_key p ≠ Some klog) →
  files (fs w) !! klog = Some c →
  files (fs (handle ev w).2) !! klog = Some (c +:+ records (omap logged [ev])).
Proof.
  intros Hev (Hwf & Hko & Hoff & Hh & Hl) Hklog HR Hc.
  destruct ev; try done; unfold handle; simpl in *;
    rewrite ?string_app_nil_r; try done.
  - by rewrite fs_mkdir_files.
  - by rewrite fs_makedirs_files.
  - rewrite fs_write_other; [done|by apply HR].
  - rewrite fs_append_other; [done|by apply HR].
  - unfold emit_info. simpl. rewrite Hh, Hl. simpl.
    by apply fs_append_file.
  - by rewrite autowrite_save_off.
  - unfold filebackend_init, mkdir_if_missing.
    destruct (fs_isdir _ _); [done|]. simpl. by rewrite fs_mkdir_files.
Qed.

Lemma exec_logged {A} ko log klog R_dir R_file (p : Prog A) :
  path_key log = Some klog →
  (∀ p, R_file p → path_key p ≠ Some klog) →
  events_satisfy (writes_within R_dir R_file) p →
  ∀ w c, set_up ko log w → files (fs w) !! klog = Some c →
    files (fs (final (exec p w))) !! klog
    = Some (c +:+ records (omap logged (calls (exec p w)))).
Proof.
  intros Hklog HR. induction p as [a|e|ev k IH]; intros Hp w c Hs Hc.
  - simpl. by rewrite string_app_nil_r.
  - simpl. by rewrite string_app_nil_r.
  - destruct Hp as [Hev Hk]. cbn [exec final calls after].
    change (ev :: ?l) with ([ev] ++ l). rewrite omap_app, records_app.
    rewrite string_app_assoc. apply IH; [apply Hk| |].
    + by eapply handle_set_up.
    + by eapply handle_logged.
Qed.

Lemma annotation_key_not_log out s log klog :
  path_key log = Some klog → (∃ cs, klog.2 = cs ++ ["audit.log"]) →
  path_key (annotation_path out s) ≠ Some klog.
Proof.
  intros Hk [cs Hcs]. rewrite annotation_key. intros [= H].
  rewrite <- H in Hcs. simpl in Hcs. apply app_inj_tail in Hcs as [_ Hcs].
  discriminate Hcs.
Qed.

Lemma omap_logged_silent {A} (p : Prog A) w :
  events_satisfy (fun ev => logged ev = None) p →
  omap logged (calls (exec p w)) = [].
Proof.
  intros Hp. apply omap_none. by apply (events_satisfy_calls _ p).
Qed.

Lemma analyse_item_logged ds out i w :
  outcome (exec (analyse_item ds out i) w) = Ok tt →
  omap logged (calls (exec (analyse_item ds out i) w))
  = ["Analysing file: " +:+ item_content_abspath ds i].
Proof.
  unfold analyse_item, getitem, item_output_path. intros H.
  destruct (item_properties ds i !! "relpath") as [rel|] eqn:Hrel; [|done].
  cbn [bind] in H |- *.
  apply exec_bind_ok in H as (d & Hd & H & _ & ->).
  rewrite omap_app. rewrite (omap_logged_silent (bind (safe_mkdir _) _)).
  2:{ unfold safe_mkdir. each_event. }
  unfold analyse_file, logging_info. cbn [bind call exec calls after].
  change (handle (LoggingInfo ?m) ?w') with (emit_info w' m).
  rewrite emit_info_ok. cbn [omap list_omap logged app].
  rewrite omap_logged_silent; [done|].
  unfold get_microscopy_collection, analyse_series, analyse_image,
    smooth_gaussian, threshold_abs, erode_binary,
    remove_small_objects, dilate_binary, connected_components, transformation,
    outline_component.
  each_event.
Qed.

Lemma main_tail_writes_annotations file args :
  events_satisfy
    (writes_within (fun _ => True) (fun p => ∃ d s, p = annotation_path d s))
    (main_tail file args).
Proof.
  unfold main_tail, analyse_dataset, analyse_item, item_output_path, safe_mkdir,
    getitem, os_path_isdir, os_mkdir, os_makedirs, logging_info.
  repeat first
    [ match goal with
      | |- events_satisfy _ (analyse_file ?f ?d) =>
          apply analyse_file_writes_within; intros s; by exists d, s
      end
    | event_step ].
Qed.

Lemma main_setup_silent args w :
  omap logged (calls (exec (main_setup args) w)) = [].
Proof. apply omap_logged_silent. unfold main_setup. each_event. Qed.

Lemma main_setup_fails args w e :
  root_handler w = None →
  outcome (exec (main_setup args) w) = Raise e →
  files (fs (final (exec (main_setup args) w))) = files (fs w).
Proof.
  intros Hh. unfold main_setup, os_path_isdir, os_mkdir. cbn.
  assert (∀ w1 l, root_handler w1 = None →
    (logging_basicConfig w1 (os_path_join (output_dir args) "audit.log") l).1
      ≠ Ok tt →
    files (fs (logging_basicConfig w1
                 (os_path_join (output_dir args) "audit.log") l).2)
    = files (fs w1)) as Hcfg.
  { intros w1 l Hh1. unfold logging_basicConfig, fs_append. rewrite Hh1.
    destruct (path_key _) as [k|]; [|done].
    by destruct (open_error (fs w1) k). }
  destruct (fs_isdir (fs w) (output_dir args)); cbn.
  - destruct (debug args); cbn.
    + match goal with |- context [logging_basicConfig ?w1 ?p ?l] =>
        pose proof (Hcfg w1 l Hh) as H;
        destruct (logging_basicConfig w1 p l) as [[[]|e'] w2] end; cbn in *; [done|].
      intros _. by apply H.
    + match goal with |- context [logging_basicConfig ?w1 ?p ?l] =>
        pose proof (Hcfg w1 l Hh) as H;
        destruct (logging_basicConfig w1 p l) as [[[]|e'] w2] end; cbn in *; [done|].
      intros _. by apply H.
  - pose proof (fs_mkdir_files (fs w) (output_dir args)) as Hf.
    destruct (fs_mkdir (fs w) (output_dir args)) as [[[]|e'] f1]; cbn in *; [|done].
    destruct (debug args); cbn.
    + match goal with |- context [logging_basicConfig ?w1 ?p ?l] =>
        pose proof (Hcfg w1 l Hh) as H;
        destruct (logging_basicConfig w1 p l) as [[[]|e''] w2] end; cbn in *; [done|].
      intros _. rewrite H by done. done.
    + match goal with |- context [logging_basicConfig ?w1 ?p ?l] =>
        pose proof (Hcfg w1 l Hh) as H;
        destruct (logging_basicConfig w1 p l) as [[[]|e''] w2] end; cbn in *; [done|].
      intros _. rewrite H by done. done.
Qed.

(** X15.  Without [--debug], from a fresh interpreter and a well-formed
    file system, a run of the script appends to [audit.log] in the output
    directory exactly one record per call of [logging.info] it makes, in
    order, after what the file held; when the run returns, the records are
    the name of the script, its version, the name of the dataset, and the
    path of the file of each item, in the order of the identifiers. *)
Theorem audit_log_records (file : string) (args : Namespace) (w : World) :
  let r := exec (script file args) w in
  let log := os_path_join (output_dir args) "audit.log" in
  debug args = false → root_handler w = None → wf_fs (fs w) →
  default "" (fs_read (fs (final r)) log)
  = default "" (fs_read (fs w) log) +:+ records (omap logged (calls r))
  ∧ (outcome r = Ok tt →
     is_Some (fs_read (fs (final r)) log)
     ∧ ∃ ds, from_uri (input_dataset args) = Ok ds
         ∧ omap logged (calls r)
           = [ "Script name: " +:+ file;
               "Script version: " +:+ version;
               "Analysing items in dataset: " +:+ dataset_name ds ]
             ++ map (fun i => "Analysing file: " +:+ item_content_abspath ds i)
                  (dataset_identifiers ds)).
Proof.
  cbv zeta. intros Hdebug Hnone Hwf.
  set (log := os_path_join (output_dir args) "audit.log").
  rewrite exec_script.
  set (w0 := (handle (AutoNameSetPrefixFormat "{:03d}_") w).2).
  destruct (main_setup_no_debug args w0 Hdebug Hnone Hwf) as [_ Hok].
  fold log in Hok. change (fs w0) with (fs w) in Hok.
  pose proof (main_setup_fails args w0) as Hfail.
  pose proof (main_setup_silent args w0) as Hsil.
  unfold then_run. cbn [final after calls outcome].
  destruct (outcome (exec (main_setup args) w0)) as [[]|e].
  - destruct (Hok eq_refl) as (ko & Hko & Hset & Hread). clear Hok Hfail.
    set (w1 := final (exec (main_setup args) w0)) in *. clearbody w1.
    cbn [final calls outcome]. cbn [omap list_omap logged].
    change (match logged (AutoNameSetPrefixFormat "{:03d}_") with
            | Some y => _ | None => ?l end) with l.
    rewrite omap_app, Hsil. cbn [app].
    assert (∃ klog, path_key log = Some klog ∧ klog.2 = ko.2 ++ ["audit.log"])
      as (klog & Hklog & Hcs).
    { eexists. split; [by apply (path_key_join _ _ _ Hko)|]. simpl. f_equal. }
    unfold fs_read in Hread |- *. rewrite Hklog in Hread |- *.
    cbn [mbind option_bind] in Hread |- *.
    rewrite (exec_logged ko log klog (fun _ => True)
               (fun p => ∃ d s, p = annotation_path d s)
               (main_tail file args) Hklog
               ltac:(intros p (d & s & ->);
                     apply (annotation_key_not_log _ _ log); [done|by eexists])
               (main_tail_writes_annotations file args) w1 _ Hset Hread).
    split; [done|]. intros Hout. split; [done|].
    revert Hout. rewrite exec_main_tail. cbv zeta.
    destruct (fs_isdir _ (input_dataset args)); [|done].
    destruct (from_uri (input_dataset args)) as [ds|e]; [|done].
    cbn [outcome calls]. intros Hout. exists ds. split; [done|].
    cbn [app omap list_omap logged]. do 3 f_equal.
    rewrite (for_each_calls logged
      (fun i => ["Analysing file: " +:+ item_content_abspath ds i])); [| |done].
    + apply concat_map_singleton.
    + intros i w' Hi. by apply analyse_item_logged.
  - split; [|done]. cbn [final calls outcome omap list_omap logged]. rewrite Hsil.
    cbn [records foldr]. rewrite string_app_nil_r.
    unfold fs_read. by rewrite (Hfail e Hnone eq_refl).
Qed.


End Properties.

(** * The theorems at concrete inputs *)

Lemma analyse_image_fixed_sequence_witness :
  AutoWrite_on (startup toy_fs) = true
  ∧ outcome (exec (analyse_image (L:=toy) toy_image) (startup toy_fs))
    = Ok [([2; 1; 2; 3; 4], 102)]
  ∧ annotated (L:=toy) toy_image = [([2; 1; 2; 3; 4], 102)]
  ∧ ∃ rest,
      calls (exec (analyse_image (L:=toy) toy_image) (startup toy_fs))
      = segmentation_calls (L:=toy) toy_image
        ++ Identifiers (L:=toy) [2] :: rest
      ∧ Forall (fun ev => chain_step ev = false) rest.
Proof.
  split; [reflexivity|]. split; [vm_compute; reflexivity|].
  destruct (analyse_image_fixed_sequence (L:=toy) (startup toy_fs) toy_image)
    as (_ & H & _).
  destruct (H [([2; 1; 2; 3; 4], 102)]) as [Hc Hrest];
    [vm_compute; reflexivity|].
  split; [symmetry; exact Hc|exact Hrest].
Defined.

Lemma analyse_image_outlines_each_component_witness :
  outcome (exec (analyse_image (L:=toy) toy_image) (startup toy_fs))
  = Ok [([2; 1; 2; 3; 4], 102)]
  ∧ omap masked (calls (exec (analyse_image (L:=toy) toy_image) (startup toy_fs)))
    = [([2; 1; 2; 3; 4], 102)].
Proof.
  assert (outcome (exec (analyse_image (L:=toy) toy_image) (startup toy_fs))
          = Ok [([2; 1; 2; 3; 4], 102)]) as Hok by (vm_compute; reflexivity).
  split; [exact Hok|].
  destruct (analyse_image_outlines_each_component (L:=toy) (startup toy_fs)
              toy_image _ Hok) as (_ & H & _).
  rewrite H. vm_compute. reflexivity.
Defined.

Lemma analyse_image_deterministic_witness :
  outcome (exec (analyse_image (L:=toy) toy_image) (startup toy_fs))
  = Ok [([2; 1; 2; 3; 4], 102)]
  ∧ outcome (exec (analyse_image (L:=toy) toy_image) (startup toy_fs_out))
    = Ok [([2; 1; 2; 3; 4], 102)]
  ∧ [([2; 1; 2; 3; 4], 102)] = [([2; 1; 2; 3; 4], 102)].
Proof.
  split; [vm_compute; reflexivity|]. split; [vm_compute; reflexivity|].
  apply (proj1 (analyse_image_deterministic (L:=toy) toy_image)
           (startup toy_fs) (startup toy_fs_out)); vm_compute; reflexivity.
Defined.

Lemma threshold_abs_is_absolute_witness :
  outcome (exec (threshold_abs (L:=toy) [[10; 31]; [30; 40]] 30)
             (startup toy_fs))
  = Ok [[false; true]; [false; true]]
  ∧ (pixel [[false; true]; [false; true]] 0 1 = Some true
     ↔ ∃ v, pixel [[10; 31]; [30; 40]] 0 1 = Some v ∧ (v >? 30) = true).
Proof.
  assert (outcome (exec (threshold_abs (L:=toy) [[10; 31]; [30; 40]] 30)
                     (startup toy_fs))
          = Ok [[false; true]; [false; true]]) as Hok by (vm_compute; reflexivity).
  split; [exact Hok|].
  destruct (threshold_abs_is_absolute (L:=toy) (startup toy_fs)
              [[10; 31]; [30; 40]] 30) as (_ & H & _).
  destruct (H _ Hok) as [_ Hpix]. exact (Hpix 0%nat 1%nat).
Defined.

Lemma analyse_file_one_png_per_series_witness :
  outcome (exec (L:=toy) (analyse_file "dataset/data/leaf_a.czi" "out")
             (startup toy_fs_out)) = Ok tt
  ∧ ∃ mc, @load toy "dataset/data/leaf_a.czi" = Ok mc
      ∧ omap opened
          (calls (exec (L:=toy) (analyse_file "dataset/data/leaf_a.czi" "out")
                    (startup toy_fs_out)))
        = map (fun s => os_path_join "out"
                          ("series_" +:+ format_03d s +:+ "_annotation.png"))
            (@collection_series toy mc).
Proof.
  assert (outcome (exec (L:=toy) (analyse_file "dataset/data/leaf_a.czi" "out")
                     (startup toy_fs_out)) = Ok tt) as Hok
    by (vm_compute; reflexivity).
  split; [exact Hok|].
  destruct (analyse_file_one_png_per_series (L:=toy) _ _ _ Hok)
    as (mc & Hload & Ho & _).
  exists mc. split; [exact Hload|exact Ho].
Defined.

Lemma analyse_dataset_every_item_witness :
  outcome (exec (L:=toy) (analyse_dataset "dataset" "out") (startup toy_fs_out))
  = Ok tt
  ∧ ∃ ds, @from_uri toy "dataset" = Ok ds
      ∧ omap made
          (calls (exec (L:=toy) (analyse_dataset "dataset" "out")
                    (startup toy_fs_out)))
        = map (item_output_dir ds "out") (dataset_identifiers ds).
Proof.
  assert (outcome (exec (L:=toy) (analyse_dataset "dataset" "out")
                     (startup toy_fs_out)) = Ok tt) as Hok
    by (vm_compute; reflexivity).
  split; [exact Hok|].
  destruct (analyse_dataset_every_item (L:=toy) _ _ _ Hok)
    as (ds & Hds & _ & Hm & _).
  exists ds. split; [exact Hds|exact Hm].
Defined.

Lemma safe_mkdir_is_the_only_recovery_witness :
  (fs_makedirs toy_fs "dataset").1 = Raise (OSError EEXIST)
  ∧ fs_isdir (fs_makedirs toy_fs "dataset").2 "dataset" = true
  ∧ outcome (exec (L:=toy) (safe_mkdir "dataset") (startup toy_fs)) = Ok tt.
Proof.
  split; [vm_compute; reflexivity|]. split; [vm_compute; reflexivity|].
  destruct (safe_mkdir_is_the_only_recovery (L:=toy) "dataset" (startup toy_fs))
    as (_ & Hiff & _).
  apply Hiff. right. split; vm_compute; reflexivity.
Defined.



Lemma toy_fs_wf : wf_fs toy_fs.
Proof.
  split; simpl.
  - intros k ->%elem_of_singleton. reflexivity.
  - intros k Hk. rewrite dom_empty_L in Hk. by apply elem_of_empty in Hk.
Qed.



Lemma get_microscopy_collection_output_is_file_witness :
  exec (L:=toy) (get_microscopy_collection "dataset/data/leaf_a.czi")
    (startup toy_fs_output_file)
  = mkRun (Raise (OSError EEXIST)) (startup toy_fs_output_file)
      [OsPathIsdir (L:=toy) "output"; OsMkdir (L:=toy) "output"].
Proof.
  apply (get_microscopy_collection_output_is_file (L:=toy));
    vm_compute; reflexivity.
Defined.

Lemma safe_mkdir_idempotent_witness :
  outcome (exec (L:=toy) (safe_mkdir "out/a/b") (startup toy_fs_out)) = Ok tt
  ∧ exec (L:=toy) (safe_mkdir "out/a/b")
      (final (exec (L:=toy) (safe_mkdir "out/a/b") (startup toy_fs_out)))
    = mkRun (Ok tt)
        (final (exec (L:=toy) (safe_mkdir "out/a/b") (startup toy_fs_out)))
        [OsMakedirs (L:=toy) "out/a/b"; OsPathIsdir (L:=toy) "out/a/b"].
Proof.
  assert (outcome (exec (L:=toy) (safe_mkdir "out/a/b") (startup toy_fs_out))
          = Ok tt) as Hok by (vm_compute; reflexivity).
  split; [exact Hok|].
  exact (safe_mkdir_idempotent (L:=toy) "out/a/b" (startup toy_fs_out) Hok).
Defined.

Lemma safe_mkdir_makes_parents_witness :
  isdir_key (fs (final (exec (L:=toy) (safe_mkdir "a/b/c") (startup toy_fs))))
    (false, ["a"; "b"]) = true.
Proof.
  apply (safe_mkdir_makes_parents (L:=toy) "a/b/c" (startup toy_fs)
           (false, ["a"; "b"; "c"]) toy_fs_wf).
  - vm_compute. reflexivity.
  - vm_compute. reflexivity.
  - split; [reflexivity|]. by exists ["c"].
Defined.


Lemma item_output_path_absolute_relpath_witness :
  exec (L:=toy) (item_output_path "elsewhere" "/srv/leaf") (startup toy_fs)
  = exec (L:=toy) (item_output_path "out" "/srv/leaf") (startup toy_fs).
Proof.
  apply (item_output_path_absolute_relpath (L:=toy) "out" "/srv/leaf"
           (startup toy_fs)).
  reflexivity.
Defined.

Lemma analyse_image_debug_images_witness :
  Forall (fun jn : Z * string =>
            fs_isfile
              (fs (final (exec (analyse_image (L:=toy) toy_image) toy_debug)))
              (intermediate_path toy_debug "out" jn.1 jn.2) = true)
    chain_names
  ∧ intermediate_path toy_debug "out" 1 "smooth_gaussian"
    = "out/001_smooth_gaussian.png".
Proof.
  split; [|vm_compute; reflexivity].
  apply (analyse_image_debug_images (L:=toy) toy_image toy_debug "out");
    try reflexivity.
  eexists. vm_compute. reflexivity.
Defined.

Lemma analyse_file_six_saves_per_series_witness :
  ∃ mc, @load toy "dataset/data/leaf_a.czi" = Ok mc
    ∧ saves (calls (exec (L:=toy) (analyse_file "dataset/data/leaf_a.czi" "out")
                      (startup toy_fs_out)))
      = 6 * Z.of_nat (length (@collection_series toy mc))
    ∧ AutoName_directory
        (final (exec (L:=toy) (analyse_file "dataset/data/leaf_a.czi" "out")
                  (startup toy_fs_out))) = Some "out".
Proof.
  destruct (analyse_file_six_saves_per_series (L:=toy)
              "dataset/data/leaf_a.czi" "out" (startup toy_fs_out))
    as (mc & Hload & Hs & _ & _ & Hd); [vm_compute; reflexivity|].
  exists mc. split; [exact Hload|]. split; [exact Hs|exact Hd].
Defined.

Lemma analyse_file_annotation_contents_witness :
  fs_read
    (fs (final (exec (L:=toy) (analyse_file "dataset/data/leaf_a.czi" "out")
                  toy_quiet)))
    "out/series_001_annotation.png"
  = Some "PNG0"
  ∧ path_key (annotation_path "out" 1)
    = Some (false, ["out"; "series_001_annotation.png"]).
Proof.
  destruct (analyse_file_annotation_contents (L:=toy)
              "dataset/data/leaf_a.czi" "out" toy_quiet)
    as (mc & Hload & Hread & Hk); [reflexivity|vm_compute; reflexivity|].
  assert (mc = [ [[0; 10]; [200; 255]]; [[0; 0]; [0; 0]] ]) as ->
    by (vm_compute in Hload; congruence).
  split; [|exact (Hk 1)].
  apply (Hread ltac:(vm_compute; apply NoDup_cons; split;
                       [by intros ?%list_elem_of_singleton
                       |apply NoDup_singleton]) 1).
  vm_compute. apply list_elem_of_further, list_elem_of_here.
Defined.

Lemma analyse_dataset_stops_at_first_failure_witness :
  outcome (exec (L:=toy) (analyse_dataset "dataset" "out")
             (startup toy_fs_blocked))
  = Raise (OSError ENOTDIR)
  ∧ omap loaded (calls (exec (L:=toy) (analyse_dataset "dataset" "out")
                          (startup toy_fs_blocked)))
    = ["dataset/data/leaf_a.czi"].
Proof.
  rewrite (analyse_dataset_stops_at_first_failure (L:=toy) "dataset" "out"
             (startup toy_fs_blocked) toy_dataset ["id_a"] [] "id_b"
             (OSError ENOTDIR));
    [|reflexivity|reflexivity|vm_compute; reflexivity|vm_compute; reflexivity].
  split; [reflexivity|vm_compute; reflexivity].
Defined.

Lemma analyse_dataset_missing_relpath_witness :
  outcome (exec (L:=toy_bare) (analyse_dataset "dataset" "out")
             (startup toy_fs_out))
  = Raise (KeyError "relpath").
Proof.
  destruct (analyse_dataset_missing_relpath (L:=toy_bare) "dataset" "out"
              (startup toy_fs_out) toy_dataset "id_a")
    as [_ H]; [reflexivity|by left|reflexivity|].
  by destruct (H ["id_b"] eq_refl) as [Ho _].
Defined.


Lemma script_leaves_only_its_outputs_witness :
  fs_grows toy_fs
    (fs (final (exec (L:=toy)
                  (script "analysis.py" (mkArgs "dataset" "out" false))
                  (startup toy_fs))))
  ∧ ∀ k, k ∈ dom (files (fs (final (exec (L:=toy)
                  (script "analysis.py" (mkArgs "dataset" "out" false))
                  (startup toy_fs))))) → k ∉ dom (files toy_fs) →
      path_key "out/audit.log" = Some k ∨ under backend_key k
      ∨ ∃ ds i s,
          @from_uri toy "dataset" = Ok ds
          ∧ i ∈ @dataset_identifiers toy ds
          ∧ path_key (annotation_path (item_output_dir (L:=toy) ds "out" i) s)
            = Some k.
Proof.
  destruct (script_leaves_only_its_outputs (L:=toy) "analysis.py"
              (mkArgs "dataset" "out" false) (startup toy_fs)
              eq_refl eq_refl toy_fs_wf)
    as (Hg & _ & Hf & _).
  split; [exact Hg|exact Hf].
Defined.

Lemma audit_log_records_witness :
  is_Some (fs_read
    (fs (final (exec (L:=toy)
                  (script "analysis.py" (mkArgs "dataset" "out" false))
                  (startup toy_fs))))
    "out/audit.log")
  ∧ omap logged
      (calls (exec (L:=toy)
                (script "analysis.py" (mkArgs "dataset" "out" false))
                (startup toy_fs)))
    = [ "Script name: analysis.py"; "Script version: 0.2.1";
        "Analysing items in dataset: toy";
        "Analysing file: dataset/data/leaf_a.czi";
        "Analysing file: dataset/data/sub/leaf_b.czi" ].
Proof.
  destruct (audit_log_records (L:=toy) "analysis.py"
              (mkArgs "dataset" "out" false) (startup toy_fs)
              eq_refl eq_refl toy_fs_wf) as [_ H].
  destruct H as (Hsome & ds & Hds & Hl); [vm_compute; reflexivity|].
  split; [exact Hsome|].
  rewrite Hl. injection Hds as <-. reflexivity.
Defined.

(** * Where the specification goes too far *)


